(** * connect.js: the derived-props synchronisation engine of [connect]

    A shallow embedding of [src/components/connect.js]: the [Connect]
    component class that [connect(mapStateToProps, mapDispatchToProps,
    mergeProps, options)] builds, with its cache, its dirty flags, its
    first-call installation of the mapping functions, its store listener
    and its render pass.

    Conventions of the embedding:
    - a plain object is a finite map from property names to values;
      [shallowEqual] only looks at own properties, and plain objects are
      never mutated by this code, so their identity is not represented;
    - identity is represented where the code compares references: the store
      state ([prevStoreState === storeState]) and the rendered element
      (a fresh identity per [createElement] call);
    - a user function (mapping or merge function) is a function of its
      arguments which either returns or throws a value;
    - every method is a computation over the instance and its environment
      which either returns normally or throws; mutations made before a
      throw stay, as in JavaScript;
    - the calls the component makes to user functions, to [createElement]
      and to [setState] are logged, newest first;
    - the development-mode warnings of [checkStateShape], the display name
      and the hot-reloading hook ([version], [componentWillUpdate]) have no
      effect on the cache and are left out. *)

From stdpp Require Import gmap strings list fin_maps.
From Stdlib Require Import ZArith.

Set Default Proof Using "Type".

(** ** Values and plain objects *)

(** JavaScript values as they occur as property values, thrown values and
    the dispatch capability.  An object or function is represented by its
    reference. *)
Inductive value :=
| VUndefined
| VNull
| VBool (b : bool)
| VNumber (n : Z)
| VString (s : string)
| VRef (r : nat).

#[global] Instance value_eq_dec : EqDecision value.
Proof. solve_decision. Defined.

(** [ToBoolean]: what [if (v)] tests. *)
Definition truthy (v : value) : bool :=
  match v with
  | VUndefined | VNull => false
  | VBool b => b
  | VNumber n => negb (n =? 0)%Z
  | VString s => negb (String.eqb s "")
  | VRef _ => true
  end.

(** [a === b] on values. *)
Definition strict_equal (a b : value) : bool := bool_decide (a = b).

(** Plain objects: own enumerable properties, keys unique, order irrelevant. *)
Abbreviation plainObject := (gmap string value).

(** Modelled from the spec: [utils/shallowEqual] is imported by connect.js
    and is not part of the sources at hand.  Two mappings are shallow-equal
    when they have the same key set and each corresponding value is
    reference/primitive-equal, one level deep. *)
Definition shallowEqual (a b : plainObject) : bool :=
  bool_decide (dom a = dom b)
  && bool_decide (map_Forall (λ k v, b !! k = Some v) a).

(** A store state: the value [getState()] returned, compared by [===], and
    the own properties it had when it was read. *)
Record storeState := StoreState {
  state_ref : value;
  state_fields : plainObject
}.

Definition same_state (a b : storeState) : bool :=
  strict_equal (state_ref a) (state_ref b).

(** ** User functions *)

(** What a call can do: return or throw. *)
Inductive completion (A : Type) :=
| Normal (a : A)
| Throw (e : value).
Arguments Normal {A} a.
Arguments Throw {A} e.

(** A mapping function over a source [S] (the store state, or the dispatch
    capability): its declared parameter count [fn.length] and what a call
    does.  The second argument is [None] when the function is called with
    one argument only.  A call returns a partial, or another mapping
    function (the factory pattern), or throws. *)
Inductive mapfn (S : Type) :=
| MapFn (length : nat) (call : S → option plainObject → mapped S)
with mapped (S : Type) :=
| RetObject (partial : plainObject)
| RetFunction (f : mapfn S)
| Throws (e : value).
Arguments MapFn {S} length call.
Arguments RetObject {S} partial.
Arguments RetFunction {S} f.
Arguments Throws {S} e.

Definition fn_length {S} (f : mapfn S) : nat :=
  match f with MapFn n _ => n end.

Definition fn_call {S} (f : mapfn S) : S → option plainObject → mapped S :=
  match f with MapFn _ c => c end.

(** A merge function [(stateProps, dispatchProps, parentProps) → props].
    The cached partials are [null] until computed. *)
Definition mergefn :=
  option plainObject → option plainObject → plainObject → completion plainObject.

(** Own enumerable properties of a possibly-null object, as the spread
    [{...x}] copies them. *)
Definition spread (o : option plainObject) : plainObject := default ∅ o.

(** ** Module-level defaults (lines 11-18) *)

Definition defaultMapStateToProps : mapfn storeState :=
  MapFn 1 (λ _ _, RetObject ∅).

Definition defaultMapDispatchToProps : mapfn value :=
  MapFn 1 (λ dispatch _, RetObject {[ "dispatch" := dispatch ]}).

(** [{...parentProps, ...stateProps, ...dispatchProps}]: later spreads
    override earlier ones; [∪] on maps is left-biased. *)
Definition defaultMergeProps
    (stateProps dispatchProps : option plainObject) (parentProps : plainObject)
    : plainObject :=
  spread dispatchProps ∪ (spread stateProps ∪ parentProps).

(** ** Rendered elements and the call log *)

(** The result of [createElement(WrappedComponent, props)].  Every call
    allocates a new element; [el_id] is its identity. *)
Record element := Element {
  el_id : nat;
  el_props : plainObject;
  el_ref : option string
}.

(** Where a mapping function is called from: the first-call installer
    ([configureFinalMap...]) or the recomputation ([compute...Props]). *)
Inductive call_site := Install | Recompute.

Inductive event :=
| EvMapState (site : call_site) (length : nat)
    (state : storeState) (ownProps : option plainObject)
| EvMapDispatch (site : call_site) (length : nat)
    (dispatch : value) (ownProps : option plainObject)
| EvMergeProps (stateProps dispatchProps : option plainObject)
    (parentProps : plainObject)
| EvCreateElement (e : element)
| EvSetState (s : storeState)
| EvSubscribe
| EvUnsubscribe
| EvRenderReturn (e : element)
| EvRenderThrow (e : value).

(** ** Configuration: the arguments of [connect] (lines 37-58) *)

(** [mapDispatchToProps]: a function, or falsy, or an object of action
    creators.  In the last case [wrapActionCreators] (not part of these
    sources) turns the object into a mapping function, carried here. *)
Inductive mapDispatchArg :=
| MDAbsent
| MDFunction (f : mapfn value)
| MDObject (wrapped : mapfn value).

Record options := Options {
  opt_pure : option bool;
  opt_withRef : option bool
}.

Record config := Config {
  mapStateToProps : option (mapfn storeState);
  mapDispatchToProps : mapDispatchArg;
  mergeProps : option mergefn;
  connect_options : options
}.

Definition shouldSubscribe (c : config) : bool :=
  bool_decide (is_Some (mapStateToProps c)).

Definition mapState (c : config) : mapfn storeState :=
  default defaultMapStateToProps (mapStateToProps c).

Definition mapDispatch (c : config) : mapfn value :=
  match mapDispatchToProps c with
  | MDFunction f => f
  | MDAbsent => defaultMapDispatchToProps
  | MDObject wrapped => wrapped
  end.

(** [const { pure = true, withRef = false } = options] *)
Definition pure (c : config) : bool := default true (opt_pure (connect_options c)).
Definition withRef (c : config) : bool := default false (opt_withRef (connect_options c)).

(** [finalMergeProps = mergeProps || defaultMergeProps], as a function. *)
Definition finalMergeProps (c : config) : mergefn :=
  match mergeProps c with
  | Some f => f
  | None => λ sp dp pp, Normal (defaultMergeProps sp dp pp)
  end.

(** [pure && finalMergeProps !== defaultMergeProps] *)
Definition checkMergedEquals (c : config) : bool :=
  pure c && bool_decide (is_Some (mergeProps c)).

(** ** The instance and its environment *)

(** The fields of a [Connect] instance.  [this.unsubscribe] is only tested
    for truthiness: [true] stands for the function [store.subscribe]
    returned.  The two dependency flags are [undefined] ([None]) until a
    mapping is installed; [clearCache] does not reset them. *)
Record instance := Instance {
  props : plainObject;
  state_storeState : storeState;
  dispatchProps : option plainObject;
  stateProps : option plainObject;
  mergedProps : option plainObject;
  haveOwnPropsChanged : bool;
  hasStoreStateChanged : bool;
  haveStatePropsBeenPrecalculated : bool;
  statePropsPrecalculationError : value;
  renderedElement : option element;
  finalMapDispatchToProps : option (mapfn value);
  finalMapStateToProps : option (mapfn storeState);
  doStatePropsDependOnOwnProps : option bool;
  doDispatchPropsDependOnOwnProps : option bool;
  unsubscribe : bool
}.

(** What the instance talks to: the store ([getState()], [dispatch], and
    whether this instance's listener is registered), the module-level
    [errorObject.value], the host's pending update request (set by
    [setState]), the number of elements allocated so far, and the log. *)
Record world := World {
  store_getState : storeState;
  store_dispatch : value;
  store_listening : bool;
  errorObject_value : value;
  update_requested : bool;
  allocated : nat;
  trace : list event
}.

Definition machine : Type := instance * world.

(** Field updates: [this.f = v]. *)
Definition set_props v (i : instance) : instance :=
  let (_, a2, a3, a4, a5, a6, a7, a8, a9, a10, a11, a12, a13, a14, a15) := i in
  Instance v a2 a3 a4 a5 a6 a7 a8 a9 a10 a11 a12 a13 a14 a15.
Definition set_state_storeState v (i : instance) : instance :=
  let (a1, _, a3, a4, a5, a6, a7, a8, a9, a10, a11, a12, a13, a14, a15) := i in
  Instance a1 v a3 a4 a5 a6 a7 a8 a9 a10 a11 a12 a13 a14 a15.
Definition set_dispatchProps v (i : instance) : instance :=
  let (a1, a2, _, a4, a5, a6, a7, a8, a9, a10, a11, a12, a13, a14, a15) := i in
  Instance a1 a2 v a4 a5 a6 a7 a8 a9 a10 a11 a12 a13 a14 a15.
Definition set_stateProps v (i : instance) : instance :=
  let (a1, a2, a3, _, a5, a6, a7, a8, a9, a10, a11, a12, a13, a14, a15) := i in
  Instance a1 a2 a3 v a5 a6 a7 a8 a9 a10 a11 a12 a13 a14 a15.
Definition set_mergedProps v (i : instance) : instance :=
  let (a1, a2, a3, a4, _, a6, a7, a8, a9, a10, a11, a12, a13, a14, a15) := i in
  Instance a1 a2 a3 a4 v a6 a7 a8 a9 a10 a11 a12 a13 a14 a15.
Definition set_haveOwnPropsChanged v (i : instance) : instance :=
  let (a1, a2, a3, a4, a5, _, a7, a8, a9, a10, a11, a12, a13, a14, a15) := i in
  Instance a1 a2 a3 a4 a5 v a7 a8 a9 a10 a11 a12 a13 a14 a15.
Definition set_hasStoreStateChanged v (i : instance) : instance :=
  let (a1, a2, a3, a4, a5, a6, _, a8, a9, a10, a11, a12, a13, a14, a15) := i in
  Instance a1 a2 a3 a4 a5 a6 v a8 a9 a10 a11 a12 a13 a14 a15.
Definition set_haveStatePropsBeenPrecalculated v (i : instance) : instance :=
  let (a1, a2, a3, a4, a5, a6, a7, _, a9, a10, a11, a12, a13, a14, a15) := i in
  Instance a1 a2 a3 a4 a5 a6 a7 v a9 a10 a11 a12 a13 a14 a15.
Definition set_statePropsPrecalculationError v (i : instance) : instance :=
  let (a1, a2, a3, a4, a5, a6, a7, a8, _, a10, a11, a12, a13, a14, a15) := i in
  Instance a1 a2 a3 a4 a5 a6 a7 a8 v a10 a11 a12 a13 a14 a15.
Definition set_renderedElement v (i : instance) : instance :=
  let (a1, a2, a3, a4, a5, a6, a7, a8, a9, _, a11, a12, a13, a14, a15) := i in
  Instance a1 a2 a3 a4 a5 a6 a7 a8 a9 v a11 a12 a13 a14 a15.
Definition set_finalMapDispatchToProps v (i : instance) : instance :=
  let (a1, a2, a3, a4, a5, a6, a7, a8, a9, a10, _, a12, a13, a14, a15) := i in
  Instance a1 a2 a3 a4 a5 a6 a7 a8 a9 a10 v a12 a13 a14 a15.
Definition set_finalMapStateToProps v (i : instance) : instance :=
  let (a1, a2, a3, a4, a5, a6, a7, a8, a9, a10, a11, _, a13, a14, a15) := i in
  Instance a1 a2 a3 a4 a5 a6 a7 a8 a9 a10 a11 v a13 a14 a15.
Definition set_doStatePropsDependOnOwnProps v (i : instance) : instance :=
  let (a1, a2, a3, a4, a5, a6, a7, a8, a9, a10, a11, a12, _, a14, a15) := i in
  Instance a1 a2 a3 a4 a5 a6 a7 a8 a9 a10 a11 a12 v a14 a15.
Definition set_doDispatchPropsDependOnOwnProps v (i : instance) : instance :=
  let (a1, a2, a3, a4, a5, a6, a7, a8, a9, a10, a11, a12, a13, _, a15) := i in
  Instance a1 a2 a3 a4 a5 a6 a7 a8 a9 a10 a11 a12 a13 v a15.
Definition set_unsubscribe v (i : instance) : instance :=
  let (a1, a2, a3, a4, a5, a6, a7, a8, a9, a10, a11, a12, a13, a14, _) := i in
  Instance a1 a2 a3 a4 a5 a6 a7 a8 a9 a10 a11 a12 a13 a14 v.

Definition set_store_getState v (w : world) : world :=
  let (_, b2, b3, b4, b5, b6, b7) := w in
  World v b2 b3 b4 b5 b6 b7.
Definition set_store_listening v (w : world) : world :=
  let (b1, b2, _, b4, b5, b6, b7) := w in
  World b1 b2 v b4 b5 b6 b7.
Definition set_errorObject_value v (w : world) : world :=
  let (b1, b2, b3, _, b5, b6, b7) := w in
  World b1 b2 b3 v b5 b6 b7.
Definition set_update_requested v (w : world) : world :=
  let (b1, b2, b3, b4, _, b6, b7) := w in
  World b1 b2 b3 b4 v b6 b7.
Definition set_allocated v (w : world) : world :=
  let (b1, b2, b3, b4, b5, _, b7) := w in
  World b1 b2 b3 b4 b5 v b7.
Definition set_trace v (w : world) : world :=
  let (b1, b2, b3, b4, b5, b6, _) := w in
  World b1 b2 b3 b4 b5 b6 v.

(** ** Computations *)

(** A method body: runs on the instance and its environment, and returns
    or throws; the machine it leaves is kept in both cases. *)
Definition M (A : Type) : Type := machine → completion A * machine.

Definition ret {A} (a : A) : M A := λ m, (Normal a, m).
Definition throw {A} (e : value) : M A := λ m, (Throw e, m).
Definition bind {A B} (x : M A) (k : A → M B) : M B :=
  λ m, match x m with
       | (Normal a, m') => k a m'
       | (Throw e, m') => (Throw e, m')
       end.

Declare Scope js_scope.
Delimit Scope js_scope with js.
Notation "'let*' x ':=' c1 'in' c2" := (bind c1 (λ x, c2))
  (at level 10, x name, c1 at level 100, c2 at level 200) : js_scope.
Notation "c1 >> c2" := (bind c1 (λ _, c2))
  (at level 100, c2 at level 200, right associativity) : js_scope.
Open Scope js_scope.

(** Read a field of [this]; assign a field of [this]. *)
Definition this {A} (f : instance → A) : M A := λ m, (Normal (f m.1), m).
Definition assign (f : instance → instance) : M unit :=
  λ m, (Normal tt, (f m.1, m.2)).
Definition env {A} (f : world → A) : M A := λ m, (Normal (f m.2), m).
Definition env_set (f : world → world) : M unit :=
  λ m, (Normal tt, (m.1, f m.2)).
Definition log (e : event) : M unit := env_set (λ w, set_trace (e :: trace w) w).

(** The completion of a user function, lifted. *)
Definition complete {A} (c : completion A) : M A :=
  match c with Normal a => ret a | Throw e => throw e end.

(** Truthiness of a field holding an object or [null]. *)
Definition is_Some_bool {A} (o : option A) : bool :=
  match o with Some _ => true | None => false end.

(** JavaScript truthiness of a flag that may still be [undefined]. *)
Definition flag (o : option bool) : bool := default false o.


(** ** [tryCatch] (lines 24-32) *)

(** What [tryCatch] hands back: the function's result, or the module-level
    [errorObject] after storing the thrown value in it. *)
Inductive caught (A : Type) :=
| Returned (a : A)
| ErrorObject.
Arguments Returned {A} a.
Arguments ErrorObject {A}.

Definition tryCatch {A} (fn : M A) : M (caught A) :=
  λ m, match fn m with
       | (Normal a, m') => (Normal (Returned a), m')
       | (Throw e, m') => (Normal ErrorObject, (m'.1, set_errorObject_value e m'.2))
       end.

(** ** The [Connect] class (lines 85-421) *)

(** The object before the constructor body runs: no field assigned yet. *)
Definition blank : instance :=
  {| props := ∅;
     state_storeState := StoreState VUndefined ∅;
     dispatchProps := None;
     stateProps := None;
     mergedProps := None;
     haveOwnPropsChanged := false;
     hasStoreStateChanged := false;
     haveStatePropsBeenPrecalculated := false;
     statePropsPrecalculationError := VUndefined;
     renderedElement := None;
     finalMapDispatchToProps := None;
     finalMapStateToProps := None;
     doStatePropsDependOnOwnProps := None;
     doDispatchPropsDependOnOwnProps := None;
     unsubscribe := false |}.

(** A partial as the cache holds it.  A callable returned where a partial
    was expected is kept as it is by the code (only [checkStateShape]
    warns); what [shallowEqual] and the spread see of it are its own
    enumerable properties, of which a function has none. *)
Definition own_properties {S} (r : plainObject + mapfn S) : plainObject :=
  match r with inl p => p | inr _ => ∅ end.

Section Connect.

Context (cfg : config).

(** Lines 77-83. *)
Definition computeMergedProps
    (stateProps dispatchProps : option plainObject) (parentProps : plainObject)
    : M plainObject :=
  log (EvMergeProps stateProps dispatchProps parentProps) >>
  complete (finalMergeProps cfg stateProps dispatchProps parentProps).

(** Lines 86-88. *)
Definition shouldComponentUpdate : M bool :=
  let* own := this haveOwnPropsChanged in
  let* store := this hasStoreStateChanged in
  ret (negb (pure cfg) || own || store).

(** Lines 268-283. *)
Definition clearCache : M unit :=
  assign (set_dispatchProps None) >>
  assign (set_stateProps None) >>
  assign (set_mergedProps None) >>
  assign (set_haveOwnPropsChanged true) >>
  assign (set_hasStoreStateChanged true) >>
  assign (set_haveStatePropsBeenPrecalculated false) >>
  assign (set_statePropsPrecalculationError VNull) >>
  assign (set_renderedElement None) >>
  assign (set_finalMapDispatchToProps None) >>
  assign (set_finalMapStateToProps None).

(** Lines 92-109.  The store is the environment; it is always there. *)
Definition constructor (props : plainObject) : M unit :=
  assign (set_props props) >>
  let* storeState := env store_getState in
  assign (set_state_storeState storeState) >>
  clearCache.

(** A call of a state mapping function, logged. *)
Definition invokeMapState (site : call_site) (f : mapfn storeState)
    (state : storeState) (ownProps : option plainObject)
    : M (plainObject + mapfn storeState) :=
  log (EvMapState site (fn_length f) state ownProps) >>
  match fn_call f state ownProps with
  | RetObject p => ret (inl p)
  | RetFunction g => ret (inr g)
  | Throws e => throw e
  end.

Definition invokeMapDispatch (site : call_site) (f : mapfn value)
    (dispatch : value) (ownProps : option plainObject)
    : M (plainObject + mapfn value) :=
  log (EvMapDispatch site (fn_length f) dispatch ownProps) >>
  match fn_call f dispatch ownProps with
  | RetObject p => ret (inl p)
  | RetFunction g => ret (inr g)
  | Throws e => throw e
  end.

(** Lines 122-131: [computeStateProps] once [finalMapStateToProps] is set. *)
Definition computeStateProps_installed
    (final : mapfn storeState) (props : plainObject) : M plainObject :=
  let* state := env store_getState in
  let* depends := this doStatePropsDependOnOwnProps in
  let* stateProps :=
    (if flag depends
     then invokeMapState Recompute final state (Some props)
     else invokeMapState Recompute final state None) in
  ret (own_properties stateProps).

(** Lines 137-154.  When the first result is a function, the method calls
    [this.computeStateProps] again; [finalMapStateToProps] has just been
    set, so that call runs lines 122-131. *)
Definition configureFinalMapState (props : plainObject) : M plainObject :=
  let* state := env store_getState in
  let* mappedState := invokeMapState Install (mapState cfg) state (Some props) in
  let final := match mappedState with inr f => f | inl _ => mapState cfg end in
  assign (set_finalMapStateToProps (Some final)) >>
  assign (set_doStatePropsDependOnOwnProps
            (Some (bool_decide (fn_length final ≠ 1)))) >>
  match mappedState with
  | inr _ => computeStateProps_installed final props
  | inl p => ret p
  end.

(** Lines 113-132. *)
Definition computeStateProps (props : plainObject) : M plainObject :=
  let* final := this finalMapStateToProps in
  match final with
  | None => configureFinalMapState props
  | Some f => computeStateProps_installed f props
  end.

(** Lines 161-169. *)
Definition computeDispatchProps_installed
    (final : mapfn value) (props : plainObject) : M plainObject :=
  let* dispatch := env store_dispatch in
  let* depends := this doDispatchPropsDependOnOwnProps in
  let* dispatchProps :=
    (if flag depends
     then invokeMapDispatch Recompute final dispatch (Some props)
     else invokeMapDispatch Recompute final dispatch None) in
  ret (own_properties dispatchProps).

(** Lines 173-188. *)
Definition configureFinalMapDispatch (props : plainObject) : M plainObject :=
  let* dispatch := env store_dispatch in
  let* mappedDispatch :=
    invokeMapDispatch Install (mapDispatch cfg) dispatch (Some props) in
  let final := match mappedDispatch with inr f => f | inl _ => mapDispatch cfg end in
  assign (set_finalMapDispatchToProps (Some final)) >>
  assign (set_doDispatchPropsDependOnOwnProps
            (Some (bool_decide (fn_length final ≠ 1)))) >>
  match mappedDispatch with
  | inr _ => computeDispatchProps_installed final props
  | inl p => ret p
  end.

(** Lines 156-170. *)
Definition computeDispatchProps (props : plainObject) : M plainObject :=
  let* final := this finalMapDispatchToProps in
  match final with
  | None => configureFinalMapDispatch props
  | Some f => computeDispatchProps_installed f props
  end.

(** [this.x && shallowEqual(next, this.x)] *)
Definition cached_equal (next : plainObject) (cached : option plainObject) : bool :=
  match cached with
  | Some old => shallowEqual next old
  | None => false
  end.

(** Lines 193-201. *)
Definition updateStatePropsIfNeeded : M bool :=
  let* props := this props in
  let* nextStateProps := computeStateProps props in
  let* cached := this stateProps in
  if cached_equal nextStateProps cached then ret false
  else assign (set_stateProps (Some nextStateProps)) >> ret true.

(** Lines 203-211. *)
Definition updateDispatchPropsIfNeeded : M bool :=
  let* props := this props in
  let* nextDispatchProps := computeDispatchProps props in
  let* cached := this dispatchProps in
  if cached_equal nextDispatchProps cached then ret false
  else assign (set_dispatchProps (Some nextDispatchProps)) >> ret true.

(** Lines 213-224. *)
Definition updateMergedPropsIfNeeded : M bool :=
  let* stateProps := this stateProps in
  let* dispatchProps := this dispatchProps in
  let* props := this props in
  let* nextMergedProps := computeMergedProps stateProps dispatchProps props in
  let* cached := this mergedProps in
  if is_Some_bool cached && checkMergedEquals cfg && cached_equal nextMergedProps cached
  then ret false
  else assign (set_mergedProps (Some nextMergedProps)) >> ret true.

(** Lines 226-228. *)
Definition isSubscribed : M bool := this unsubscribe.

(** [this.setState({ storeState })]: the new state is recorded and the host
    is asked for an update pass, which it runs once the caller is done
    (see [flush]). *)
Definition setState (storeState : storeState) : M unit :=
  log (EvSetState storeState) >>
  assign (set_state_storeState storeState) >>
  env_set (set_update_requested true).

(** Lines 288-324. *)
Definition handleChange : M unit :=
  let* subscribed := this unsubscribe in
  if negb subscribed then ret tt else
  let* storeState := env store_getState in
  let* prevStoreState := this state_storeState in
  if pure cfg && same_state prevStoreState storeState then ret tt else
  let* depends := this doStatePropsDependOnOwnProps in
  let request :=
    assign (set_hasStoreStateChanged true) >>
    setState storeState in
  if pure cfg && negb (flag depends) then
    let* haveStatePropsChanged := tryCatch updateStatePropsIfNeeded in
    match haveStatePropsChanged with
    | Returned false => ret tt
    | Returned true =>
        assign (set_haveStatePropsBeenPrecalculated true) >>
        request
    | ErrorObject =>
        let* e := env errorObject_value in
        assign (set_statePropsPrecalculationError e) >>
        assign (set_haveStatePropsBeenPrecalculated true) >>
        request
    end
  else request.

(** Lines 232-237. *)
Definition trySubscribe : M unit :=
  let* subscribed := this unsubscribe in
  if shouldSubscribe cfg && negb subscribed then
    env_set (set_store_listening true) >>
    log EvSubscribe >>
    assign (set_unsubscribe true) >>
    handleChange
  else ret tt.

(** Lines 240-245. *)
Definition tryUnsubscribe : M unit :=
  let* subscribed := this unsubscribe in
  if subscribed then
    env_set (set_store_listening false) >>
    log EvUnsubscribe >>
    assign (set_unsubscribe false)
  else ret tt.

(** Lines 248-250. *)
Definition componentDidMount : M unit := trySubscribe.

(** Lines 254-260. *)
Definition componentWillReceiveProps (nextProps : plainObject) : M unit :=
  let* props := this props in
  if negb (pure cfg) || negb (shallowEqual nextProps props)
  then assign (set_haveOwnPropsChanged true)
  else ret tt.

(** Lines 263-266. *)
Definition componentWillUnmount : M unit :=
  tryUnsubscribe >> clearCache.

(** Lines 407-419: build the element from [this.mergedProps]. *)
Definition createElement : M element :=
  let* mergedProps := this mergedProps in
  let* id := env allocated in
  let e := Element id (spread mergedProps)
             (if withRef cfg then Some "wrappedInstance" else None) in
  env_set (set_allocated (S id)) >>
  log (EvCreateElement e) >>
  assign (set_renderedElement (Some e)) >>
  ret e.

(** Lines 338-420. *)
Definition render : M element :=
  let* haveOwnPropsChanged := this haveOwnPropsChanged in
  let* hasStoreStateChanged := this hasStoreStateChanged in
  let* haveStatePropsBeenPrecalculated := this haveStatePropsBeenPrecalculated in
  let* statePropsPrecalculationError := this statePropsPrecalculationError in
  let* renderedElement := this renderedElement in
  assign (set_haveOwnPropsChanged false) >>
  assign (set_hasStoreStateChanged false) >>
  assign (set_haveStatePropsBeenPrecalculated false) >>
  assign (set_statePropsPrecalculationError VNull) >>
  if truthy statePropsPrecalculationError then throw statePropsPrecalculationError else
  let* stateDepends := this doStatePropsDependOnOwnProps in
  let* dispatchDepends := this doDispatchPropsDependOnOwnProps in
  let shouldUpdateStateProps :=
    if pure cfg && is_Some_bool renderedElement
    then hasStoreStateChanged || (haveOwnPropsChanged && flag stateDepends)
    else true in
  let shouldUpdateDispatchProps :=
    if pure cfg && is_Some_bool renderedElement
    then haveOwnPropsChanged && flag dispatchDepends
    else true in
  let* haveStatePropsChanged :=
    (if haveStatePropsBeenPrecalculated then ret true
     else if shouldUpdateStateProps then updateStatePropsIfNeeded
     else ret false) in
  let* haveDispatchPropsChanged :=
    (if shouldUpdateDispatchProps then updateDispatchPropsIfNeeded
     else ret false) in
  let* haveMergedPropsChanged :=
    (if haveStatePropsChanged || haveDispatchPropsChanged || haveOwnPropsChanged
     then updateMergedPropsIfNeeded
     else ret false) in
  match renderedElement with
  | Some previous =>
      if negb haveMergedPropsChanged then ret previous else createElement
  | None => createElement
  end.

(** ** The host's side of the lifecycle

    The view host is not part of connect.js.  It drives the instance
    through the lifecycle methods above: an update pass asks
    [shouldComponentUpdate] and renders on a positive answer; new own
    properties go through [componentWillReceiveProps] and replace
    [this.props] before the pass; a store notification calls the listener,
    if registered, and then the host runs the pass [setState] asked for.
    A render that throws ends its pass; the outcome of every render is
    logged. *)

Definition host_render : M unit :=
  λ m, match render m with
       | (Normal e, m') => log (EvRenderReturn e) m'
       | (Throw e, m') => log (EvRenderThrow e) m'
       end.

Definition update_pass : M unit :=
  let* go := shouldComponentUpdate in
  if go then host_render else ret tt.

Definition flush : M unit :=
  let* requested := env update_requested in
  if requested then env_set (set_update_requested false) >> update_pass
  else ret tt.

Definition notify : M unit :=
  let* listening := env store_listening in
  if listening then handleChange else ret tt.

Inductive host_event :=
| ReceiveProps (nextProps : plainObject)
| StoreChange (s : storeState)
| Unmount.

Definition host_step (ev : host_event) : M unit :=
  match ev with
  | ReceiveProps nextProps =>
      componentWillReceiveProps nextProps >>
      assign (set_props nextProps) >>
      update_pass
  | StoreChange s =>
      env_set (set_store_getState s) >>
      notify >>
      flush
  | Unmount => componentWillUnmount
  end.

(** Construction, first render, mount. *)
Definition mount (props : plainObject) : M unit :=
  constructor props >>
  host_render >>
  componentDidMount >>
  flush.

Fixpoint host_run (evs : list host_event) : M unit :=
  match evs with
  | [] => ret tt
  | ev :: rest => host_step ev >> host_run rest
  end.

End Connect.

(** A store that nothing has subscribed to and an empty log. *)
Definition initial_world (s : storeState) (dispatch : value) : world :=
  {| store_getState := s;
     store_dispatch := dispatch;
     store_listening := false;
     errorObject_value := VNull;
     update_requested := false;
     allocated := 0;
     trace := [] |}.

(** The machine after [events], started by mounting with [props]. *)
Definition lifetime (cfg : config) (s : storeState) (dispatch : value)
    (props : plainObject) (events : list host_event) : machine :=
  snd ((mount cfg props >> host_run cfg events) (blank, initial_world s dispatch)).


(** ** Counting calls in the log *)

Definition is_state_call (e : event) : bool :=
  match e with EvMapState _ _ _ _ => true | _ => false end.
Definition is_dispatch_call (e : event) : bool :=
  match e with EvMapDispatch _ _ _ _ => true | _ => false end.
Definition is_merge_call (e : event) : bool :=
  match e with EvMergeProps _ _ _ => true | _ => false end.

Fixpoint count (p : event → bool) (t : list event) : nat :=
  match t with
  | [] => 0
  | e :: rest => (if p e then 1 else 0) + count p rest
  end.

Definition state_calls := count is_state_call.
Definition dispatch_calls := count is_dispatch_call.
Definition merge_calls := count is_merge_call.


(** The machine right after mounting, and after some further events. *)
Definition mounted (cfg : config) (s : storeState) (dispatch : value)
    (props : plainObject) : machine :=
  snd (mount cfg props (blank, initial_world s dispatch)).

Definition after (cfg : config) (events : list host_event) (m : machine) : machine :=
  snd (host_run cfg events m).

(** ** Counting renders and changes over a run *)

(** Whether the cached MergedProps after an update is shallow-unequal to
    the one before it. *)
Definition merged_changed (before after : option plainObject) : bool :=
  match before, after with
  | Some a, Some b => negb (shallowEqual b a)
  | None, None => false
  | _, _ => true
  end.

(** The number of updates of a run after which MergedProps is
    shallow-unequal to its predecessor. *)
Fixpoint changed_updates (cfg : config) (events : list host_event) (m : machine)
    : nat :=
  match events with
  | [] => 0
  | ev :: rest =>
      let m' := snd (host_step cfg ev m) in
      (if merged_changed (mergedProps (fst m)) (mergedProps (fst m')) then 1 else 0)
      + changed_updates cfg rest m'
  end.

(** The number of elements a run produces. *)
Definition produced (cfg : config) (events : list host_event) (m : machine) : nat :=
  allocated (snd (after cfg events m)) - allocated (snd m).

(** ** The dependency flags and the calls they decide *)

(** A slot is consistent when the dependency flag is the one computed from
    the parameter count of the installed mapping. *)
Definition slot_ok {S} (final : option (mapfn S)) (depends : option bool) : Prop :=
  ∀ f, final = Some f → depends = Some (bool_decide (fn_length f ≠ 1)).

Definition consistent (i : instance) : Prop :=
  slot_ok (finalMapStateToProps i) (doStatePropsDependOnOwnProps i)
  ∧ slot_ok (finalMapDispatchToProps i) (doDispatchPropsDependOnOwnProps i).

(** What the log must show of every call made through an installed
    mapping: a mapping declared with exactly one parameter was given the
    source alone, any other was given own properties as well. *)
Definition arity_rule (e : event) : Prop :=
  match e with
  | EvMapState Recompute n _ ownProps
  | EvMapDispatch Recompute n _ ownProps =>
      (n = 1 → ownProps = None) ∧ (n ≠ 1 → is_Some ownProps)
  | _ => True
  end.

(** ** Installing a mapping *)

(** The instance once [g] is the state slot's resolved mapping; likewise
    for the dispatch slot. *)
Definition installed_state (g : mapfn storeState) (i : instance) : instance :=
  set_doStatePropsDependOnOwnProps (Some (bool_decide (fn_length g ≠ 1)))
    (set_finalMapStateToProps (Some g) i).

Definition installed_dispatch (g : mapfn value) (i : instance) : instance :=
  set_doDispatchPropsDependOnOwnProps (Some (bool_decide (fn_length g ≠ 1)))
    (set_finalMapDispatchToProps (Some g) i).

(** What a call made through an installed mapping hands back as partial. *)
Definition partial_of {S} (r : mapped S) : completion plainObject :=
  match r with
  | RetObject p => Normal p
  | RetFunction _ => Normal ∅
  | Throws e => Throw e
  end.

(** No result of an eager recomputation is pending. *)
Definition no_deferred (i : instance) : Prop :=
  haveStatePropsBeenPrecalculated i = false
  ∧ truthy (statePropsPrecalculationError i) = false.

(** ** What a method may touch *)

(** What an update may touch.  The state slot is [stateProps] with the
    installed mapping and its dependency flag; likewise for dispatch. *)
Definition state_slot_only (i i' : instance) : Prop :=
  i' = set_stateProps (stateProps i')
         (set_finalMapStateToProps (finalMapStateToProps i')
            (set_doStatePropsDependOnOwnProps (doStatePropsDependOnOwnProps i') i)).

Definition dispatch_slot_only (i i' : instance) : Prop :=
  i' = set_dispatchProps (dispatchProps i')
         (set_finalMapDispatchToProps (finalMapDispatchToProps i')
            (set_doDispatchPropsDependOnOwnProps
               (doDispatchPropsDependOnOwnProps i') i)).

Definition trace_only (w w' : world) : Prop := w' = set_trace (trace w') w.

Definition merged_only (i i' : instance) : Prop :=
  i' = set_mergedProps (mergedProps i') i.

(** The tail of the handler: mark the store state as changed and ask the
    host for an update with the state [s] just read. *)
Definition request_update (s : storeState) (m : machine) : machine :=
  (set_state_storeState s (set_hasStoreStateChanged true m.1),
   set_update_requested true (set_trace (EvSetState s :: trace m.2) m.2)).

(** The four dirty flags, reset. *)
Definition reset_flags (i : instance) : instance :=
  set_statePropsPrecalculationError VNull
    (set_haveStatePropsBeenPrecalculated false
       (set_hasStoreStateChanged false
          (set_haveOwnPropsChanged false i))).


(** ** Concrete stores and configurations *)

(** The dispatch capability of the example store. *)
Definition the_dispatch : value := VRef 100.

(** A state object with reference [r] and the given properties. *)
Definition state_object (r : nat) (fields : list (string * value)) : storeState :=
  StoreState (VRef r) (list_to_map fields).

(** [{ k: o.k }] *)
Definition pick (k : string) (o : plainObject) : plainObject :=
  match o !! k with
  | Some v => {[ k := v ]}
  | None => ∅
  end.

(** [connect(state => ({ count: state.count }))] *)
Definition counter_config : config :=
  Config (Some (MapFn 1 (λ s _, RetObject (pick "count" (state_fields s)))))
    MDAbsent None (Options None None).

(** The same with [{ pure: false }]. *)
Definition impure_counter_config : config :=
  Config (Some (MapFn 1 (λ s _, RetObject (pick "count" (state_fields s)))))
    MDAbsent None (Options (Some false) None).

Definition counter_mounted : machine :=
  mounted counter_config (state_object 1 [("count", VNumber 0)]) the_dispatch ∅.

Definition impure_counter_mounted : machine :=
  mounted impure_counter_config (state_object 1 [("count", VNumber 0)]) the_dispatch ∅.

(** [state => { if ("bad" in state) throw e; return {} }] *)
Definition throwing_config (e : value) : config :=
  Config
    (Some (MapFn 1 (λ s _,
       match state_fields s !! "bad" with
       | Some _ => Throws e
       | None => RetObject ∅
       end)))
    MDAbsent None (Options None None).

Definition throwing_mounted (e : value) : machine :=
  mounted (throwing_config e) (state_object 1 []) the_dispatch ∅.

(** The store has moved on to [s]; the listener has not run yet. *)
Definition store_moved (s : storeState) (m : machine) : machine :=
  (fst m, set_store_getState s (snd m)).

(** A merge function that ignores its arguments: [() => ({ k: 1 })]. *)
Definition constant_merge : mergefn := λ _ _ _, Normal {[ "k" := VNumber 1 ]}.

(** [connect(mapState, undefined, constant_merge, { pure })] *)
Definition merging_config (pure : option bool) : config :=
  Config (Some (MapFn 1 (λ s _, RetObject (pick "count" (state_fields s)))))
    MDAbsent (Some constant_merge) (Options pure None).

Definition merging_mounted (pure : option bool) : machine :=
  mounted (merging_config pure) (state_object 1 [("count", VNumber 0)])
    the_dispatch ∅.

(** [connect(state => ({ a: 5 }))]: the state partial shadows the own
    property [a] in the default merge. *)
Definition shadowing_config : config :=
  Config (Some (MapFn 1 (λ _ _, RetObject {[ "a" := VNumber 5 ]})))
    MDAbsent None (Options None None).

Definition shadowing_mounted : machine :=
  mounted shadowing_config (state_object 1 []) the_dispatch {[ "a" := VNumber 1 ]}.

(** A merge function that keeps the state partial only:
    [(stateProps) => ({ ...stateProps })]. *)
Definition state_only_merge : mergefn := λ stateProps _ _, Normal (spread stateProps).

Definition selecting_config : config :=
  Config (Some (MapFn 1 (λ s _, RetObject (pick "count" (state_fields s)))))
    MDAbsent (Some state_only_merge) (Options None None).

Definition selecting_mounted : machine :=
  mounted selecting_config (state_object 1 [("count", VNumber 0)]) the_dispatch ∅.

(** A new state with a new count, new own properties, the same count in a
    new state object. *)
Definition selecting_run : list host_event :=
  [ StoreChange (state_object 2 [("count", VNumber 1)]);
    ReceiveProps {[ "id" := VNumber 2 ]};
    StoreChange (state_object 3 [("count", VNumber 1)]) ].

(** A factory: [(state, props) => state => ({ count: state.count })]. *)
Definition factory_config : config :=
  Config
    (Some (MapFn 2 (λ _ _,
       RetFunction (MapFn 1 (λ s _, RetObject (pick "count" (state_fields s)))))))
    MDAbsent None (Options None None).

(** A state mapping that reads own properties:
    [(state, props) => ({ count: state.count, id: props.id })]. *)
Definition own_props_config : config :=
  Config
    (Some (MapFn 2 (λ s props,
       RetObject (pick "count" (state_fields s) ∪ pick "id" (default ∅ props)))))
    MDAbsent None (Options None None).

(** ** Hot reloading (lines 432-443) *)

Section HotReload.
Context (cfg : config).

(** [componentWillUpdate], installed outside production builds.  The
    instance's [this.version] is passed in and the new one returned;
    [version] is the one of the current [connect] call. *)
Definition componentWillUpdate (this_version version : nat) : M nat :=
  if bool_decide (this_version = version) then ret this_version
  else trySubscribe cfg >> clearCache >> ret version.

End HotReload.

(** ** More about the log and the cache *)

Definition is_subscribe (e : event) : bool :=
  match e with EvSubscribe => true | _ => false end.
Definition is_unsubscribe (e : event) : bool :=
  match e with EvUnsubscribe => true | _ => false end.
Definition is_state_change (ev : host_event) : bool :=
  match ev with StoreChange _ => true | _ => false end.

(** The cache as [clearCache] leaves it. *)
Definition cache_cleared (i : instance) : Prop :=
  dispatchProps i = None
  ∧ stateProps i = None
  ∧ mergedProps i = None
  ∧ haveOwnPropsChanged i = true
  ∧ hasStoreStateChanged i = true
  ∧ haveStatePropsBeenPrecalculated i = false
  ∧ statePropsPrecalculationError i = VNull
  ∧ renderedElement i = None
  ∧ finalMapDispatchToProps i = None
  ∧ finalMapStateToProps i = None.

(** The listener is registered with the store exactly when the instance
    holds the unsubscribe function; no update request is left pending; and
    the log shows one more subscription than unsubscriptions exactly when
    the instance is subscribed. *)
Definition subscription_ok (m : machine) : Prop :=
  store_listening (snd m) = unsubscribe (fst m)
  ∧ update_requested (snd m) = false
  ∧ count is_subscribe (trace (snd m))
    = count is_unsubscribe (trace (snd m))
      + (if unsubscribe (fst m) then 1 else 0).

(** The rendered element, if any, was built from the cached MergedProps,
    carries the ref exactly under [withRef], and is older than the next
    allocation. *)
Definition element_current (cfg : config) (m : machine) : Prop :=
  ∀ e, renderedElement (fst m) = Some e →
    el_props e = spread (mergedProps (fst m))
    ∧ el_ref e = (if withRef cfg then Some "wrappedInstance" else None)
    ∧ el_id e < allocated (snd m).

(** ** More concrete machines *)

(** A counter instance constructed and not yet rendered. *)
Definition counter_constructed : machine :=
  snd (constructor ∅
         (blank, initial_world (state_object 1 [("count", VNumber 0)]) the_dispatch)).

(** The first element of the counter. *)
Definition counter_element : element :=
  Element 0 {[ "count" := VNumber 0; "dispatch" := the_dispatch ]} None.

(** A class of events that no mapping or merge call belongs to. *)
Definition call_free (p : event → bool) : Prop :=
  (∀ site n s o, p (EvMapState site n s o) = false)
  ∧ (∀ site n d o, p (EvMapDispatch site n d o) = false)
  ∧ (∀ sp dp pp, p (EvMergeProps sp dp pp) = false).

(** The instance is subscribed exactly when a state mapping was given. *)
Definition subscribed_as_configured (cfg : config) (m : machine) : Prop :=
  unsubscribe (fst m) = shouldSubscribe cfg.

(** ** Omitted mappings (lines 39-52) *)

(** With [mapDispatchToProps] omitted: the dispatch slot holds nothing but
    the default mapping, and the cached DispatchProps, once there, is the
    store's dispatch under the key [dispatch]; it is there whenever an
    element has been rendered. *)
Definition default_dispatch_ok (m : machine) : Prop :=
  (finalMapDispatchToProps (fst m) = None
   ∨ finalMapDispatchToProps (fst m) = Some defaultMapDispatchToProps)
  ∧ (dispatchProps (fst m) = None
     ∨ dispatchProps (fst m)
       = Some {[ "dispatch" := store_dispatch (snd m) ]})
  ∧ (renderedElement (fst m) = None
     ∨ dispatchProps (fst m)
       = Some {[ "dispatch" := store_dispatch (snd m) ]}).

(** With [mapStateToProps] omitted: the state slot holds nothing but the
    default mapping; the cached StateProps, once there, is empty, and it
    is there whenever an element has been rendered; the handler has
    precalculated nothing; and the instance is not subscribed and never
    was. *)
Definition default_state_ok (m : machine) : Prop :=
  (finalMapStateToProps (fst m) = None
   ∨ finalMapStateToProps (fst m) = Some defaultMapStateToProps)
  ∧ (stateProps (fst m) = None ∨ stateProps (fst m) = Some ∅)
  ∧ (renderedElement (fst m) = None ∨ stateProps (fst m) = Some ∅)
  ∧ haveStatePropsBeenPrecalculated (fst m) = false
  ∧ unsubscribe (fst m) = false
  ∧ count is_subscribe (trace (snd m)) = 0.

(** ** Invariants of a lifetime *)

(** Running [c] keeps the property [P] of the machine, whether it returns
    or throws. *)
Definition preserves {A} (P : machine → Prop) (c : M A) : Prop :=
  ∀ m, P m → P (snd (c m)).

(** The outcome of a render, as the host logs it. *)
Definition is_outcome (e : event) : bool :=
  match e with EvRenderReturn _ | EvRenderThrow _ => true | _ => false end.

(** The three assignments of [trySubscribe] (lines 233-235), before it
    runs the handler. *)
Definition subscribe : M unit :=
  env_set (set_store_listening true) >>
  log EvSubscribe >>
  assign (set_unsubscribe true).

(** [P] is kept by everything a mounted instance goes through: a render
    pass, a run of the handler, the host logging an outcome, receiving own
    properties, the store changing state, an update request being taken up,
    subscribing, and unmounting. *)
Record closed (cfg : config) (P : machine → Prop) : Prop := Closed {
  closed_render : preserves P (render cfg);
  closed_handleChange : preserves P (handleChange cfg);
  closed_outcome : ∀ e, is_outcome e = true → preserves P (log e);
  closed_own : preserves P (assign (set_haveOwnPropsChanged true));
  closed_props : ∀ p, preserves P (assign (set_props p));
  closed_store : ∀ s, preserves P (env_set (set_store_getState s));
  closed_request : preserves P (env_set (set_update_requested false));
  closed_subscribe :
    ∀ m, shouldSubscribe cfg = true → unsubscribe (fst m) = false →
         P m → P (snd (subscribe m));
  closed_unmount : preserves P componentWillUnmount
}.

(** The same with coarser steps: a render pass together with the logging
    of its outcome, and the reception of own properties together with the
    update pass that follows it. *)
Record stepwise (cfg : config) (P : machine → Prop) : Prop := Stepwise {
  stepwise_host_render : preserves P (host_render cfg);
  stepwise_handleChange : preserves P (handleChange cfg);
  stepwise_receive : ∀ p, preserves P (host_step cfg (ReceiveProps p));
  stepwise_store : ∀ s, preserves P (env_set (set_store_getState s));
  stepwise_request : preserves P (env_set (set_update_requested false));
  stepwise_subscribe :
    ∀ m, shouldSubscribe cfg = true → unsubscribe (fst m) = false →
         P m → P (snd (subscribe m));
  stepwise_unmount : preserves P componentWillUnmount
}.

(** ** The cached MergedProps and what it was merged from *)

Definition is_render_throw (e : event) : bool :=
  match e with EvRenderThrow _ => true | _ => false end.

(** No render pass of the log threw. *)
Definition no_render_threw (t : list event) : Prop :=
  count is_render_throw t = 0.

(** The cached MergedProps, if any, is what the merge function returns on
    the cached partials and the current own properties. *)
Definition merged_coherent (cfg : config) (i : instance) : Prop :=
  ∀ merged, mergedProps i = Some merged →
    finalMergeProps cfg (stateProps i) (dispatchProps i) (props i)
    = Normal merged.

(** What a render pass needs to find in order to leave the cache coherent:
    a coherent cache, or a flag that makes it merge again. *)
Definition merge_due (cfg : config) (i : instance) : Prop :=
  haveOwnPropsChanged i = true
  ∨ haveStatePropsBeenPrecalculated i = true
  ∨ merged_coherent cfg i.

(** Between host events, as long as no render pass has thrown: neither
    flag is pending and the cache is coherent. *)
Definition settled (cfg : config) (m : machine) : Prop :=
  no_render_threw (trace (snd m)) →
  is_Some (mergedProps (fst m)) →
  haveOwnPropsChanged (fst m) = false
  ∧ haveStatePropsBeenPrecalculated (fst m) = false
  ∧ merged_coherent cfg (fst m).

(** The instance the constructor leaves (lines 92-109). *)
Definition constructed (props : plainObject) (s : storeState) : instance :=
  {| props := props;
     state_storeState := s;
     dispatchProps := None;
     stateProps := None;
     mergedProps := None;
     haveOwnPropsChanged := true;
     hasStoreStateChanged := true;
     haveStatePropsBeenPrecalculated := false;
     statePropsPrecalculationError := VNull;
     renderedElement := None;
     finalMapDispatchToProps := None;
     finalMapStateToProps := None;
     doStatePropsDependOnOwnProps := None;
     doDispatchPropsDependOnOwnProps := None;
     unsubscribe := false |}.

(** ** What the cached StateProps was computed from *)

(** The own-properties argument of a call through an installed mapping
    (lines 122-131): given exactly when the parameter count is not 1. *)
Definition own_argument {S} (f : mapfn S) (props : plainObject)
    : option plainObject :=
  if bool_decide (fn_length f ≠ 1) then Some props else None.

(** The partial a call through the installed mapping [f] hands back. *)
Definition recomputed {S} (f : mapfn S) (source : S) (props : plainObject)
    : completion plainObject :=
  partial_of (fn_call f source (own_argument f props)).

(** The mappings that can end up in a slot: the configured one, or a
    function it returned when called for installation. *)
Definition installable {S} (configured f : mapfn S) : Prop :=
  f = configured
  ∨ ∃ source props, fn_call configured source (Some props) = RetFunction f.

(** A function declared with one parameter does not look at a second
    argument. *)
Definition ignores_extra_argument {S} (f : mapfn S) : Prop :=
  fn_length f = 1 →
  ∀ source props, fn_call f source (Some props) = fn_call f source None.

(** Whatever the configured mapping or a function it returned throws is
    truthy. *)
Definition throws_truthy {S} (configured : mapfn S) : Prop :=
  ∀ f source o e,
    installable configured f → fn_call f source o = Throws e →
    truthy e = true.

(** The state slot holds an installable mapping, with the dependency flag
    computed from its parameter count. *)
Definition state_slot_ok (cfg : config) (i : instance) : Prop :=
  ∀ f, finalMapStateToProps i = Some f →
    installable (mapState cfg) f
    ∧ doStatePropsDependOnOwnProps i = Some (bool_decide (fn_length f ≠ 1)).

(** The cached StateProps is what the installed mapping hands back for the
    state [s] and the current own properties. *)
Definition state_fresh_at (s : storeState) (i : instance) : Prop :=
  ∃ f sp,
    finalMapStateToProps i = Some f
    ∧ stateProps i = Some sp
    ∧ recomputed f s (props i) = Normal sp.

(** The same for the store's current state. *)
Definition state_fresh (m : machine) : Prop :=
  state_fresh_at (store_getState (snd m)) (fst m).

(** The ways a run of the handler on a subscribed instance can end
    (lines 288-324). *)
Inductive handled (cfg : config) (m m' : machine) : Prop :=
| handled_same_state :
    pure cfg = true →
    same_state (state_storeState (fst m)) (store_getState (snd m)) = true →
    m' = m →
    handled cfg m m'
| handled_unchanged :
    pure cfg = true →
    flag (doStatePropsDependOnOwnProps (fst m)) = false →
    state_fresh m' →
    stateProps (fst m') = stateProps (fst m) →
    state_storeState (fst m') = state_storeState (fst m) →
    haveStatePropsBeenPrecalculated (fst m')
    = haveStatePropsBeenPrecalculated (fst m) →
    hasStoreStateChanged (fst m') = hasStoreStateChanged (fst m) →
    update_requested (snd m') = update_requested (snd m) →
    handled cfg m m'
| handled_precalculated :
    state_fresh m' →
    haveStatePropsBeenPrecalculated (fst m') = true →
    state_storeState (fst m') = store_getState (snd m) →
    hasStoreStateChanged (fst m') = true →
    update_requested (snd m') = true →
    handled cfg m m'
| handled_failed :
    truthy (statePropsPrecalculationError (fst m')) = true →
    state_storeState (fst m') = store_getState (snd m) →
    hasStoreStateChanged (fst m') = true →
    update_requested (snd m') = true →
    handled cfg m m'
| handled_requested :
    pure cfg = false ∨ flag (doStatePropsDependOnOwnProps (fst m)) = true →
    stateProps (fst m') = stateProps (fst m) →
    haveStatePropsBeenPrecalculated (fst m')
    = haveStatePropsBeenPrecalculated (fst m) →
    statePropsPrecalculationError (fst m')
    = statePropsPrecalculationError (fst m) →
    state_storeState (fst m') = store_getState (snd m) →
    hasStoreStateChanged (fst m') = true →
    update_requested (snd m') = true →
    handled cfg m m'.

(** What a render pass needs to find in order to leave the cached
    StateProps fresh: it is fresh already, or nothing is precalculated and
    the pass is going to recompute it. *)
Definition recompute_due (cfg : config) (i : instance) : Prop :=
  haveStatePropsBeenPrecalculated i = false
  ∧ (pure cfg = false
     ∨ renderedElement i = None
     ∨ hasStoreStateChanged i = true
     ∨ haveOwnPropsChanged i = true ∧ flag (doStatePropsDependOnOwnProps i) = true).

(** The installed mapping hands back the same for the recorded store state
    as for the store's current state. *)
Definition states_agree (m : machine) : Prop :=
  ∀ f props,
    finalMapStateToProps (fst m) = Some f →
    recomputed f (state_storeState (fst m)) props
    = recomputed f (store_getState (snd m)) props.

(** State objects that [===] identifies are the same: the store does not
    change a state object in place. *)
Definition distinct_states (universe : list storeState) : Prop :=
  ∀ a b, a ∈ universe → b ∈ universe → same_state a b = true → a = b.

(** The states the store goes through in a lifetime. *)
Definition store_states (s : storeState) (evs : list host_event)
    : list storeState :=
  s :: omap (λ ev, match ev with StoreChange s' => Some s' | _ => None end) evs.

(** Between host events, for a subscribed instance: the slot is in order
    and, as long as no render pass has thrown, nothing is precalculated and
    the cached StateProps is fresh for the recorded store state, which the
    mapping does not tell from the current one. *)
Definition state_settled (cfg : config) (universe : list storeState)
    (m : machine) : Prop :=
  state_slot_ok cfg (fst m)
  ∧ state_storeState (fst m) ∈ universe
  ∧ store_getState (snd m) ∈ universe
  ∧ (no_render_threw (trace (snd m)) →
     haveStatePropsBeenPrecalculated (fst m) = false
     ∧ state_fresh_at (state_storeState (fst m)) (fst m)
     ∧ states_agree m).

(** An event of a mounted instance, with a store state of [universe]. *)
Definition mounted_event (universe : list storeState) (ev : host_event) : Prop :=
  match ev with
  | ReceiveProps _ => True
  | StoreChange s => s ∈ universe
  | Unmount => False
  end.

(** ** What the cached DispatchProps was computed from *)

(** The dispatch slot holds an installable mapping, with the dependency
    flag computed from its parameter count. *)
Definition dispatch_slot_ok (cfg : config) (i : instance) : Prop :=
  ∀ f, finalMapDispatchToProps i = Some f →
    installable (mapDispatch cfg) f
    ∧ doDispatchPropsDependOnOwnProps i
      = Some (bool_decide (fn_length f ≠ 1)).

(** The cached DispatchProps, if any, is what the installed mapping hands
    back for the store's dispatch and the current own properties; and there
    is one whenever an element has been rendered. *)
Definition dispatch_fresh (m : machine) : Prop :=
  (∀ dp, dispatchProps (fst m) = Some dp →
     ∃ f,
       finalMapDispatchToProps (fst m) = Some f
       ∧ recomputed f (store_dispatch (snd m)) (props (fst m)) = Normal dp)
  ∧ (is_Some (renderedElement (fst m)) → is_Some (dispatchProps (fst m))).

(** The render pass is going to recompute the DispatchProps. *)
Definition dispatch_due (cfg : config) (i : instance) : Prop :=
  pure cfg = false
  ∨ renderedElement i = None
  ∨ haveOwnPropsChanged i = true
    ∧ flag (doDispatchPropsDependOnOwnProps i) = true.

(** The slot is in order and, as long as no render pass has thrown, the
    cached DispatchProps is fresh. *)
Definition dispatch_settled (cfg : config) (m : machine) : Prop :=
  dispatch_slot_ok cfg (fst m)
  ∧ (no_render_threw (trace (snd m)) → dispatch_fresh m).

(** ** What the wrapped component receives *)

(** As long as no render pass has thrown: once an element has been
    rendered there is a cached MergedProps, and until then the
    own-properties flag is set, so that the first pass merges. *)
Definition merged_present (m : machine) : Prop :=
  no_render_threw (trace (snd m)) →
  match renderedElement (fst m) with
  | Some _ => is_Some (mergedProps (fst m))
  | None => haveOwnPropsChanged (fst m) = true
  end.

(** The own properties after the events: the last ones received. *)
Fixpoint current_props (props : plainObject) (evs : list host_event)
    : plainObject :=
  match evs with
  | [] => props
  | ReceiveProps nextProps :: rest => current_props nextProps rest
  | _ :: rest => current_props props rest
  end.

(** The store's state after the events: the last one it changed to. *)
Fixpoint current_state (s : storeState) (evs : list host_event) : storeState :=
  match evs with
  | [] => s
  | StoreChange s' :: rest => current_state s' rest
  | _ :: rest => current_state s rest
  end.
(** * Properties *)

(** ** Shallow equality *)

Lemma shallowEqual_eq (a b : plainObject) : shallowEqual a b = true ↔ a = b.
Proof.
  unfold shallowEqual. rewrite andb_true_iff, !bool_decide_eq_true. split.
  - intros [Hdom Hall]. apply map_eq. intros k.
    destruct (a !! k) as [v|] eqn:Ha.
    + symmetry. exact (Hall k v Ha).
    + symmetry. apply not_elem_of_dom. rewrite <- Hdom.
      by apply not_elem_of_dom.
  - intros ->. split; [done|]. by intros k v Hk.
Qed.

Lemma shallowEqual_refl (a : plainObject) : shallowEqual a a = true.
Proof. by apply shallowEqual_eq. Qed.

Lemma shallowEqual_neq (a b : plainObject) : shallowEqual a b = false ↔ a ≠ b.
Proof.
  rewrite <- not_true_iff_false. by rewrite shallowEqual_eq.
Qed.

Lemma cached_equal_true next cached :
  cached_equal next cached = true ↔ cached = Some next.
Proof.
  destruct cached as [old|]; simpl; [|done].
  rewrite shallowEqual_eq. split; congruence.
Qed.

Lemma cached_equal_false next cached :
  cached_equal next cached = false ↔ cached ≠ Some next.
Proof.
  rewrite <- not_true_iff_false. by rewrite cached_equal_true.
Qed.

(** Unfolding the method bodies down to the machine. *)
#[local] Arguments same_state : simpl never.
#[local] Arguments shallowEqual : simpl never.
#[local] Arguments cached_equal : simpl never.
#[local] Arguments finalMergeProps : simpl never.
#[local] Arguments checkMergedEquals : simpl never.
#[local] Arguments pure : simpl never.
#[local] Arguments withRef : simpl never.
#[local] Arguments shouldSubscribe : simpl never.
#[local] Arguments mapState : simpl never.
#[local] Arguments mapDispatch : simpl never.
#[local] Arguments truthy : simpl never.

Ltac unfold_monad :=
  unfold log, complete in *;
  unfold bind, ret, throw, this, assign, env, env_set in *.

Ltac unfold_methods :=
  unfold host_step, host_render, update_pass, flush, notify,
    componentWillReceiveProps, componentWillUnmount, componentDidMount,
    trySubscribe, tryUnsubscribe, handleChange, setState, render, createElement,
    shouldComponentUpdate, clearCache, tryCatch,
    updateMergedPropsIfNeeded, updateDispatchPropsIfNeeded,
    updateStatePropsIfNeeded, computeMergedProps,
    computeDispatchProps, configureFinalMapDispatch,
    computeDispatchProps_installed, computeStateProps, configureFinalMapState,
    computeStateProps_installed, invokeMapState, invokeMapDispatch in *.

Ltac js_simpl := unfold_methods; unfold_monad; simpl in *.

(** ** The three cache updates *)

(** Equations between instances and between environments, fieldwise. *)
Ltac fieldwise :=
  repeat match goal with
  | H : Instance _ _ _ _ _ _ _ _ _ _ _ _ _ _ _
        = Instance _ _ _ _ _ _ _ _ _ _ _ _ _ _ _ |- _ =>
      injection H; clear H; intros
  | H : World _ _ _ _ _ _ _ = World _ _ _ _ _ _ _ |- _ =>
      injection H; clear H; intros
  end; simplify_eq.

(** Closed facts about concrete machines, one conjunct at a time. *)
Ltac by_computation :=
  repeat match goal with |- _ ∧ _ => split end; vm_compute; reflexivity.

Ltac js_cases :=
  repeat (simpl in *; simplify_eq; case_match);
  simpl in *; simplify_eq; simpl in *.

(** The arity rule at a call whose flag has just been decided. *)
Ltac arity_cases :=
  repeat match goal with
  | H : bool_decide _ = true |- _ => apply bool_decide_eq_true in H
  | H : bool_decide _ = false |- _ => apply bool_decide_eq_false in H
  end;
  split; intros; try done; eauto; try lia.

Section Updates.
Context (cfg : config).

Lemma updateStatePropsIfNeeded_spec i w r i' w' :
  updateStatePropsIfNeeded cfg (i, w) = (r, (i', w')) →
  state_slot_only i i'
  ∧ trace_only w w'
  ∧ state_calls (trace w) < state_calls (trace w')
  ∧ dispatch_calls (trace w') = dispatch_calls (trace w)
  ∧ merge_calls (trace w') = merge_calls (trace w)
  ∧ match r with
    | Normal true => stateProps i' ≠ stateProps i ∧ is_Some (stateProps i')
    | _ => stateProps i' = stateProps i
    end.
Proof.
  unfold state_slot_only, trace_only, state_calls, dispatch_calls, merge_calls.
  destruct i, w. js_simpl. intros H. js_cases;
    repeat split; try done; try lia; eauto;
    try (match goal with H : cached_equal _ _ = false |- _ =>
           apply cached_equal_false in H end; congruence).
Qed.

Lemma updateDispatchPropsIfNeeded_spec i w r i' w' :
  updateDispatchPropsIfNeeded cfg (i, w) = (r, (i', w')) →
  dispatch_slot_only i i'
  ∧ trace_only w w'
  ∧ dispatch_calls (trace w) < dispatch_calls (trace w')
  ∧ state_calls (trace w') = state_calls (trace w)
  ∧ merge_calls (trace w') = merge_calls (trace w)
  ∧ match r with
    | Normal true => dispatchProps i' ≠ dispatchProps i ∧ is_Some (dispatchProps i')
    | _ => dispatchProps i' = dispatchProps i
    end.
Proof.
  unfold dispatch_slot_only, trace_only, state_calls, dispatch_calls, merge_calls.
  destruct i, w. js_simpl. intros H. js_cases;
    repeat split; try done; try lia; eauto;
    try (match goal with H : cached_equal _ _ = false |- _ =>
           apply cached_equal_false in H end; congruence).
Qed.

(** The merge update, as a function of what the merge function returns. *)
Lemma updateMergedPropsIfNeeded_returns i w next :
  finalMergeProps cfg (stateProps i) (dispatchProps i) (props i) = Normal next →
  updateMergedPropsIfNeeded cfg (i, w)
  = let w' := set_trace (EvMergeProps (stateProps i) (dispatchProps i) (props i)
                           :: trace w) w in
    if checkMergedEquals cfg && cached_equal next (mergedProps i)
    then (Normal false, (i, w'))
    else (Normal true, (set_mergedProps (Some next) i, w')).
Proof.
  intros Hm. destruct i, w. js_simpl. rewrite Hm. simpl.
  destruct mergedProps0 as [old|]; simpl.
  - by destruct (checkMergedEquals cfg), (cached_equal next (Some old)).
  - replace (cached_equal next None) with false by done.
    by rewrite andb_false_r.
Qed.

Lemma updateMergedPropsIfNeeded_throws i w e :
  finalMergeProps cfg (stateProps i) (dispatchProps i) (props i) = Throw e →
  updateMergedPropsIfNeeded cfg (i, w)
  = (Throw e,
     (i, set_trace (EvMergeProps (stateProps i) (dispatchProps i) (props i)
                      :: trace w) w)).
Proof.
  intros Hm. destruct i, w. js_simpl. by rewrite Hm.
Qed.

Lemma updateMergedPropsIfNeeded_spec i w r i' w' :
  updateMergedPropsIfNeeded cfg (i, w) = (r, (i', w')) →
  merged_only i i'
  ∧ trace_only w w'
  ∧ merge_calls (trace w') = S (merge_calls (trace w))
  ∧ state_calls (trace w') = state_calls (trace w)
  ∧ dispatch_calls (trace w') = dispatch_calls (trace w)
  ∧ match r with
    | Normal true =>
        is_Some (mergedProps i')
        ∧ (checkMergedEquals cfg = true → mergedProps i' ≠ mergedProps i)
    | Normal false =>
        mergedProps i' = mergedProps i ∧ checkMergedEquals cfg = true
    | Throw _ => mergedProps i' = mergedProps i
    end.
Proof.
  unfold merged_only, trace_only, state_calls, dispatch_calls, merge_calls.
  destruct (finalMergeProps cfg (stateProps i) (dispatchProps i) (props i))
    as [next|e] eqn:Hm.
  - rewrite (updateMergedPropsIfNeeded_returns _ _ _ Hm).
    destruct i, w. simpl in *.
    destruct (checkMergedEquals cfg) eqn:Hc; simpl;
      [destruct (cached_equal next mergedProps0) eqn:Heq|];
      intros ?; simplify_eq; simpl in *;
      repeat split; eauto; try done.
    intros _. apply cached_equal_false in Heq. congruence.
  - rewrite (updateMergedPropsIfNeeded_throws _ _ _ Hm).
    destruct i, w. intros ?; by simplify_eq.
Qed.

(** Installed mappings stay, and the dependency flags stay consistent with
    them; every call through an installed mapping obeys the arity rule. *)
Lemma updateStatePropsIfNeeded_slot i w r i' w' :
  updateStatePropsIfNeeded cfg (i, w) = (r, (i', w')) →
  (∀ g, finalMapStateToProps i = Some g →
     finalMapStateToProps i' = Some g
     ∧ doStatePropsDependOnOwnProps i' = doStatePropsDependOnOwnProps i)
  ∧ (slot_ok (finalMapStateToProps i) (doStatePropsDependOnOwnProps i) →
     Forall arity_rule (trace w) →
     slot_ok (finalMapStateToProps i') (doStatePropsDependOnOwnProps i')
     ∧ Forall arity_rule (trace w')).
Proof.
  unfold slot_ok. destruct i, w. js_simpl. intros H.
  split; [intros g ?|intros Hok Hall]; js_cases;
    try (split; [by intros; simplify_eq|]);
    try (split; [done|]);
    repeat (apply Forall_cons; split; [|try done]); simpl; try done;
    try (specialize (Hok _ eq_refl); simplify_eq; simpl in *;
         case_bool_decide; try done; split; intros; simplify_eq; eauto).
  all: arity_cases.
Qed.

Lemma updateDispatchPropsIfNeeded_slot i w r i' w' :
  updateDispatchPropsIfNeeded cfg (i, w) = (r, (i', w')) →
  (∀ g, finalMapDispatchToProps i = Some g →
     finalMapDispatchToProps i' = Some g
     ∧ doDispatchPropsDependOnOwnProps i' = doDispatchPropsDependOnOwnProps i)
  ∧ (slot_ok (finalMapDispatchToProps i) (doDispatchPropsDependOnOwnProps i) →
     Forall arity_rule (trace w) →
     slot_ok (finalMapDispatchToProps i') (doDispatchPropsDependOnOwnProps i')
     ∧ Forall arity_rule (trace w')).
Proof.
  unfold slot_ok. destruct i, w. js_simpl. intros H.
  split; [intros g ?|intros Hok Hall]; js_cases;
    try (split; [by intros; simplify_eq|]);
    try (split; [done|]);
    repeat (apply Forall_cons; split; [|try done]); simpl; try done;
    try (specialize (Hok _ eq_refl); simplify_eq; simpl in *;
         case_bool_decide; try done; split; intros; simplify_eq; eauto).
  all: arity_cases.
Qed.

Lemma updateMergedPropsIfNeeded_log i w r i' w' :
  updateMergedPropsIfNeeded cfg (i, w) = (r, (i', w')) →
  Forall arity_rule (trace w) → Forall arity_rule (trace w').
Proof.
  destruct i, w. js_simpl. intros H Hall. js_cases;
    repeat (apply Forall_cons; split; [exact I|]); done.
Qed.

(** The same specifications with the new contents named, so that the
    machine after the update can be substituted. *)
Lemma updateStatePropsIfNeeded_result i w r i' w' :
  updateStatePropsIfNeeded cfg (i, w) = (r, (i', w')) →
  ∃ sp f d t,
    i' = set_stateProps sp
           (set_finalMapStateToProps f (set_doStatePropsDependOnOwnProps d i))
    ∧ w' = set_trace t w
    ∧ state_calls (trace w) < state_calls t
    ∧ dispatch_calls t = dispatch_calls (trace w)
    ∧ merge_calls t = merge_calls (trace w)
    ∧ match r with
      | Normal true => sp ≠ stateProps i ∧ is_Some sp
      | _ => sp = stateProps i
      end
    ∧ (∀ g, finalMapStateToProps i = Some g →
         f = Some g ∧ d = doStatePropsDependOnOwnProps i)
    ∧ (slot_ok (finalMapStateToProps i) (doStatePropsDependOnOwnProps i) →
       Forall arity_rule (trace w) →
       slot_ok f d ∧ Forall arity_rule t).
Proof.
  intros H. pose proof (updateStatePropsIfNeeded_slot _ _ _ _ _ H) as [? ?].
  apply updateStatePropsIfNeeded_spec in H as (F & W & ? & ? & ? & ?).
  by eexists _, _, _, _.
Qed.

Lemma updateDispatchPropsIfNeeded_result i w r i' w' :
  updateDispatchPropsIfNeeded cfg (i, w) = (r, (i', w')) →
  ∃ dp f d t,
    i' = set_dispatchProps dp
           (set_finalMapDispatchToProps f
              (set_doDispatchPropsDependOnOwnProps d i))
    ∧ w' = set_trace t w
    ∧ dispatch_calls (trace w) < dispatch_calls t
    ∧ state_calls t = state_calls (trace w)
    ∧ merge_calls t = merge_calls (trace w)
    ∧ match r with
      | Normal true => dp ≠ dispatchProps i ∧ is_Some dp
      | _ => dp = dispatchProps i
      end
    ∧ (∀ g, finalMapDispatchToProps i = Some g →
         f = Some g ∧ d = doDispatchPropsDependOnOwnProps i)
    ∧ (slot_ok (finalMapDispatchToProps i) (doDispatchPropsDependOnOwnProps i) →
       Forall arity_rule (trace w) →
       slot_ok f d ∧ Forall arity_rule t).
Proof.
  intros H. pose proof (updateDispatchPropsIfNeeded_slot _ _ _ _ _ H) as [? ?].
  apply updateDispatchPropsIfNeeded_spec in H as (F & W & ? & ? & ? & ?).
  by eexists _, _, _, _.
Qed.

Lemma updateMergedPropsIfNeeded_result i w r i' w' :
  updateMergedPropsIfNeeded cfg (i, w) = (r, (i', w')) →
  ∃ mp t,
    i' = set_mergedProps mp i
    ∧ w' = set_trace t w
    ∧ merge_calls t = S (merge_calls (trace w))
    ∧ state_calls t = state_calls (trace w)
    ∧ dispatch_calls t = dispatch_calls (trace w)
    ∧ match r with
      | Normal true =>
          is_Some mp ∧ (checkMergedEquals cfg = true → mp ≠ mergedProps i)
      | Normal false => mp = mergedProps i ∧ checkMergedEquals cfg = true
      | Throw _ => mp = mergedProps i
      end
    ∧ (Forall arity_rule (trace w) → Forall arity_rule t).
Proof.
  intros H. pose proof (updateMergedPropsIfNeeded_log _ _ _ _ _ H).
  apply updateMergedPropsIfNeeded_spec in H as (F & W & ? & ? & ? & ?).
  by eexists _, _.
Qed.

End Updates.

(** ** The notification handler *)

Section Handler.
Context (cfg : config).

Lemma handleChange_same_state_pure (i : instance) (w : world) :
  pure cfg = true →
  unsubscribe i = true →
  same_state (state_storeState i) (store_getState w) = true →
  handleChange cfg (i, w) = (Normal tt, (i, w)).
Proof.
  intros Hp Hu Hs. js_simpl. rewrite Hu. simpl. by rewrite Hp, Hs.
Qed.

(** A notification that finds the recorded state again changes nothing at
    all, whether or not the listener is still registered. *)
Lemma StoreChange_same_state_pure (i : instance) (w : world) (s : storeState) :
  pure cfg = true →
  update_requested w = false →
  same_state (state_storeState i) s = true →
  host_step cfg (StoreChange s) (i, w) = (Normal tt, (i, set_store_getState s w)).
Proof.
  intros Hp Hr Hs. destruct w as [g d l err req n t]. simpl in Hr. subst req.
  unfold host_step, notify, flush. unfold_monad. simpl.
  destruct l.
  - destruct (unsubscribe i) eqn:Hu.
    + rewrite handleChange_same_state_pure; simpl; done.
    + unfold handleChange. unfold_monad. simpl. by rewrite Hu.
  - done.
Qed.

(** Past the two guards, with pure=true and a state mapping that does not
    depend on own properties, the handler is [updateStatePropsIfNeeded]
    under [tryCatch], followed by the request unless nothing changed. *)
Lemma handleChange_eager (i : instance) (w : world) :
  pure cfg = true →
  unsubscribe i = true →
  same_state (state_storeState i) (store_getState w) = false →
  flag (doStatePropsDependOnOwnProps i) = false →
  handleChange cfg (i, w)
  = match updateStatePropsIfNeeded cfg (i, w) with
    | (Normal false, m') => (Normal tt, m')
    | (Normal true, m') =>
        (Normal tt,
         request_update (store_getState w)
           (set_haveStatePropsBeenPrecalculated true m'.1, m'.2))
    | (Throw e, m') =>
        (Normal tt,
         request_update (store_getState w)
           (set_haveStatePropsBeenPrecalculated true
              (set_statePropsPrecalculationError e m'.1),
            set_errorObject_value e m'.2))
    end.
Proof.
  intros Hp Hu Hs Hf.
  unfold handleChange, tryCatch, setState, request_update. unfold_monad. simpl.
  rewrite Hu. simpl. rewrite Hp, Hs. simpl. rewrite Hf. simpl.
  destruct (updateStatePropsIfNeeded cfg (i, w)) as [[[]|e] [i' w']]; simpl;
    try done.
  by destruct w'.
Qed.

(** The handler returns normally from every machine. *)
Lemma handleChange_never_throws (m : machine) :
  fst (handleChange cfg m) = Normal tt.
Proof.
  destruct m as [i w].
  unfold handleChange, tryCatch, setState. unfold_monad. simpl.
  destruct (unsubscribe i); simpl; [|done].
  destruct (pure cfg && same_state _ _); simpl; [done|].
  destruct (pure cfg && negb _); simpl; [|done].
  destruct (updateStatePropsIfNeeded cfg (i, w)) as [[[]|e] [i' w']]; done.
Qed.

End Handler.

(** ** The render pass *)

Section Render.
Context (cfg : config).

(** A truthy recorded error is thrown first thing, once the flags have been
    read and reset; nothing else happens in that pass. *)
Lemma render_rethrows (i : instance) (w : world) :
  truthy (statePropsPrecalculationError i) = true →
  render cfg (i, w) = (Throw (statePropsPrecalculationError i), (reset_flags i, w)).
Proof.
  intros Ht. destruct i. unfold render. unfold_monad. simpl in *. by rewrite Ht.
Qed.

End Render.

(** ** C3: a notification with the recorded state reference *)

(** C3, as amended: with pure=true, a notification received while
    subscribed that finds [getState()] identical to the recorded store
    state returns at once, leaving the instance and the environment as they
    were: no mapping function is called and no host update is requested.
    Any number of such notifications in a row therefore renders nothing. *)
Theorem C3_identical_state_is_skipped (cfg : config) (i : instance) (w : world) :
  pure cfg = true →
  (unsubscribe i = true →
   same_state (state_storeState i) (store_getState w) = true →
   handleChange cfg (i, w) = (Normal tt, (i, w)))
  ∧ (∀ evs : list host_event,
       update_requested w = false →
       Forall (λ ev, ∃ s, ev = StoreChange s
                          ∧ same_state (state_storeState i) s = true) evs →
       fst (after cfg evs (i, w)) = i
       ∧ trace (snd (after cfg evs (i, w))) = trace w
       ∧ allocated (snd (after cfg evs (i, w))) = allocated w
       ∧ update_requested (snd (after cfg evs (i, w))) = false).
Proof.
  intros Hp. split.
  - by apply handleChange_same_state_pure.
  - intros evs. revert w. induction evs as [|ev evs IH]; intros w Hr Hall.
    + done.
    + apply Forall_cons in Hall as [(s & -> & Hs) Hall].
      unfold after. cbn [host_run]. unfold bind.
      rewrite StoreChange_same_state_pure by done.
      destruct (IH (set_store_getState s w)) as (H1 & H2 & H3 & H4);
        [by destruct w | done |].
      unfold after in *. rewrite H1, H2, H3, H4. by destruct w.
Qed.

Lemma C3_identical_state_is_skipped_witness :
  handleChange counter_config counter_mounted = (Normal tt, counter_mounted)
  ∧ trace (snd (after counter_config
                  [StoreChange (state_object 1 [("count", VNumber 0)]);
                   StoreChange (state_object 1 [("count", VNumber 0)])]
                  counter_mounted))
    = trace (snd counter_mounted).
Proof.
  destruct (C3_identical_state_is_skipped counter_config
              (fst counter_mounted) (snd counter_mounted) eq_refl) as [H1 H2].
  split.
  - apply H1; reflexivity.
  - apply (H2 [StoreChange (state_object 1 [("count", VNumber 0)]);
               StoreChange (state_object 1 [("count", VNumber 0)])]).
    + reflexivity.
    + repeat constructor; eexists; split; reflexivity.
Defined.

(** C3 as stated does not hold: with pure=false the handler goes on although
    the state is the recorded one; it marks the store state as changed and
    asks the host for an update, and the pass calls both mappings again. *)
Lemma C3_counterexample :
  unsubscribe (fst impure_counter_mounted) = true
  ∧ same_state (state_storeState (fst impure_counter_mounted))
      (store_getState (snd impure_counter_mounted)) = true
  ∧ handleChange impure_counter_config impure_counter_mounted
    ≠ (Normal tt, impure_counter_mounted)
  ∧ update_requested
      (snd (snd (handleChange impure_counter_config impure_counter_mounted))) = true
  ∧ state_calls (trace (snd (after impure_counter_config
        [StoreChange (state_object 1 [("count", VNumber 0)])]
        impure_counter_mounted)))
    = S (state_calls (trace (snd impure_counter_mounted))).
Proof.
  split; [reflexivity|]. split; [reflexivity|]. split.
  - intros H. apply (f_equal (λ r, update_requested (snd (snd r)))) in H.
    vm_compute in H. discriminate.
  - split; vm_compute; reflexivity.
Qed.

(** ** C4: eager recomputation in the handler *)



(** ** C10: a failed eager recomputation and the cache *)

(** C10: when [updateStatePropsIfNeeded] throws inside the handler, the
    handler returns normally, the cached StateProps, DispatchProps and
    MergedProps (and the rendered element) are what they were before the
    notification, and the thrown value is recorded for the next render
    pass together with the precalculated flag. *)
Theorem C10_failed_precalculation_keeps_cache
    (cfg : config) (i : instance) (w : world) (e : value) (m' : machine) :
  pure cfg = true →
  unsubscribe i = true →
  same_state (state_storeState i) (store_getState w) = false →
  flag (doStatePropsDependOnOwnProps i) = false →
  updateStatePropsIfNeeded cfg (i, w) = (Throw e, m') →
  ∃ i'' w'',
    handleChange cfg (i, w) = (Normal tt, (i'', w''))
    ∧ stateProps i'' = stateProps i
    ∧ dispatchProps i'' = dispatchProps i
    ∧ mergedProps i'' = mergedProps i
    ∧ renderedElement i'' = renderedElement i
    ∧ statePropsPrecalculationError i'' = e
    ∧ haveStatePropsBeenPrecalculated i'' = true.
Proof.
  intros Hp Hu Hs Hf Hup. rewrite (handleChange_eager cfg i w Hp Hu Hs Hf), Hup.
  destruct m' as [i' w'].
  apply updateStatePropsIfNeeded_spec in Hup as (Hi & _ & _ & _ & _ & Hst).
  unfold state_slot_only in Hi. eexists _, _. split; [reflexivity|].
  destruct i, i'. simpl in *. by fieldwise.
Qed.

Lemma C10_failed_precalculation_keeps_cache_witness :
  ∃ i'' w'',
    handleChange (throwing_config (VString "boom"))
      (store_moved (state_object 2 [("bad", VBool true)])
         (throwing_mounted (VString "boom")))
    = (Normal tt, (i'', w''))
    ∧ stateProps i'' = stateProps (fst (throwing_mounted (VString "boom")))
    ∧ dispatchProps i'' = dispatchProps (fst (throwing_mounted (VString "boom")))
    ∧ mergedProps i'' = mergedProps (fst (throwing_mounted (VString "boom")))
    ∧ renderedElement i'' = renderedElement (fst (throwing_mounted (VString "boom")))
    ∧ statePropsPrecalculationError i'' = VString "boom"
    ∧ haveStatePropsBeenPrecalculated i'' = true.
Proof.
  apply (C10_failed_precalculation_keeps_cache
           (throwing_config (VString "boom"))
           (fst (throwing_mounted (VString "boom")))
           (set_store_getState (state_object 2 [("bad", VBool true)])
              (snd (throwing_mounted (VString "boom"))))
           (VString "boom")
           (snd (updateStatePropsIfNeeded (throwing_config (VString "boom"))
                   (store_moved (state_object 2 [("bad", VBool true)])
                      (throwing_mounted (VString "boom"))))));
    vm_compute; reflexivity.
Defined.

(** ** C9: the error of an eager recomputation *)

(** What holds of a captured error in general: the handler returns
    normally, asks the host for an update, and the next render pass throws
    the recorded value after resetting the flags, provided the value is
    truthy, which is what [if (statePropsPrecalculationError)] tests. *)
Lemma handleChange_defers_truthy_error
    (cfg : config) (i : instance) (w : world) (e : value) (m' : machine) :
  pure cfg = true →
  unsubscribe i = true →
  same_state (state_storeState i) (store_getState w) = false →
  flag (doStatePropsDependOnOwnProps i) = false →
  updateStatePropsIfNeeded cfg (i, w) = (Throw e, m') →
  truthy e = true →
  fst (handleChange cfg (i, w)) = Normal tt
  ∧ update_requested (snd (snd (handleChange cfg (i, w)))) = true
  ∧ hasStoreStateChanged (fst (snd (handleChange cfg (i, w)))) = true
  ∧ render cfg (snd (handleChange cfg (i, w)))
    = (Throw e, (reset_flags (fst (snd (handleChange cfg (i, w)))),
                 snd (snd (handleChange cfg (i, w))))).
Proof.
  intros Hp Hu Hs Hf Hup Ht.
  rewrite (handleChange_eager cfg i w Hp Hu Hs Hf), Hup.
  destruct m' as [i' w']. unfold request_update. simpl.
  split; [done|]. split; [by destruct w'|]. split; [by destruct i'|].
  rewrite render_rethrows; destruct i'; simpl; [done|done].
Qed.

(** C9 at a mapping that throws the falsy value [0]: the handler captures
    the value and asks for an update, but the render pass that follows does
    not throw; it treats StateProps as changed, merges the stale cache and
    returns a new element, and the recorded value is gone. *)
Lemma C9_falsy_error_is_not_rethrown :
  fst (updateStatePropsIfNeeded (throwing_config (VNumber 0))
         (store_moved (state_object 2 [("bad", VBool true)])
            (throwing_mounted (VNumber 0))))
  = Throw (VNumber 0)
  ∧ fst (handleChange (throwing_config (VNumber 0))
           (store_moved (state_object 2 [("bad", VBool true)])
              (throwing_mounted (VNumber 0))))
    = Normal tt
  ∧ statePropsPrecalculationError
      (fst (snd (handleChange (throwing_config (VNumber 0))
                   (store_moved (state_object 2 [("bad", VBool true)])
                      (throwing_mounted (VNumber 0))))))
    = VNumber 0
  ∧ update_requested
      (snd (snd (handleChange (throwing_config (VNumber 0))
                   (store_moved (state_object 2 [("bad", VBool true)])
                      (throwing_mounted (VNumber 0))))))
    = true
  ∧ match fst (render (throwing_config (VNumber 0))
             (snd (handleChange (throwing_config (VNumber 0))
                     (store_moved (state_object 2 [("bad", VBool true)])
                        (throwing_mounted (VNumber 0)))))) with
    | Normal e => el_id e = 1
    | Throw _ => False
    end
  ∧ statePropsPrecalculationError
      (fst (snd (render (throwing_config (VNumber 0))
             (snd (handleChange (throwing_config (VNumber 0))
                     (store_moved (state_object 2 [("bad", VBool true)])
                        (throwing_mounted (VNumber 0))))))))
    = VNull.
Proof. by_computation. Qed.

(** ** C8: when the merged properties are compared *)

(** C8, as amended: the recomputed MergedProps is shallow-compared with the
    cached one exactly when [checkMergedEquals] holds, that is when pure=true
    and a merge function of the user's is configured.  Then an update whose
    result is shallow-equal to the cache reports no change and keeps the
    cache; in every other configuration (the default merge function, or
    pure=false) each recomputation replaces the cache and reports changed. *)
Theorem C8_merged_comparison_gate
    (cfg : config) (i : instance) (w : world) (next : plainObject) :
  finalMergeProps cfg (stateProps i) (dispatchProps i) (props i) = Normal next →
  (checkMergedEquals cfg = true ↔ pure cfg = true ∧ is_Some (mergeProps cfg))
  ∧ (checkMergedEquals cfg = true →
     ∀ old, mergedProps i = Some old →
       fst (updateMergedPropsIfNeeded cfg (i, w))
       = Normal (negb (shallowEqual next old))
       ∧ mergedProps (fst (snd (updateMergedPropsIfNeeded cfg (i, w))))
         = Some (if shallowEqual next old then old else next))
  ∧ (checkMergedEquals cfg = false →
     fst (updateMergedPropsIfNeeded cfg (i, w)) = Normal true
     ∧ mergedProps (fst (snd (updateMergedPropsIfNeeded cfg (i, w)))) = Some next).
Proof.
  intros Hm. rewrite (updateMergedPropsIfNeeded_returns cfg i w next Hm).
  split; [|split].
  - unfold checkMergedEquals.
    by rewrite andb_true_iff, bool_decide_eq_true.
  - intros Hc old Hold. rewrite Hc, Hold. unfold cached_equal. simpl.
    destruct (shallowEqual next old); simpl; [done|]. by destruct i.
  - intros Hc. rewrite Hc. simpl. by destruct i.
Qed.

Lemma C8_merged_comparison_gate_witness :
  fst (updateMergedPropsIfNeeded (merging_config None)
         (fst (merging_mounted None), snd (merging_mounted None)))
  = Normal (negb (shallowEqual {[ "k" := VNumber 1 ]} {[ "k" := VNumber 1 ]}))
  ∧ mergedProps
      (fst (snd (updateMergedPropsIfNeeded (merging_config None)
                   (fst (merging_mounted None), snd (merging_mounted None)))))
    = Some (if shallowEqual {[ "k" := VNumber 1 ]} {[ "k" := VNumber 1 ]}
            then {[ "k" := VNumber 1 ]} else {[ "k" := VNumber 1 ]}).
Proof.
  pose proof (C8_merged_comparison_gate (merging_config None)
                (fst (merging_mounted None)) (snd (merging_mounted None))
                {[ "k" := VNumber 1 ]}) as H.
  destruct H as (_ & H & _); [vm_compute; reflexivity|].
  apply (H eq_refl {[ "k" := VNumber 1 ]}). vm_compute; reflexivity.
Defined.

(** C8 as stated does not hold: with a merge function of the user's and
    pure=false nothing is compared; a recomputation whose result is
    shallow-equal to the cached MergedProps still reports changed. *)
Lemma C8_counterexample :
  is_Some_bool (mergeProps (merging_config (Some false))) = true
  ∧ mergedProps (fst (merging_mounted (Some false))) = Some {[ "k" := VNumber 1 ]}
  ∧ finalMergeProps (merging_config (Some false))
      (stateProps (fst (merging_mounted (Some false))))
      (dispatchProps (fst (merging_mounted (Some false))))
      (props (fst (merging_mounted (Some false))))
    = Normal {[ "k" := VNumber 1 ]}
  ∧ shallowEqual {[ "k" := VNumber 1 ]} {[ "k" := VNumber 1 ]} = true
  ∧ fst (updateMergedPropsIfNeeded (merging_config (Some false))
           (merging_mounted (Some false)))
    = Normal true.
Proof. by_computation. Qed.

(** ** C5: the merge short-circuit of the render pass *)

#[local] Arguments updateStatePropsIfNeeded : simpl never.
#[local] Arguments updateDispatchPropsIfNeeded : simpl never.
#[local] Arguments updateMergedPropsIfNeeded : simpl never.

(** Case analysis of the hypotheses that run a method: every cache update
    met is replaced by its outcome and its specification, every test is
    decided (innermost first), and the machine reached is substituted. *)
Ltac run_step :=
  match goal with
  | H : context [updateStatePropsIfNeeded ?c ?m] |- _ =>
      let E := fresh "Hstate" in
      destruct (updateStatePropsIfNeeded c m) as [[[]|?] [? ?]] eqn:E;
      apply updateStatePropsIfNeeded_result in E
        as (? & ? & ? & ? & -> & -> & ? & ? & ? & ? & ? & ?)
  | H : context [updateDispatchPropsIfNeeded ?c ?m] |- _ =>
      let E := fresh "Hdispatch" in
      destruct (updateDispatchPropsIfNeeded c m) as [[[]|?] [? ?]] eqn:E;
      apply updateDispatchPropsIfNeeded_result in E
        as (? & ? & ? & ? & -> & -> & ? & ? & ? & ? & ? & ?)
  | H : context [updateMergedPropsIfNeeded ?c ?m] |- _ =>
      let E := fresh "Hmerged" in
      destruct (updateMergedPropsIfNeeded c m) as [[[]|?] [? ?]] eqn:E;
      apply updateMergedPropsIfNeeded_result in E
        as (? & ? & -> & -> & ? & ? & ? & ? & ?)
  | H : context [match ?x with _ => _ end] |- _ =>
      lazymatch x with
      | context [match _ with _ => _ end] => fail
      | _ => destruct x eqn:?
      end
  end.

Ltac run_cases :=
  repeat (simpl in *; simplify_eq; run_step);
  simpl in *; simplify_eq; simpl in *.




(** ** C1: rendered elements against changes of MergedProps *)

Lemma merged_changed_false before after :
  merged_changed before after = false ↔ after = before.
Proof.
  destruct before as [a|], after as [b|]; simpl; try (split; congruence).
  rewrite negb_false_iff, shallowEqual_eq. split; congruence.
Qed.

Lemma merged_changed_true before after :
  merged_changed before after = true ↔ after ≠ before.
Proof.
  rewrite <- not_false_iff_true. by rewrite merged_changed_false.
Qed.

#[local] Arguments render : simpl never.
#[local] Arguments handleChange : simpl never.

(** Case analysis of a hypothesis that runs the host's side: the render
    pass and the handler are replaced by their outcomes, to which
    [on_render] and [on_handler] apply what is known of them. *)
Ltac host_cases_with on_render on_handler :=
  repeat (simpl in *; simplify_eq;
    match goal with
    | H : context [render ?c ?m] |- _ =>
        let E := fresh "Hrender" in
        destruct (render c m) as [? [[] []]] eqn:E;
        on_render E
    | H : context [handleChange ?c ?m] |- _ =>
        let E := fresh "Hhandle" in
        let N := fresh "Hnormal" in
        pose proof (handleChange_never_throws c m) as N;
        destruct (handleChange c m) as [? [[] []]] eqn:E;
        on_handler E
    | H : context [match ?x with _ => _ end] |- _ =>
        lazymatch x with
        | context [match _ with _ => _ end] => fail
        | _ => destruct x eqn:?
        end
    end);
  simpl in *; simplify_eq; simpl in *.

Section Counting.
Context (cfg : config).

(** One render pass of an instance that has rendered before: it allocates
    at most one element; it allocates one whenever the cached MergedProps
    is replaced by something else; and when the merge result is compared
    ([checkMergedEquals]) it allocates none unless that happens. *)
Lemma render_allocates (i : instance) (w : world)
    (r : completion element) (i' : instance) (w' : world) :
  render cfg (i, w) = (r, (i', w')) →
  is_Some (renderedElement i) →
  is_Some (renderedElement i')
  ∧ (mergedProps i' ≠ mergedProps i → allocated w' = S (allocated w))
  ∧ (checkMergedEquals cfg = true →
     mergedProps i' = mergedProps i → allocated w' = allocated w)
  ∧ allocated w ≤ allocated w' ≤ S (allocated w).
Proof.
  intros Hr [previous Hel].
  destruct i as [p ss dp sp mp own store pre err el fd fs dd ds u], w.
  unfold render, createElement in Hr. unfold_monad. simpl in *. subst el.
  run_cases.
  all: repeat split; eauto; try lia; try done; intuition congruence.
Qed.

(** The handler touches neither the merged properties, nor the rendered
    element, nor the allocation counter. *)
Lemma handleChange_keeps_render_state (i : instance) (w : world)
    (r : completion unit) (i' : instance) (w' : world) :
  handleChange cfg (i, w) = (r, (i', w')) →
  mergedProps i' = mergedProps i
  ∧ renderedElement i' = renderedElement i
  ∧ allocated w' = allocated w.
Proof.
  intros Hr.
  destruct i as [p ss dp sp mp own store pre err el fd fs dd ds u], w.
  unfold handleChange, tryCatch, setState in Hr. unfold_monad. simpl in *.
  run_cases; done.
Qed.


Ltac host_cases :=
  host_cases_with
    ltac:(fun E => apply render_allocates in E as (? & ? & ? & ?); [|by eauto])
    ltac:(fun E => apply handleChange_keeps_render_state in E as (? & ? & ?)).

(** The same for one update as the host runs it; an update never throws
    into the host's loop. *)
Lemma host_step_allocates (ev : host_event) (i : instance) (w : world)
    (r : completion unit) (i' : instance) (w' : world) :
  ev ≠ Unmount →
  host_step cfg ev (i, w) = (r, (i', w')) →
  is_Some (renderedElement i) →
  r = Normal tt
  ∧ is_Some (renderedElement i')
  ∧ (mergedProps i' ≠ mergedProps i → allocated w' = S (allocated w))
  ∧ (checkMergedEquals cfg = true →
     mergedProps i' = mergedProps i → allocated w' = allocated w)
  ∧ allocated w ≤ allocated w' ≤ S (allocated w).
Proof.
  intros Hev Hr [previous Hel].
  destruct i as [p ss dp sp mp own store pre err el fd fs dd ds u], w.
  simpl in Hel. subst el.
  destruct ev as [nextProps|s|]; [| |done].
  - unfold host_step, componentWillReceiveProps, update_pass,
      shouldComponentUpdate, host_render in Hr.
    unfold_monad. host_cases.
    all: repeat split; eauto; try lia; try done; try (intuition congruence).
  - unfold host_step, notify, flush, update_pass,
      shouldComponentUpdate, host_render in Hr.
    unfold_monad. host_cases.
    all: repeat split; eauto; try lia; try done; try (intuition congruence).
Qed.

Lemma host_step_never_throws (ev : host_event) (m : machine) :
  fst (host_step cfg ev m) = Normal tt.
Proof.
  destruct m as [i w], ev as [nextProps|s|].
  - unfold host_step, componentWillReceiveProps, update_pass,
      shouldComponentUpdate, host_render.
    unfold_monad. simpl.
    repeat (case_match; simpl in *; simplify_eq); done.
  - unfold host_step, notify, flush, update_pass,
      shouldComponentUpdate, host_render.
    unfold_monad. simpl.
    destruct (store_listening (set_store_getState s w)); simpl.
    + pose proof (handleChange_never_throws cfg (i, set_store_getState s w)) as N.
      destruct (handleChange cfg (i, set_store_getState s w)) as [r m'].
      simpl in N. subst r.
      repeat (case_match; simpl in *; simplify_eq); done.
    + repeat (case_match; simpl in *; simplify_eq); done.
  - unfold host_step, componentWillUnmount, tryUnsubscribe, clearCache.
    unfold_monad. simpl. by destruct (unsubscribe i).
Qed.

Lemma after_cons (ev : host_event) (rest : list host_event) (m : machine) :
  after cfg (ev :: rest) m = after cfg rest (snd (host_step cfg ev m)).
Proof.
  unfold after. cbn [host_run]. unfold bind.
  pose proof (host_step_never_throws ev m) as N.
  destruct (host_step cfg ev m) as [r m']. simpl in N. by subst r.
Qed.

Lemma after_app (evs more : list host_event) (m : machine) :
  after cfg (evs ++ more) m = after cfg more (after cfg evs m).
Proof.
  revert m. induction evs as [|ev rest IH]; intros m; [done|].
  simpl. by rewrite !after_cons, IH.
Qed.

Lemma run_allocates (evs : list host_event) (m : machine) :
  Forall (λ ev, ev ≠ Unmount) evs →
  is_Some (renderedElement (fst m)) →
  allocated (snd m) + changed_updates cfg evs m
    ≤ allocated (snd (after cfg evs m))
  ∧ (checkMergedEquals cfg = true →
     allocated (snd (after cfg evs m))
     = allocated (snd m) + changed_updates cfg evs m).
Proof.
  revert m. induction evs as [|ev rest IH]; intros [i w] Hall Hel.
  - unfold after. simpl. split; [lia|]. intros _. lia.
  - apply Forall_cons in Hall as [Hev Hall].
    rewrite after_cons. cbn [changed_updates].
    destruct (host_step cfg ev (i, w)) as [r [i' w']] eqn:Hstep.
    apply host_step_allocates in Hstep as (_ & Hel' & Hch & Hsame & Hle);
      [|done|done].
    destruct (IH (i', w') Hall Hel') as [IH1 IH2]. simpl in *.
    destruct (merged_changed (mergedProps i) (mergedProps i')) eqn:Hm.
    + apply merged_changed_true in Hm. specialize (Hch Hm).
      split; [lia|]. intros Hc. specialize (IH2 Hc). lia.
    + apply merged_changed_false in Hm.
      split; [lia|]. intros Hc. specialize (IH2 Hc). specialize (Hsame Hc Hm). lia.
Qed.

End Counting.



(** The run of the witness produces one element, for one change. *)
Example selecting_run_counts :
  produced selecting_config selecting_run selecting_mounted = 1
  ∧ changed_updates selecting_config selecting_run selecting_mounted = 1.
Proof. by_computation. Qed.




(** ** C6: arity decides, once, whether own properties are passed *)

Section Slots.
Context (cfg : config).

Ltac slot_solver :=
  repeat match goal with
  | |- _ ∧ _ => split
  | |- slot_ok None _ => by intros ? ?
  | |- Forall arity_rule [] => constructor
  | |- Forall arity_rule (_ :: _) => apply Forall_cons; split; [exact I|]
  | |- _ => assumption
  end.

Ltac slot_goals :=
  unfold consistent in *; simpl in *;
  repeat match goal with
  | |- _ ∧ _ => split
  | |- _ → _ => intros
  | |- ∀ _, _ => intros
  | H : _ ∧ _ |- _ => destruct H
  | H : ?A → ?B → _ ∧ Forall arity_rule _ |- _ =>
      let GA := fresh in
      let GB := fresh in
      assert (GA : A) by (clear H; slot_solver);
      assert (GB : B) by (clear H; slot_solver);
      specialize (H GA GB); clear GA GB
  | H : ?A → Forall arity_rule _ |- _ =>
      let GA := fresh in
      assert (GA : A) by (clear H; slot_solver);
      specialize (H GA); clear GA
  | H : ∀ g, ?f = Some g → _, G : ?f = Some _ |- _ =>
      pose proof (H _ G); clear H
  | _ => progress simplify_eq
  end; slot_solver; eauto.

(** What a render pass keeps: installed mappings, the consistency of the
    flags, and the arity rule in the log. *)
Lemma render_keeps_slots (i : instance) (w : world)
    (r : completion element) (i' : instance) (w' : world) :
  render cfg (i, w) = (r, (i', w')) →
  (consistent i → Forall arity_rule (trace w) →
   consistent i' ∧ Forall arity_rule (trace w'))
  ∧ (∀ g, finalMapStateToProps i = Some g → finalMapStateToProps i' = Some g)
  ∧ (∀ g, finalMapDispatchToProps i = Some g → finalMapDispatchToProps i' = Some g).
Proof.
  intros Hr.
  destruct i as [p ss dp sp mp own store pre err el fd fs dd ds u], w.
  unfold render, createElement in Hr. unfold_monad. simpl in *.
  run_cases; slot_goals.
Qed.

Lemma handleChange_keeps_slots (i : instance) (w : world)
    (r : completion unit) (i' : instance) (w' : world) :
  handleChange cfg (i, w) = (r, (i', w')) →
  (consistent i → Forall arity_rule (trace w) →
   consistent i' ∧ Forall arity_rule (trace w'))
  ∧ (∀ g, finalMapStateToProps i = Some g → finalMapStateToProps i' = Some g)
  ∧ (∀ g, finalMapDispatchToProps i = Some g → finalMapDispatchToProps i' = Some g).
Proof.
  intros Hr.
  destruct i as [p ss dp sp mp own store pre err el fd fs dd ds u], w.
  unfold handleChange, tryCatch, setState in Hr. unfold_monad. simpl in *.
  run_cases; slot_goals.
Qed.

Ltac slot_cases :=
  host_cases_with
    ltac:(fun E => apply render_keeps_slots in E as (? & ? & ?))
    ltac:(fun E => apply handleChange_keeps_slots in E as (? & ? & ?)).

Lemma host_render_keeps_slots (i : instance) (w : world)
    (r : completion unit) (i' : instance) (w' : world) :
  host_render cfg (i, w) = (r, (i', w')) →
  (consistent i → Forall arity_rule (trace w) →
   consistent i' ∧ Forall arity_rule (trace w'))
  ∧ (∀ g, finalMapStateToProps i = Some g → finalMapStateToProps i' = Some g)
  ∧ (∀ g, finalMapDispatchToProps i = Some g → finalMapDispatchToProps i' = Some g).
Proof.
  intros Hr. destruct w. unfold host_render in Hr. unfold_monad.
  slot_cases; slot_goals.
Qed.

(** Every update keeps the flags consistent and the log within the arity
    rule; an update other than unmounting keeps the installed mappings. *)
Lemma host_step_keeps_slots (ev : host_event) (i : instance) (w : world)
    (r : completion unit) (i' : instance) (w' : world) :
  host_step cfg ev (i, w) = (r, (i', w')) →
  (consistent i → Forall arity_rule (trace w) →
   consistent i' ∧ Forall arity_rule (trace w'))
  ∧ (ev ≠ Unmount →
     (∀ g, finalMapStateToProps i = Some g → finalMapStateToProps i' = Some g)
     ∧ (∀ g, finalMapDispatchToProps i = Some g →
          finalMapDispatchToProps i' = Some g)).
Proof.
  intros Hr.
  destruct i as [p ss dp sp mp own store pre err el fd fs dd ds u], w.
  destruct ev as [nextProps|s|].
  - unfold host_step, componentWillReceiveProps, update_pass,
      shouldComponentUpdate, host_render in Hr.
    unfold_monad. slot_cases; slot_goals.
  - unfold host_step, notify, flush, update_pass,
      shouldComponentUpdate, host_render in Hr.
    unfold_monad. slot_cases; slot_goals.
  - unfold host_step, componentWillUnmount, tryUnsubscribe, clearCache in Hr.
    unfold_monad. slot_cases; slot_goals.
Qed.

Lemma host_run_keeps_slots (evs : list host_event) (m : machine) :
  (consistent (fst m) → Forall arity_rule (trace (snd m)) →
   consistent (fst (after cfg evs m))
   ∧ Forall arity_rule (trace (snd (after cfg evs m))))
  ∧ (Forall (λ ev, ev ≠ Unmount) evs →
     (∀ g, finalMapStateToProps (fst m) = Some g →
        finalMapStateToProps (fst (after cfg evs m)) = Some g)
     ∧ (∀ g, finalMapDispatchToProps (fst m) = Some g →
          finalMapDispatchToProps (fst (after cfg evs m)) = Some g)).
Proof.
  revert m. induction evs as [|ev rest IH]; intros [i w].
  - unfold after. simpl. split; [done|]. intros _. by split.
  - rewrite after_cons.
    destruct (host_step cfg ev (i, w)) as [r [i' w']] eqn:Hstep.
    apply host_step_keeps_slots in Hstep as [Hinv Hkeep].
    destruct (IH (i', w')) as [IH1 IH2]. simpl in *. split.
    + intros Hc Hl. destruct (Hinv Hc Hl). by apply IH1.
    + intros Hall. apply Forall_cons in Hall as [Hev Hall].
      destruct (Hkeep Hev) as [Hs Hd]. destruct (IH2 Hall) as [Hs' Hd'].
      split; intros g Hg; [apply Hs', Hs, Hg|apply Hd', Hd, Hg].
Qed.

(** Mounting returns normally, so a lifetime is a run from the mounted
    machine. *)
Lemma mount_never_throws (props : plainObject) (m : machine) :
  fst (mount cfg props m) = Normal tt.
Proof.
  destruct m as [i w].
  unfold mount, constructor, clearCache, componentDidMount,
    trySubscribe, flush, update_pass, shouldComponentUpdate, host_render.
  unfold_monad.
  repeat (simpl;
    match goal with
    | |- context [handleChange ?c ?m] =>
        let N := fresh in
        pose proof (handleChange_never_throws c m) as N;
        destruct (handleChange c m) as [? [? ?]]; simpl in N; subst
    | |- context [render ?c ?m] => destruct (render c m) as [[?|?] [? ?]]
    | |- context [match ?x with _ => _ end] =>
        lazymatch x with
        | context [match _ with _ => _ end] => fail
        | _ => destruct x eqn:?
        end
    end); done.
Qed.

Lemma lifetime_after (s : storeState) (dispatch : value)
    (props : plainObject) (evs : list host_event) :
  lifetime cfg s dispatch props evs
  = after cfg evs (mounted cfg s dispatch props).
Proof.
  unfold lifetime, mounted, after, bind.
  pose proof (mount_never_throws props (blank, initial_world s dispatch)) as N.
  destruct (mount cfg props (blank, initial_world s dispatch)) as [r m'].
  simpl in N. by subst r.
Qed.

Lemma mounted_keeps_slots (s : storeState) (dispatch : value) (props : plainObject) :
  consistent (fst (mounted cfg s dispatch props))
  ∧ Forall arity_rule (trace (snd (mounted cfg s dispatch props))).
Proof.
  unfold mounted.
  destruct (mount cfg props (blank, initial_world s dispatch))
    as [r [i' w']] eqn:Hm. simpl.
  unfold mount, constructor, clearCache, componentDidMount,
    trySubscribe, flush, update_pass, shouldComponentUpdate, host_render,
    blank, initial_world in Hm.
  unfold_monad.
  slot_cases; slot_goals.
Qed.

End Slots.


(** The rule is met by calls of both kinds in concrete lifetimes. *)
Example arity_one_gets_state_only :
  head (trace (snd (lifetime counter_config
                      (state_object 1 [("count", VNumber 0)]) the_dispatch ∅
                      [StoreChange (state_object 2 [("count", VNumber 0)])])))
  = Some (EvMapState Recompute 1 (state_object 2 [("count", VNumber 0)]) None).
Proof. vm_compute; reflexivity. Qed.

Example arity_two_gets_own_props :
  EvMapState Recompute 2 (state_object 1 [("count", VNumber 0)])
    (Some {[ "id" := VNumber 2 ]})
  ∈ trace (snd (lifetime own_props_config
                  (state_object 1 [("count", VNumber 0)]) the_dispatch
                  {[ "id" := VNumber 1 ]}
                  [ReceiveProps {[ "id" := VNumber 2 ]}])).
Proof. vm_compute. apply list_elem_of_In. vm_compute. tauto. Qed.

(** ** C7: the first computation of a slot *)

Section Install.
Context (cfg : config).

Lemma computeStateProps_first_call (i : instance) (w : world) (p : plainObject) :
  finalMapStateToProps i = None →
  computeStateProps cfg p (i, w)
  = let s := store_getState w in
    let w1 := set_trace (EvMapState Install (fn_length (mapState cfg)) s (Some p)
                           :: trace w) w in
    match fn_call (mapState cfg) s (Some p) with
    | Throws e => (Throw e, (i, w1))
    | RetObject partial =>
        (Normal partial, (installed_state (mapState cfg) i, w1))
    | RetFunction g =>
        let own := if bool_decide (fn_length g ≠ 1) then Some p else None in
        (partial_of (fn_call g s own),
         (installed_state g i,
          set_trace (EvMapState Recompute (fn_length g) s own :: trace w1) w1))
    end.
Proof.
  intros Hnone. destruct i, w. simpl in Hnone. subst.
  unfold computeStateProps, configureFinalMapState, computeStateProps_installed,
    invokeMapState, installed_state, partial_of.
  unfold_monad. simpl.
  destruct (fn_call (mapState cfg) store_getState0 (Some p)) as [q|g|e];
    simpl; [done| |done].
  destruct (bool_decide (fn_length g ≠ 1)); simpl;
    by destruct (fn_call g store_getState0 _).
Qed.

Lemma computeDispatchProps_first_call (i : instance) (w : world) (p : plainObject) :
  finalMapDispatchToProps i = None →
  computeDispatchProps cfg p (i, w)
  = let d := store_dispatch w in
    let w1 := set_trace (EvMapDispatch Install (fn_length (mapDispatch cfg)) d (Some p)
                           :: trace w) w in
    match fn_call (mapDispatch cfg) d (Some p) with
    | Throws e => (Throw e, (i, w1))
    | RetObject partial =>
        (Normal partial, (installed_dispatch (mapDispatch cfg) i, w1))
    | RetFunction g =>
        let own := if bool_decide (fn_length g ≠ 1) then Some p else None in
        (partial_of (fn_call g d own),
         (installed_dispatch g i,
          set_trace (EvMapDispatch Recompute (fn_length g) d own :: trace w1) w1))
    end.
Proof.
  intros Hnone. destruct i, w. simpl in Hnone. subst.
  unfold computeDispatchProps, configureFinalMapDispatch,
    computeDispatchProps_installed, invokeMapDispatch, installed_dispatch,
    partial_of.
  unfold_monad. simpl.
  destruct (fn_call (mapDispatch cfg) store_dispatch0 (Some p)) as [q|g|e];
    simpl; [done| |done].
  destruct (bool_decide (fn_length g ≠ 1)); simpl;
    by destruct (fn_call g store_dispatch0 _).
Qed.

End Install.

(** C7: on the first computation of a slot the raw mapping is called with
    the source and own properties.  If it returns a function, that function
    is installed as the slot's resolved mapping and called at once (with own
    properties or not, by its parameter count) to produce the partial; if it
    returns an object, the raw mapping is installed and the object is the
    partial; if it throws, nothing is installed.  An installed mapping stays
    installed through every update short of unmounting. *)
Theorem C7_first_call_installs (cfg : config) :
  (∀ i w p,
     finalMapStateToProps i = None →
     computeStateProps cfg p (i, w)
     = let s := store_getState w in
       let w1 := set_trace (EvMapState Install (fn_length (mapState cfg)) s (Some p)
                              :: trace w) w in
       match fn_call (mapState cfg) s (Some p) with
       | Throws e => (Throw e, (i, w1))
       | RetObject partial =>
           (Normal partial, (installed_state (mapState cfg) i, w1))
       | RetFunction g =>
           let own := if bool_decide (fn_length g ≠ 1) then Some p else None in
           (partial_of (fn_call g s own),
            (installed_state g i,
             set_trace (EvMapState Recompute (fn_length g) s own :: trace w1) w1))
       end)
  ∧ (∀ i w p,
       finalMapDispatchToProps i = None →
       computeDispatchProps cfg p (i, w)
       = let d := store_dispatch w in
         let w1 := set_trace
                     (EvMapDispatch Install (fn_length (mapDispatch cfg)) d (Some p)
                        :: trace w) w in
         match fn_call (mapDispatch cfg) d (Some p) with
         | Throws e => (Throw e, (i, w1))
         | RetObject partial =>
             (Normal partial, (installed_dispatch (mapDispatch cfg) i, w1))
         | RetFunction g =>
             let own := if bool_decide (fn_length g ≠ 1) then Some p else None in
             (partial_of (fn_call g d own),
              (installed_dispatch g i,
               set_trace (EvMapDispatch Recompute (fn_length g) d own :: trace w1)
                 w1))
         end)
  ∧ (∀ evs m,
       Forall (λ ev, ev ≠ Unmount) evs →
       (∀ g, finalMapStateToProps (fst m) = Some g →
          finalMapStateToProps (fst (after cfg evs m)) = Some g)
       ∧ (∀ g, finalMapDispatchToProps (fst m) = Some g →
            finalMapDispatchToProps (fst (after cfg evs m)) = Some g)).
Proof.
  split; [|split].
  - apply computeStateProps_first_call.
  - apply computeDispatchProps_first_call.
  - intros evs m. apply host_run_keeps_slots.
Qed.

(** A factory, mounted: its result is the installed mapping, also after
    further updates, and the raw mapping is not. *)
Lemma C7_first_call_installs_witness :
  fn_length <$> finalMapStateToProps
                  (fst (mounted factory_config
                          (state_object 1 [("count", VNumber 0)]) the_dispatch ∅))
  = Some 1
  ∧ fn_length <$> finalMapStateToProps
                    (fst (after factory_config
                            [StoreChange (state_object 2 [("count", VNumber 1)]);
                             ReceiveProps {[ "id" := VNumber 2 ]}]
                            (mounted factory_config
                               (state_object 1 [("count", VNumber 0)])
                               the_dispatch ∅)))
    = Some 1.
Proof.
  destruct (C7_first_call_installs factory_config) as (_ & _ & H).
  destruct (H [StoreChange (state_object 2 [("count", VNumber 1)]);
               ReceiveProps {[ "id" := VNumber 2 ]}]
              (mounted factory_config
                 (state_object 1 [("count", VNumber 0)]) the_dispatch ∅))
    as [Hs _]; [repeat constructor; discriminate|].
  split; [vm_compute; reflexivity|].
  rewrite (Hs (MapFn 1 (λ s _, RetObject (pick "count" (state_fields s)))));
    vm_compute; reflexivity.
Defined.

(** ** C2: pure=false *)

Section Impure.
Context (cfg : config).
Hypothesis impure : pure cfg = false.

Lemma impure_never_compares : checkMergedEquals cfg = false.
Proof using impure. unfold checkMergedEquals. by rewrite impure. Qed.

(** With pure=false the handler, once past the subscription guard, goes
    straight to the request. *)
Lemma handleChange_impure (i : instance) (w : world) :
  unsubscribe i = true →
  handleChange cfg (i, w) = (Normal tt, request_update (store_getState w) (i, w)).
Proof using impure.
  intros Hu. unfold handleChange, setState, request_update. unfold_monad. simpl.
  rewrite Hu. simpl. rewrite impure. simpl. by destruct w.
Qed.

(** A render pass with pure=false, no deferred error pending: the state
    mapping is called; if the pass returns, the dispatch mapping was called
    too; the merge function is called and a new element built when own
    properties were marked changed or a partial was replaced, and otherwise
    the previous element, if any, is returned. *)
Lemma render_impure (i : instance) (w : world)
    (r : completion element) (i' : instance) (w' : world) :
  haveStatePropsBeenPrecalculated i = false →
  truthy (statePropsPrecalculationError i) = false →
  render cfg (i, w) = (r, (i', w')) →
  state_calls (trace w) < state_calls (trace w')
  ∧ ∀ e, r = Normal e →
      dispatch_calls (trace w) < dispatch_calls (trace w')
      ∧ renderedElement i' = Some e
      ∧ (haveOwnPropsChanged i = true
         ∨ stateProps i' ≠ stateProps i
         ∨ dispatchProps i' ≠ dispatchProps i →
         merge_calls (trace w') = S (merge_calls (trace w))
         ∧ allocated w' = S (allocated w)
         ∧ el_id e = allocated w)
      ∧ (haveOwnPropsChanged i = false →
         stateProps i' = stateProps i →
         dispatchProps i' = dispatchProps i →
         merge_calls (trace w') = merge_calls (trace w)
         ∧ ∀ previous, renderedElement i = Some previous →
             e = previous ∧ allocated w' = allocated w).
Proof using impure.
  intros Hpre Herr Hr. pose proof impure_never_compares as Hcmp.
  destruct i as [p ss dp sp mp own store pre err el fd fs dd ds u], w.
  unfold render, createElement in Hr. unfold_monad. simpl in *.
  subst pre. rewrite Herr, impure in Hr.
  run_cases.
  all: unfold merge_calls, state_calls, dispatch_calls in *; simpl in *.
  all: split; [lia|intros; simplify_eq].
  all: try (split; [lia|]); try (split; [done|]).
  all: try (split; intros; simplify_eq; intuition (try congruence; try lia)).
Qed.

(** Every render pass leaves nothing pending. *)
Lemma render_clears_deferred (i : instance) (w : world)
    (r : completion element) (i' : instance) (w' : world) :
  render cfg (i, w) = (r, (i', w')) → no_deferred i'.
Proof.
  intros Hr. unfold no_deferred.
  destruct i as [p ss dp sp mp own store pre err el fd fs dd ds u], w.
  unfold render, createElement in Hr. unfold_monad. simpl in *.
  run_cases; done.
Qed.

Lemma handleChange_impure_keeps_deferred (i : instance) (w : world)
    (r : completion unit) (i' : instance) (w' : world) :
  handleChange cfg (i, w) = (r, (i', w')) →
  no_deferred i → no_deferred i'.
Proof using impure.
  intros Hr. unfold no_deferred.
  destruct i as [p ss dp sp mp own store pre err el fd fs dd ds u], w.
  unfold handleChange, tryCatch, setState in Hr. unfold_monad. simpl in *.
  rewrite impure in Hr. run_cases; done.
Qed.

Ltac deferred_cases :=
  host_cases_with
    ltac:(fun E => apply render_clears_deferred in E as [? ?])
    ltac:(fun E => apply handleChange_impure_keeps_deferred in E as [? ?];
                   [|by split]).

Lemma host_step_impure_keeps_deferred (ev : host_event) (i : instance) (w : world)
    (r : completion unit) (i' : instance) (w' : world) :
  host_step cfg ev (i, w) = (r, (i', w')) →
  no_deferred i → no_deferred i'.
Proof using impure.
  intros Hr [Hpre Herr]. unfold no_deferred in *.
  destruct i as [p ss dp sp mp own store pre err el fd fs dd ds u], w.
  destruct ev as [nextProps|s|].
  - unfold host_step, componentWillReceiveProps, update_pass,
      shouldComponentUpdate, host_render in Hr.
    unfold_monad. deferred_cases; done.
  - unfold host_step, notify, flush, update_pass,
      shouldComponentUpdate, host_render in Hr.
    unfold_monad. deferred_cases; done.
  - unfold host_step, componentWillUnmount, tryUnsubscribe, clearCache in Hr.
    unfold_monad. deferred_cases; done.
Qed.

Lemma lifetime_impure_no_deferred (s : storeState) (dispatch : value)
    (props : plainObject) (evs : list host_event) :
  no_deferred (fst (lifetime cfg s dispatch props evs)).
Proof using impure.
  rewrite lifetime_after.
  assert (no_deferred (fst (mounted cfg s dispatch props))) as Hm.
  { unfold mounted.
    destruct (mount cfg props (blank, initial_world s dispatch))
      as [r [i' w']] eqn:Hm. simpl.
    unfold mount, constructor, clearCache, componentDidMount,
      trySubscribe, flush, update_pass, shouldComponentUpdate, host_render,
      blank, initial_world in Hm.
    unfold_monad. unfold no_deferred. deferred_cases; done. }
  revert Hm. generalize (mounted cfg s dispatch props).
  induction evs as [|ev rest IH]; intros [i w] Hm; [done|].
  rewrite after_cons.
  destruct (host_step cfg ev (i, w)) as [r [i' w']] eqn:Hstep.
  apply IH. simpl. by eapply host_step_impure_keeps_deferred.
Qed.

(** An own-properties update with pure=false. *)
Lemma ReceiveProps_impure (nextProps : plainObject) (i : instance) (w : world)
    (r : completion unit) (i' : instance) (w' : world) :
  no_deferred i →
  host_step cfg (ReceiveProps nextProps) (i, w) = (r, (i', w')) →
  state_calls (trace w) < state_calls (trace w')
  ∧ ∀ e rest, trace w' = EvRenderReturn e :: rest →
      dispatch_calls (trace w) < dispatch_calls (trace w')
      ∧ merge_calls (trace w') = S (merge_calls (trace w))
      ∧ allocated w' = S (allocated w)
      ∧ el_id e = allocated w
      ∧ renderedElement i' = Some e.
Proof using impure.
  intros [Hpre Herr] Hr.
  destruct i as [p ss dp sp mp own store pre err el fd fs dd ds u], w.
  unfold host_step, componentWillReceiveProps, update_pass,
    shouldComponentUpdate, host_render in Hr.
  unfold_monad. simpl in *. rewrite impure in Hr. simpl in Hr.
  host_cases_with
    ltac:(fun E => apply render_impure in E as [? ?]; [|done|done])
    ltac:(fun E => idtac).
  all: unfold merge_calls, state_calls, dispatch_calls in *; simpl in *.
  all: split; [lia|intros; simplify_eq].
  all: match goal with
       | H : ∀ e, Normal ?a = Normal e → _ |- _ =>
           destruct (H _ eq_refl) as (? & ? & Hch & _);
           destruct Hch as (? & ? & ?); [by left|]
       end.
  all: repeat split; try done; lia.
Qed.

(** A store notification received while subscribed, with pure=false. *)
Lemma StoreChange_impure (s : storeState) (i : instance) (w : world)
    (r : completion unit) (i' : instance) (w' : world) :
  no_deferred i →
  store_listening w = true →
  unsubscribe i = true →
  haveOwnPropsChanged i = false →
  host_step cfg (StoreChange s) (i, w) = (r, (i', w')) →
  state_calls (trace w) < state_calls (trace w')
  ∧ ∀ e rest, trace w' = EvRenderReturn e :: rest →
      dispatch_calls (trace w) < dispatch_calls (trace w')
      ∧ renderedElement i' = Some e
      ∧ (stateProps i' ≠ stateProps i ∨ dispatchProps i' ≠ dispatchProps i →
         merge_calls (trace w') = S (merge_calls (trace w))
         ∧ allocated w' = S (allocated w)
         ∧ el_id e = allocated w)
      ∧ (stateProps i' = stateProps i →
         dispatchProps i' = dispatchProps i →
         merge_calls (trace w') = merge_calls (trace w)
         ∧ ∀ previous, renderedElement i = Some previous →
             e = previous ∧ allocated w' = allocated w).
Proof using impure.
  intros [Hpre Herr] Hl Hu Hown Hr.
  destruct i as [p ss dp sp mp own store pre err el fd fs dd ds u], w.
  simpl in *. subst.
  unfold host_step, notify, flush, update_pass,
    shouldComponentUpdate, host_render in Hr.
  unfold_monad. simpl in Hr.
  rewrite handleChange_impure in Hr by done.
  unfold request_update in Hr. simpl in Hr. rewrite impure in Hr. simpl in Hr.
  host_cases_with
    ltac:(fun E => apply render_impure in E as [? ?]; [|done|done])
    ltac:(fun E => idtac).
  all: unfold merge_calls, state_calls, dispatch_calls in *; simpl in *.
  all: split; [lia|intros; simplify_eq].
  all: match goal with
       | H : ∀ e, Normal ?a = Normal e → _ |- _ =>
           destruct (H _ eq_refl) as (? & ? & Hch & Hsame)
       end.
  all: split; [lia|]. all: split; [done|]. all: split.
  all: try (intros Hne; destruct Hch as (? & ? & ?); [by right|];
            repeat split; try done; lia).
  all: intros; destruct Hsame as [? Hprev]; try done.
  all: split; [lia|]. all: intros ? ?; destruct (Hprev _ eq_refl); simplify_eq.
  all: by destruct (Hprev _ eq_refl).
Qed.

End Impure.




(** * Further properties of the component *)

(** ** The default merge function (lines 14-18) *)

(** X1: a property of the merged object comes from DispatchProps if it is
    there, else from StateProps, else from the own properties; its keys are
    those of the three together. *)
Theorem defaultMergeProps_lookup
    (stateProps dispatchProps : option plainObject) (parentProps : plainObject)
    (k : string) :
  defaultMergeProps stateProps dispatchProps parentProps !! k
  = match spread dispatchProps !! k with
    | Some v => Some v
    | None =>
        match spread stateProps !! k with
        | Some v => Some v
        | None => parentProps !! k
        end
    end
  ∧ dom (defaultMergeProps stateProps dispatchProps parentProps)
    = dom (spread dispatchProps) ∪ dom (spread stateProps) ∪ dom parentProps.
Proof.
  unfold defaultMergeProps. split.
  - rewrite !lookup_union.
    destruct (spread dispatchProps !! k), (spread stateProps !! k),
      (parentProps !! k); done.
  - rewrite !dom_union_L. apply set_eq. intros x.
    rewrite !elem_of_union. tauto.
Qed.

(** ** What a render pass and the handler leave alone *)

Section Frames.
Context (cfg : config).

(** A render pass, whether it returns or throws: the four dirty flags are
    reset; own properties, the recorded store state, the subscription and
    the store are untouched; a pass that returns has its result as the
    rendered element; a pass that throws keeps the element and the cached
    MergedProps. *)
Lemma render_frame (i : instance) (w : world)
    (r : completion element) (i' : instance) (w' : world) :
  render cfg (i, w) = (r, (i', w')) →
  (haveOwnPropsChanged i' = false
   ∧ hasStoreStateChanged i' = false
   ∧ haveStatePropsBeenPrecalculated i' = false
   ∧ statePropsPrecalculationError i' = VNull)
  ∧ (props i' = props i
     ∧ state_storeState i' = state_storeState i
     ∧ unsubscribe i' = unsubscribe i)
  ∧ (store_getState w' = store_getState w
     ∧ store_dispatch w' = store_dispatch w
     ∧ store_listening w' = store_listening w
     ∧ errorObject_value w' = errorObject_value w
     ∧ update_requested w' = update_requested w)
  ∧ match r with
    | Normal e => renderedElement i' = Some e
    | Throw _ =>
        renderedElement i' = renderedElement i
        ∧ mergedProps i' = mergedProps i
        ∧ allocated w' = allocated w
    end.
Proof.
  intros Hr.
  destruct i as [p ss dp sp mp own store pre err el fd fs dd ds u], w.
  unfold render, createElement in Hr. unfold_monad. simpl in *.
  run_cases; done.
Qed.

(** The handler: own properties, the subscription, the store, the cached
    DispatchProps and MergedProps, the element and the own-properties flag
    are untouched, and any update request stays. *)
Lemma handleChange_frame (i : instance) (w : world)
    (r : completion unit) (i' : instance) (w' : world) :
  handleChange cfg (i, w) = (r, (i', w')) →
  (props i' = props i
   ∧ unsubscribe i' = unsubscribe i
   ∧ haveOwnPropsChanged i' = haveOwnPropsChanged i
   ∧ dispatchProps i' = dispatchProps i
   ∧ finalMapDispatchToProps i' = finalMapDispatchToProps i
   ∧ doDispatchPropsDependOnOwnProps i' = doDispatchPropsDependOnOwnProps i)
  ∧ (store_getState w' = store_getState w
     ∧ store_dispatch w' = store_dispatch w
     ∧ store_listening w' = store_listening w)
  ∧ (update_requested w = true → update_requested w' = true).
Proof.
  intros Hr.
  destruct i as [p ss dp sp mp own store pre err el fd fs dd ds u], w.
  unfold handleChange, tryCatch, setState in Hr. unfold_monad. simpl in *.
  run_cases; done.
Qed.

End Frames.

(** ** The dirty flags after a render pass (lines 339-351) *)

(** X2: every render pass resets the four dirty flags before anything else, so
    they are reset whether the pass returns or throws. *)
Theorem render_always_resets_flags (cfg : config) (m : machine) :
  haveOwnPropsChanged (fst (snd (render cfg m))) = false
  ∧ hasStoreStateChanged (fst (snd (render cfg m))) = false
  ∧ haveStatePropsBeenPrecalculated (fst (snd (render cfg m))) = false
  ∧ statePropsPrecalculationError (fst (snd (render cfg m))) = VNull.
Proof.
  destruct m as [i w].
  destruct (render cfg (i, w)) as [r [i' w']] eqn:Hr.
  by apply render_frame in Hr as [? _].
Qed.

(** ** A pass with nothing to do (lines 364-402) *)

Section Quiet.
Context (cfg : config).

(** With pure=true, no flag set and an element rendered, a render pass
    calls nothing, allocates nothing and returns that element; the machine
    is as it was. *)
Lemma render_quiet (i : instance) (w : world) (e : element) :
  pure cfg = true →
  haveOwnPropsChanged i = false →
  hasStoreStateChanged i = false →
  haveStatePropsBeenPrecalculated i = false →
  statePropsPrecalculationError i = VNull →
  renderedElement i = Some e →
  render cfg (i, w) = (Normal e, (i, w)).
Proof.
  intros Hp Hown Hstore Hpre Herr Hel.
  destruct i as [p ss dp sp mp own store pre err el fd fs dd ds u].
  simpl in *. subst.
  unfold render. unfold_monad. simpl. by rewrite Hp.
Qed.

End Quiet.

(** X3: with pure=true, a render pass that returned, run again at once, returns
    the same element and changes nothing: no mapping or merge function is
    called and nothing is allocated. *)
Theorem render_twice_is_render_once
    (cfg : config) (m : machine) (e : element) (m1 : machine) :
  pure cfg = true →
  render cfg m = (Normal e, m1) →
  render cfg m1 = (Normal e, m1).
Proof.
  intros Hp Hr. destruct m as [i w], m1 as [i1 w1].
  apply render_frame in Hr as ((? & ? & ? & ?) & _ & _ & ?).
  by apply render_quiet.
Qed.

Lemma render_twice_is_render_once_witness :
  render counter_config (snd (render counter_config counter_constructed))
  = (Normal counter_element, snd (render counter_config counter_constructed)).
Proof.
  apply (render_twice_is_render_once counter_config counter_constructed).
  - reflexivity.
  - vm_compute; reflexivity.
Defined.

(** ** Own properties that are shallow-equal to the current ones
       (lines 254-260, 86-88) *)

(** X4: with pure=true and no flag pending, receiving own properties that are
    shallow-equal to the current ones leaves the machine as it is: no
    render pass, no call, no flag. *)
Theorem equal_props_do_not_render
    (cfg : config) (i : instance) (w : world) (nextProps : plainObject) :
  pure cfg = true →
  haveOwnPropsChanged i = false →
  hasStoreStateChanged i = false →
  shallowEqual nextProps (props i) = true →
  host_step cfg (ReceiveProps nextProps) (i, w) = (Normal tt, (i, w)).
Proof.
  intros Hp Hown Hstore Heq. apply shallowEqual_eq in Heq.
  destruct i as [p ss dp sp mp own store pre err el fd fs dd ds u].
  simpl in *. subst.
  unfold host_step, componentWillReceiveProps, update_pass,
    shouldComponentUpdate.
  unfold_monad. simpl. by rewrite Hp, shallowEqual_refl.
Qed.

Lemma equal_props_do_not_render_witness :
  host_step counter_config (ReceiveProps ∅) counter_mounted
  = (Normal tt, counter_mounted).
Proof.
  apply (equal_props_do_not_render counter_config
           (fst counter_mounted) (snd counter_mounted) ∅);
    vm_compute; reflexivity.
Defined.

(** ** The handler and the subscription (lines 226-245, 263-266, 288-294) *)

Section Subscription.
Context (cfg : config).

(** Without the unsubscribe function the handler returns at once, whatever
    the configuration and the store state. *)
Lemma handleChange_unsubscribed (i : instance) (w : world) :
  unsubscribe i = false →
  handleChange cfg (i, w) = (Normal tt, (i, w)).
Proof.
  intros Hu. unfold handleChange. unfold_monad. simpl. by rewrite Hu.
Qed.

(** [componentWillUnmount] leaves the instance unsubscribed, its listener
    removed if it had one, and the cache as [clearCache] sets it. *)
Lemma componentWillUnmount_result (i : instance) (w : world) :
  ∃ i' w',
    componentWillUnmount (i, w) = (Normal tt, (i', w'))
    ∧ unsubscribe i' = false
    ∧ store_listening w' = (if unsubscribe i then false else store_listening w)
    ∧ cache_cleared i'
    ∧ props i' = props i
    ∧ update_requested w' = update_requested w
    ∧ allocated w' = allocated w
    ∧ trace w' = (if unsubscribe i then [EvUnsubscribe] else []) ++ trace w.
Proof.
  destruct i as [p ss dp sp mp own store pre err el fd fs dd ds u], w.
  unfold componentWillUnmount, tryUnsubscribe, clearCache, cache_cleared.
  unfold_monad. simpl.
  destruct u; simpl; eexists _, _; (split; [reflexivity|]); simpl;
    by repeat split.
Qed.

End Subscription.

(** X5: unmounting a second time changes nothing more: the store is
    unsubscribed from once, and the cache is already clear. *)
Theorem unmount_is_idempotent (m : machine) :
  componentWillUnmount (snd (componentWillUnmount m))
  = (Normal tt, snd (componentWillUnmount m)).
Proof.
  destruct m as [[p ss dp sp mp own store pre err el fd fs dd ds u] w].
  destruct w.
  unfold componentWillUnmount, tryUnsubscribe, clearCache.
  unfold_monad. simpl. by destruct u.
Qed.

(** ** What the methods log *)

(** Case analysis as [run_cases], with a hook run on each cache update
    before its outcome is substituted. *)
Ltac run_step_with on_state on_dispatch on_merged :=
  match goal with
  | H : context [updateStatePropsIfNeeded ?c ?m] |- _ =>
      let E := fresh "Hstate" in
      destruct (updateStatePropsIfNeeded c m) as [[[]|?] [? ?]] eqn:E;
      on_state E;
      apply updateStatePropsIfNeeded_result in E
        as (? & ? & ? & ? & -> & -> & ? & ? & ? & ? & ? & ?)
  | H : context [updateDispatchPropsIfNeeded ?c ?m] |- _ =>
      let E := fresh "Hdispatch" in
      destruct (updateDispatchPropsIfNeeded c m) as [[[]|?] [? ?]] eqn:E;
      on_dispatch E;
      apply updateDispatchPropsIfNeeded_result in E
        as (? & ? & ? & ? & -> & -> & ? & ? & ? & ? & ? & ?)
  | H : context [updateMergedPropsIfNeeded ?c ?m] |- _ =>
      let E := fresh "Hmerged" in
      destruct (updateMergedPropsIfNeeded c m) as [[[]|?] [? ?]] eqn:E;
      on_merged E;
      apply updateMergedPropsIfNeeded_result in E
        as (? & ? & -> & -> & ? & ? & ? & ? & ?)
  | H : context [match ?x with _ => _ end] |- _ =>
      lazymatch x with
      | context [match _ with _ => _ end] => fail
      | _ => destruct x eqn:?
      end
  end.

Ltac run_cases_with on_state on_dispatch on_merged :=
  repeat (simpl in *; simplify_eq;
          run_step_with on_state on_dispatch on_merged);
  simpl in *; simplify_eq; simpl in *.

Section Logs.
Context (cfg : config) (p : event → bool).
Hypothesis p_call_free : call_free p.

Lemma updateStatePropsIfNeeded_counts i w r i' w' :
  updateStatePropsIfNeeded cfg (i, w) = (r, (i', w')) →
  count p (trace w') = count p (trace w).
Proof using p_call_free.
  destruct p_call_free as (Hs & _ & _).
  destruct i, w. js_simpl. intros H. js_cases; by rewrite ?Hs.
Qed.

Lemma updateDispatchPropsIfNeeded_counts i w r i' w' :
  updateDispatchPropsIfNeeded cfg (i, w) = (r, (i', w')) →
  count p (trace w') = count p (trace w).
Proof using p_call_free.
  destruct p_call_free as (_ & Hd & _).
  destruct i, w. js_simpl. intros H. js_cases; by rewrite ?Hd.
Qed.

Lemma updateMergedPropsIfNeeded_counts i w r i' w' :
  updateMergedPropsIfNeeded cfg (i, w) = (r, (i', w')) →
  count p (trace w') = count p (trace w).
Proof using p_call_free.
  destruct p_call_free as (_ & _ & Hm).
  destruct i, w. js_simpl. intros H. js_cases; by rewrite ?Hm.
Qed.

Ltac count_cases :=
  run_cases_with
    ltac:(fun E => pose proof (updateStatePropsIfNeeded_counts _ _ _ _ _ E))
    ltac:(fun E => pose proof (updateDispatchPropsIfNeeded_counts _ _ _ _ _ E))
    ltac:(fun E => pose proof (updateMergedPropsIfNeeded_counts _ _ _ _ _ E)).

(** A render pass logs calls and at most one [createElement]. *)
Lemma render_counts (i : instance) (w : world)
    (r : completion element) (i' : instance) (w' : world) :
  (∀ e, p (EvCreateElement e) = false) →
  render cfg (i, w) = (r, (i', w')) →
  count p (trace w') = count p (trace w).
Proof using p_call_free.
  intros Hc Hr.
  destruct i as [ps ss dp sp mp own store pre err el fd fs dd ds u], w.
  unfold render, createElement in Hr. unfold_monad. simpl in *.
  count_cases; rewrite ?Hc; simpl; congruence.
Qed.

(** The handler logs calls and at most one [setState]. *)
Lemma handleChange_counts (i : instance) (w : world)
    (r : completion unit) (i' : instance) (w' : world) :
  (∀ s, p (EvSetState s) = false) →
  handleChange cfg (i, w) = (r, (i', w')) →
  count p (trace w') = count p (trace w).
Proof using p_call_free.
  intros Hc Hr.
  destruct i as [ps ss dp sp mp own store pre err el fd fs dd ds u], w.
  unfold handleChange, tryCatch, setState in Hr. unfold_monad. simpl in *.
  count_cases; rewrite ?Hc; simpl; congruence.
Qed.

End Logs.

(** ** The subscription over a lifetime
       (lines 232-250, 263-266, 288-324) *)

Lemma is_subscribe_call_free : call_free is_subscribe.
Proof. by repeat split. Qed.

Lemma is_unsubscribe_call_free : call_free is_unsubscribe.
Proof. by repeat split. Qed.

Section Lifetimes.
Context (cfg : config).

(** An invariant of every update holds after every run. *)
Lemma after_invariant (P : machine → Prop) (evs : list host_event) (m : machine) :
  (∀ ev m, P m → P (snd (host_step cfg ev m))) →
  P m → P (after cfg evs m).
Proof.
  intros Hstep. revert m. induction evs as [|ev rest IH]; intros m Hm; [done|].
  rewrite after_cons. apply IH, Hstep, Hm.
Qed.

(** An invariant of every update but unmounting holds after every run that
    does not unmount. *)
Lemma after_invariant_mounted (P : machine → Prop)
    (evs : list host_event) (m : machine) :
  (∀ ev m, ev ≠ Unmount → P m → P (snd (host_step cfg ev m))) →
  Forall (λ ev, ev ≠ Unmount) evs →
  P m → P (after cfg evs m).
Proof.
  intros Hstep. revert m.
  induction evs as [|ev rest IH]; intros m Hall Hm; [done|].
  apply Forall_cons in Hall as [Hev Hall].
  rewrite after_cons. by apply IH, Hstep.
Qed.

Lemma render_keeps_subscription (i : instance) (w : world)
    (r : completion element) (i' : instance) (w' : world) :
  render cfg (i, w) = (r, (i', w')) →
  unsubscribe i' = unsubscribe i
  ∧ store_listening w' = store_listening w
  ∧ update_requested w' = update_requested w
  ∧ count is_subscribe (trace w') = count is_subscribe (trace w)
  ∧ count is_unsubscribe (trace w') = count is_unsubscribe (trace w).
Proof.
  intros Hr.
  pose proof (render_counts cfg _ is_subscribe_call_free _ _ _ _ _
                (λ _, eq_refl) Hr).
  pose proof (render_counts cfg _ is_unsubscribe_call_free _ _ _ _ _
                (λ _, eq_refl) Hr).
  apply render_frame in Hr as (_ & (_ & _ & ?) & (_ & _ & ? & _ & ?) & _).
  done.
Qed.

Lemma handleChange_keeps_subscription (i : instance) (w : world)
    (r : completion unit) (i' : instance) (w' : world) :
  handleChange cfg (i, w) = (r, (i', w')) →
  unsubscribe i' = unsubscribe i
  ∧ store_listening w' = store_listening w
  ∧ count is_subscribe (trace w') = count is_subscribe (trace w)
  ∧ count is_unsubscribe (trace w') = count is_unsubscribe (trace w).
Proof.
  intros Hr.
  pose proof (handleChange_counts cfg _ is_subscribe_call_free _ _ _ _ _
                (λ _, eq_refl) Hr).
  pose proof (handleChange_counts cfg _ is_unsubscribe_call_free _ _ _ _ _
                (λ _, eq_refl) Hr).
  apply handleChange_frame in Hr as ((_ & ? & _) & (_ & _ & ?) & _).
  done.
Qed.

Ltac subscription_cases :=
  host_cases_with
    ltac:(fun E => apply render_keeps_subscription in E as (? & ? & ? & ? & ?))
    ltac:(fun E => apply handleChange_keeps_subscription in E as (? & ? & ? & ?)).

Lemma host_step_keeps_subscription (ev : host_event) (m : machine) :
  subscription_ok m → subscription_ok (snd (host_step cfg ev m)).
Proof.
  destruct m as [i w]. unfold subscription_ok. intros (Hl & Hreq & Hcount).
  destruct (host_step cfg ev (i, w)) as [r [i' w']] eqn:Hr.
  destruct i as [p ss dp sp mp own store pre err el fd fs dd ds u], w.
  simpl in Hl, Hreq, Hcount. subst.
  destruct ev as [nextProps|s|].
  - unfold host_step, componentWillReceiveProps, update_pass,
      shouldComponentUpdate, host_render in Hr.
    unfold_monad. subscription_cases; repeat split; congruence.
  - unfold host_step, notify, flush, update_pass,
      shouldComponentUpdate, host_render in Hr.
    unfold_monad. subscription_cases; repeat split; congruence.
  - unfold host_step, componentWillUnmount, tryUnsubscribe, clearCache in Hr.
    unfold_monad. subscription_cases; repeat split; try done; lia.
Qed.

Lemma host_step_keeps_subscribed (ev : host_event) (m : machine) :
  ev ≠ Unmount →
  unsubscribe (fst (snd (host_step cfg ev m))) = unsubscribe (fst m).
Proof.
  destruct m as [i w]. intros Hev.
  destruct (host_step cfg ev (i, w)) as [r [i' w']] eqn:Hr.
  destruct i as [p ss dp sp mp own store pre err el fd fs dd ds u], w.
  destruct ev as [nextProps|s|]; [| |done].
  - unfold host_step, componentWillReceiveProps, update_pass,
      shouldComponentUpdate, host_render in Hr.
    unfold_monad. subscription_cases; congruence.
  - unfold host_step, notify, flush, update_pass,
      shouldComponentUpdate, host_render in Hr.
    unfold_monad. subscription_cases; congruence.
Qed.

Lemma mounted_subscription (s : storeState) (dispatch : value) (props : plainObject) :
  subscription_ok (mounted cfg s dispatch props)
  ∧ subscribed_as_configured cfg (mounted cfg s dispatch props).
Proof.
  unfold mounted, subscription_ok, subscribed_as_configured.
  destruct (mount cfg props (blank, initial_world s dispatch))
    as [r [i' w']] eqn:Hm. simpl.
  unfold mount, constructor, clearCache, componentDidMount,
    trySubscribe, flush, update_pass, shouldComponentUpdate, host_render,
    blank, initial_world in Hm.
  unfold_monad.
  subscription_cases; repeat split; try congruence; try lia.
  all: destruct (shouldSubscribe cfg); simpl in *; congruence.
Qed.

(** After unmounting, the instance is unsubscribed and its cache clear. *)
Lemma unmounted_state (m : machine) :
  subscription_ok m →
  unsubscribe (fst (snd (host_step cfg Unmount m))) = false
  ∧ store_listening (snd (snd (host_step cfg Unmount m))) = false
  ∧ update_requested (snd (snd (host_step cfg Unmount m))) = false
  ∧ cache_cleared (fst (snd (host_step cfg Unmount m))).
Proof.
  destruct m as [i w]. intros (Hl & Hreq & _). simpl in *.
  destruct (componentWillUnmount_result i w)
    as (i' & w' & Hr & Hu & Hl' & Hc & _ & Hreq' & _).
  unfold host_step. rewrite Hr. simpl.
  repeat split; try done; try congruence; try apply Hc.
  rewrite Hl', Hl. by destruct (unsubscribe i).
Qed.

(** A store notification that reaches an unsubscribed instance, or finds no
    listener, leaves it alone. *)
Lemma StoreChange_unsubscribed (s : storeState) (i : instance) (w : world) :
  unsubscribe i = false →
  update_requested w = false →
  host_step cfg (StoreChange s) (i, w) = (Normal tt, (i, set_store_getState s w)).
Proof.
  intros Hu Hreq. destruct w. simpl in Hreq. subst.
  unfold host_step, notify, flush. unfold_monad. simpl.
  destruct store_listening0; [|done].
  by rewrite handleChange_unsubscribed.
Qed.

End Lifetimes.

(** The subscription invariant at every point of a lifetime. *)
Lemma lifetime_subscription_ok
    (cfg : config) (s : storeState) (dispatch : value) (props : plainObject)
    (evs : list host_event) :
  subscription_ok (lifetime cfg s dispatch props evs).
Proof.
  rewrite lifetime_after. apply after_invariant.
  - intros ev m. apply host_step_keeps_subscription.
  - apply mounted_subscription.
Qed.

(** Until it is unmounted the instance is subscribed as configured. *)
Lemma lifetime_subscribed
    (cfg : config) (s : storeState) (dispatch : value) (props : plainObject)
    (evs : list host_event) :
  Forall (λ ev, ev ≠ Unmount) evs →
  unsubscribe (fst (lifetime cfg s dispatch props evs)) = shouldSubscribe cfg.
Proof.
  intros Hmounted. rewrite lifetime_after.
  apply (after_invariant_mounted cfg (subscribed_as_configured cfg));
    [|done|apply mounted_subscription].
  intros ev m Hev Hm. unfold subscribed_as_configured in *.
  by rewrite host_step_keeps_subscribed.
Qed.

(** X6: over a whole lifetime the store's listener and the instance's
    unsubscribe function go together, no update request is left pending
    between updates, and the log shows one subscription more than
    unsubscriptions exactly while subscribed: the instance never holds two
    subscriptions.  Until it is unmounted, the instance is subscribed if and
    only if a state mapping was given; right after unmounting it is
    unsubscribed and its cache is clear. *)
Theorem subscription_lifecycle
    (cfg : config) (s : storeState) (dispatch : value) (props : plainObject)
    (evs : list host_event) :
  subscription_ok (lifetime cfg s dispatch props evs)
  ∧ (Forall (λ ev, ev ≠ Unmount) evs →
     unsubscribe (fst (lifetime cfg s dispatch props evs)) = shouldSubscribe cfg)
  ∧ (unsubscribe (fst (lifetime cfg s dispatch props (evs ++ [Unmount]))) = false
     ∧ store_listening (snd (lifetime cfg s dispatch props (evs ++ [Unmount])))
       = false
     ∧ cache_cleared (fst (lifetime cfg s dispatch props (evs ++ [Unmount])))).
Proof.
  split; [apply lifetime_subscription_ok|]. split.
  - apply lifetime_subscribed.
  - pose proof (lifetime_subscription_ok cfg s dispatch props evs) as Hall.
    rewrite lifetime_after in Hall.
    rewrite !lifetime_after, after_app, after_cons.
    destruct (unmounted_state cfg _ Hall) as (? & ? & ? & ?).
    unfold after at 1 3 5. cbn [host_run]. unfold ret. cbn [snd].
    split; [done|]. split; done.
Qed.


(** X8: once unmounted, store notifications do nothing: the instance is as
    unmounting left it, nothing is called or logged, nothing throws. *)
Theorem notifications_after_unmount
    (cfg : config) (s : storeState) (dispatch : value) (props : plainObject)
    (evs changes : list host_event) :
  Forall (λ ev, is_state_change ev = true) changes →
  fst (lifetime cfg s dispatch props (evs ++ [Unmount] ++ changes))
  = fst (lifetime cfg s dispatch props (evs ++ [Unmount]))
  ∧ trace (snd (lifetime cfg s dispatch props (evs ++ [Unmount] ++ changes)))
    = trace (snd (lifetime cfg s dispatch props (evs ++ [Unmount])))
  ∧ allocated (snd (lifetime cfg s dispatch props (evs ++ [Unmount] ++ changes)))
    = allocated (snd (lifetime cfg s dispatch props (evs ++ [Unmount]))).
Proof.
  intros Hch.
  destruct (subscription_lifecycle cfg s dispatch props (evs ++ [Unmount]))
    as ((_ & Hreq & _) & _ & _).
  destruct (subscription_lifecycle cfg s dispatch props evs)
    as (_ & _ & Hu & _ & _).
  rewrite app_assoc, !lifetime_after, (after_app cfg (evs ++ [Unmount])).
  rewrite lifetime_after in Hreq, Hu.
  revert Hreq Hu.
  generalize (after cfg (evs ++ [Unmount]) (mounted cfg s dispatch props)).
  induction changes as [|ev rest IH]; intros [i w] Hreq Hu; [done|].
  apply Forall_cons in Hch as [Hev Hch].
  destruct ev as [|s'|]; try done.
  rewrite after_cons, StoreChange_unsubscribed by done. simpl in *.
  destruct (IH Hch (i, set_store_getState s' w)) as (H1 & H2 & H3);
    [by destruct w|done|].
  rewrite H1, H2, H3. by destruct w.
Qed.

Lemma notifications_after_unmount_witness :
  fst (lifetime counter_config (state_object 1 [("count", VNumber 0)])
         the_dispatch ∅
         ([] ++ [Unmount] ++ [StoreChange (state_object 2 [("count", VNumber 1)])]))
  = fst (lifetime counter_config (state_object 1 [("count", VNumber 0)])
           the_dispatch ∅ ([] ++ [Unmount])).
Proof.
  apply (notifications_after_unmount counter_config
           (state_object 1 [("count", VNumber 0)]) the_dispatch ∅ []
           [StoreChange (state_object 2 [("count", VNumber 1)])]).
  repeat constructor.
Defined.


(** ** Invariants of a lifetime *)

Section Rules.
Context (P : machine → Prop).

Lemma preserves_ret {A} (a : A) : preserves P (ret a).
Proof. by intros m. Qed.

Lemma preserves_this {A} (f : instance → A) : preserves P (this f).
Proof. by intros m. Qed.

Lemma preserves_env {A} (f : world → A) : preserves P (env f).
Proof. by intros m. Qed.

Lemma preserves_bind {A B} (c : M A) (k : A → M B) :
  preserves P c → (∀ a, preserves P (k a)) → preserves P (bind c k).
Proof.
  intros Hc Hk m Hm. unfold bind. specialize (Hc m Hm).
  destruct (c m) as [[a|e] m']; simpl in *; [by apply Hk|done].
Qed.

Lemma preserves_if {A} (b : bool) (c1 c2 : M A) :
  preserves P c1 → preserves P c2 → preserves P (if b then c1 else c2).
Proof. by destruct b. Qed.

End Rules.

Ltac preserves_steps known :=
  repeat first
    [ known
    | apply preserves_ret | apply preserves_this | apply preserves_env
    | apply preserves_if
    | apply preserves_bind; [|intros ?] ].

Section Preservation.
Context (cfg : config) (P : machine → Prop).
Hypothesis P_stepwise : stepwise cfg P.

Lemma preserves_update_pass : preserves P (update_pass cfg).
Proof using P_stepwise.
  unfold update_pass, shouldComponentUpdate.
  preserves_steps ltac:(apply (stepwise_host_render _ _ P_stepwise)).
Qed.

Lemma preserves_flush : preserves P (flush cfg).
Proof using P_stepwise.
  unfold flush.
  preserves_steps ltac:(first [ apply preserves_update_pass
                              | apply (stepwise_request _ _ P_stepwise) ]).
Qed.

Lemma preserves_notify : preserves P (notify cfg).
Proof using P_stepwise.
  unfold notify.
  preserves_steps ltac:(apply (stepwise_handleChange _ _ P_stepwise)).
Qed.

Lemma preserves_trySubscribe : preserves P (trySubscribe cfg).
Proof using P_stepwise.
  intros [i w] Hm. unfold trySubscribe, bind at 1, this. cbn [fst snd].
  destruct (shouldSubscribe cfg) eqn:Hs; [|done].
  destruct (unsubscribe i) eqn:Hu; [done|]. cbn [andb negb].
  pose proof (stepwise_subscribe _ _ P_stepwise (i, w) Hs Hu Hm) as H.
  apply (stepwise_handleChange _ _ P_stepwise) in H.
  exact H.
Qed.

Lemma preserves_host_step (ev : host_event) : preserves P (host_step cfg ev).
Proof using P_stepwise.
  destruct ev as [nextProps|s|].
  - apply (stepwise_receive _ _ P_stepwise).
  - unfold host_step.
    preserves_steps ltac:(first [ apply preserves_notify
                                | apply preserves_flush
                                | apply (stepwise_store _ _ P_stepwise) ]).
  - apply (stepwise_unmount _ _ P_stepwise).
Qed.

Lemma preserves_mount_steps :
  preserves P (host_render cfg >> componentDidMount cfg >> flush cfg).
Proof using P_stepwise.
  unfold componentDidMount.
  preserves_steps ltac:(first [ apply (stepwise_host_render _ _ P_stepwise)
                              | apply preserves_trySubscribe
                              | apply preserves_flush ]).
Qed.

End Preservation.

(** Whatever holds of the constructed instance and is kept by the steps of
    [stepwise] holds at every point of every lifetime. *)
Lemma lifetime_invariant_stepwise (cfg : config) (P : machine → Prop)
    (s : storeState) (dispatch : value) (props : plainObject)
    (evs : list host_event) :
  stepwise cfg P →
  P (snd (constructor props (blank, initial_world s dispatch))) →
  P (lifetime cfg s dispatch props evs).
Proof.
  intros Hsteps Hinit. rewrite lifetime_after.
  apply after_invariant.
  - intros ev m. by apply preserves_host_step.
  - unfold mounted, mount.
    apply (preserves_mount_steps cfg P Hsteps) in Hinit.
    exact Hinit.
Qed.

(** Receiving own properties is made of two assignments and an update
    pass. *)
Lemma stepwise_of_assignments (cfg : config) (P : machine → Prop) :
  preserves P (host_render cfg) →
  preserves P (handleChange cfg) →
  preserves P (assign (set_haveOwnPropsChanged true)) →
  (∀ p, preserves P (assign (set_props p))) →
  (∀ s, preserves P (env_set (set_store_getState s))) →
  preserves P (env_set (set_update_requested false)) →
  (∀ m, shouldSubscribe cfg = true → unsubscribe (fst m) = false →
        P m → P (snd (subscribe m))) →
  preserves P componentWillUnmount →
  stepwise cfg P.
Proof.
  intros Hrender Hhandle Hown Hprops Hstore Hrequest Hsubscribe Hunmount.
  split; try done.
  intros p. unfold host_step, componentWillReceiveProps, update_pass,
    shouldComponentUpdate.
  preserves_steps ltac:(first [ apply Hrender | apply Hown | apply Hprops ]).
Qed.

(** The finer steps make up the coarser ones. *)
Lemma closed_stepwise (cfg : config) (P : machine → Prop) :
  closed cfg P → stepwise cfg P.
Proof.
  intros Hclosed. apply stepwise_of_assignments.
  - intros m Hm. unfold host_render.
    pose proof (closed_render _ _ Hclosed m Hm) as Hr.
    destruct (render cfg m) as [[e|v] m']; simpl in Hr;
      by apply (closed_outcome _ _ Hclosed).
  - apply (closed_handleChange _ _ Hclosed).
  - apply (closed_own _ _ Hclosed).
  - apply (closed_props _ _ Hclosed).
  - apply (closed_store _ _ Hclosed).
  - apply (closed_request _ _ Hclosed).
  - apply (closed_subscribe _ _ Hclosed).
  - apply (closed_unmount _ _ Hclosed).
Qed.

Lemma lifetime_invariant (cfg : config) (P : machine → Prop)
    (s : storeState) (dispatch : value) (props : plainObject)
    (evs : list host_event) :
  closed cfg P →
  P (snd (constructor props (blank, initial_world s dispatch))) →
  P (lifetime cfg s dispatch props evs).
Proof.
  intros Hclosed. by apply lifetime_invariant_stepwise, closed_stepwise.
Qed.

(** The steps of [closed] other than the render pass and the handler are
    assignments: on a destructed machine they compute. *)
Ltac closed_steps :=
  repeat match goal with
  | |- preserves _ _ => intros [[] []]
  | |- ∀ _, _ => intros ?
  | m : machine |- _ => destruct m as [[] []]
  | m : (instance * world)%type |- _ => destruct m as [[] []]
  end;
  unfold subscribe, componentWillUnmount, tryUnsubscribe, clearCache in *;
  unfold_monad; simpl in *.

Ltac unmount_steps :=
  intros [[p ss dp sp mp own store pre err el fd fs dd ds u] []];
  unfold componentWillUnmount, tryUnsubscribe, clearCache;
  unfold_monad; simpl; destruct u; simpl.


(** ** The rendered element and the cached MergedProps (lines 386-419) *)

Section Elements.
Context (cfg : config).

Lemma render_keeps_element (i : instance) (w : world)
    (r : completion element) (i' : instance) (w' : world) :
  render cfg (i, w) = (r, (i', w')) →
  element_current cfg (i, w) → element_current cfg (i', w').
Proof.
  intros Hr. unfold element_current.
  destruct i as [p ss dp sp mp own store pre err el fd fs dd ds u], w.
  unfold render, createElement in Hr. unfold_monad. simpl in *.
  run_cases; intros Hcur cur ?; simplify_eq; simpl;
    try (destruct (Hcur _ eq_refl) as (? & ? & ?));
    repeat split; try done; try lia; try congruence.
  all: destruct_and?; subst; done.
Qed.

Lemma element_current_closed : closed cfg (element_current cfg).
Proof.
  split.
  - intros [i w] H. destruct (render cfg (i, w)) as [r [i' w']] eqn:E.
    by apply render_keeps_element in E.
  - intros [i w] H. destruct (handleChange cfg (i, w)) as [r [i' w']] eqn:E.
    apply handleChange_keeps_render_state in E as (Hm & He & Ha).
    unfold element_current in *. simpl in *. by rewrite Hm, He, Ha.
  - closed_steps; done.
  - closed_steps; done.
  - closed_steps; done.
  - closed_steps; done.
  - closed_steps; done.
  - closed_steps; done.
  - unfold element_current. unmount_steps; done.
Qed.

End Elements.

Lemma lifetime_element_current
    (cfg : config) (s : storeState) (dispatch : value) (props : plainObject)
    (evs : list host_event) :
  element_current cfg (lifetime cfg s dispatch props evs).
Proof.
  apply lifetime_invariant; [apply element_current_closed|done].
Qed.



(** ** An omitted dispatch mapping (lines 13, 44-52, 156-211) *)

(** The store's dispatch capability is the same throughout a lifetime. *)
Lemma lifetime_store_dispatch
    (cfg : config) (s : storeState) (dispatch : value) (props : plainObject)
    (evs : list host_event) :
  store_dispatch (snd (lifetime cfg s dispatch props evs)) = dispatch.
Proof.
  apply (lifetime_invariant cfg (λ m, store_dispatch (snd m) = dispatch));
    [|done].
  split.
  - intros [i w] H. destruct (render cfg (i, w)) as [r [i' w']] eqn:E.
    apply render_frame in E as (_ & _ & (_ & ? & _) & _). simpl in *.
    congruence.
  - intros [i w] H. destruct (handleChange cfg (i, w)) as [r [i' w']] eqn:E.
    apply handleChange_frame in E as (_ & (_ & ? & _) & _). simpl in *.
    congruence.
  - closed_steps; done.
  - closed_steps; done.
  - closed_steps; done.
  - closed_steps; done.
  - closed_steps; done.
  - closed_steps; done.
  - unmount_steps; done.
Qed.

Section DefaultDispatch.
Context (cfg : config).
Hypothesis absent : mapDispatchToProps cfg = MDAbsent.

Lemma mapDispatch_default : mapDispatch cfg = defaultMapDispatchToProps.
Proof using absent. unfold mapDispatch. by rewrite absent. Qed.

(** The update of the dispatch slot never throws and leaves the default
    mapping installed and the store's dispatch cached. *)
Lemma updateDispatchPropsIfNeeded_default i w r i' w' :
  updateDispatchPropsIfNeeded cfg (i, w) = (r, (i', w')) →
  default_dispatch_ok (i, w) →
  (∃ changed, r = Normal changed)
  ∧ finalMapDispatchToProps i' = Some defaultMapDispatchToProps
  ∧ dispatchProps i' = Some {[ "dispatch" := store_dispatch w ]}.
Proof using absent.
  unfold default_dispatch_ok. destruct i, w. intros H (Hfinal & Hcached & _).
  simpl in Hfinal, Hcached.
  unfold updateDispatchPropsIfNeeded, computeDispatchProps,
    configureFinalMapDispatch, computeDispatchProps_installed,
    invokeMapDispatch in H.
  rewrite mapDispatch_default in H. unfold_monad.
  destruct Hfinal as [->| ->]; simpl in H;
    repeat (case_match; simpl in *; simplify_eq);
    repeat match goal with
    | H : cached_equal _ _ = true |- _ => apply cached_equal_true in H
    end;
    simplify_eq; eauto.
Qed.

Lemma render_keeps_default_dispatch (i : instance) (w : world)
    (r : completion element) (i' : instance) (w' : world) :
  render cfg (i, w) = (r, (i', w')) →
  default_dispatch_ok (i, w) → default_dispatch_ok (i', w').
Proof using absent.
  intros Hr.
  destruct i as [p ss dp sp mp own store pre err el fd fs dd ds u], w.
  unfold render, createElement in Hr. unfold_monad. simpl in *.
  run_cases_with
    ltac:(fun E => idtac)
    ltac:(fun E => pose proof (updateDispatchPropsIfNeeded_default _ _ _ _ _ E))
    ltac:(fun E => idtac).
  all: unfold default_dispatch_ok in *; simpl in *.
  all: intros Hok; try done.
  all: repeat match goal with
       | H : ?A → _ |- _ => specialize (H Hok)
       end; destruct_and?; eauto.
  all: repeat match goal with
       | H : Some _ = None ∨ _ |- _ => destruct H as [H|H]; [done|]
       end; repeat split; eauto.
  all: by destruct (pure cfg).
Qed.

Lemma default_dispatch_closed : closed cfg default_dispatch_ok.
Proof using absent.
  split.
  - intros [i w] H. destruct (render cfg (i, w)) as [r [i' w']] eqn:E.
    by apply render_keeps_default_dispatch in E.
  - intros [i w] H. destruct (handleChange cfg (i, w)) as [r [i' w']] eqn:E.
    pose proof (handleChange_keeps_render_state _ _ _ _ _ _ E) as (_ & ? & _).
    apply handleChange_frame in E
      as ((_ & _ & _ & ? & ? & _) & (_ & ? & _) & _).
    unfold default_dispatch_ok in *. simpl in *. congruence.
  - closed_steps; done.
  - closed_steps; done.
  - closed_steps; done.
  - closed_steps; done.
  - closed_steps; done.
  - closed_steps; done.
  - unfold default_dispatch_ok. unmount_steps; intros _; repeat split; eauto.
Qed.

End DefaultDispatch.

(** X10: when [mapDispatchToProps] is omitted, the cached DispatchProps is, at
    every point of a lifetime, either not computed yet or exactly the
    store's dispatch under the key [dispatch]; it is the latter whenever an
    element has been rendered.  The default mapping never throws and no
    other mapping is ever installed in the slot. *)
Theorem omitted_dispatch_mapping_exposes_dispatch
    (cfg : config) (s : storeState) (dispatch : value) (props : plainObject)
    (evs : list host_event) :
  mapDispatchToProps cfg = MDAbsent →
  (dispatchProps (fst (lifetime cfg s dispatch props evs)) = None
   ∨ dispatchProps (fst (lifetime cfg s dispatch props evs))
     = Some {[ "dispatch" := dispatch ]})
  ∧ (is_Some (renderedElement (fst (lifetime cfg s dispatch props evs))) →
     dispatchProps (fst (lifetime cfg s dispatch props evs))
     = Some {[ "dispatch" := dispatch ]})
  ∧ (finalMapDispatchToProps (fst (lifetime cfg s dispatch props evs)) = None
     ∨ finalMapDispatchToProps (fst (lifetime cfg s dispatch props evs))
       = Some defaultMapDispatchToProps).
Proof.
  intros Habsent.
  pose proof (lifetime_store_dispatch cfg s dispatch props evs) as Hd.
  assert (default_dispatch_ok (lifetime cfg s dispatch props evs))
    as (Hfinal & Hcached & Hrendered).
  { apply lifetime_invariant; [by apply default_dispatch_closed|].
    unfold default_dispatch_ok. simpl. repeat split; eauto. }
  rewrite Hd in Hcached, Hrendered.
  split; [done|]. split; [|done].
  intros [e He]. destruct Hrendered as [Hnone|Hsome]; [congruence|done].
Qed.

Lemma omitted_dispatch_mapping_exposes_dispatch_witness :
  dispatchProps (fst (lifetime counter_config
                        (state_object 1 [("count", VNumber 0)]) the_dispatch ∅
                        [StoreChange (state_object 2 [("count", VNumber 1)])]))
  = Some {[ "dispatch" := the_dispatch ]}.
Proof.
  destruct (omitted_dispatch_mapping_exposes_dispatch counter_config
              (state_object 1 [("count", VNumber 0)]) the_dispatch ∅
              [StoreChange (state_object 2 [("count", VNumber 1)])] eq_refl)
    as (_ & H & _).
  apply H. vm_compute. eauto.
Defined.

(** ** An omitted state mapping (lines 11, 39-40, 113-154, 193-201) *)

Section DefaultState.
Context (cfg : config).
Hypothesis absent : mapStateToProps cfg = None.

Lemma mapState_default : mapState cfg = defaultMapStateToProps.
Proof using absent. unfold mapState. by rewrite absent. Qed.

Lemma shouldSubscribe_default : shouldSubscribe cfg = false.
Proof using absent.
  unfold shouldSubscribe. rewrite absent. apply bool_decide_eq_false.
  by intros [? ?].
Qed.

(** The update of the state slot never throws and leaves the default
    mapping installed and the empty object cached. *)
Lemma updateStatePropsIfNeeded_default i w r i' w' :
  updateStatePropsIfNeeded cfg (i, w) = (r, (i', w')) →
  default_state_ok (i, w) →
  (∃ changed, r = Normal changed)
  ∧ finalMapStateToProps i' = Some defaultMapStateToProps
  ∧ stateProps i' = Some ∅.
Proof using absent.
  unfold default_state_ok. destruct i, w. intros H (Hfinal & Hcached & _).
  simpl in Hfinal, Hcached.
  unfold updateStatePropsIfNeeded, computeStateProps,
    configureFinalMapState, computeStateProps_installed,
    invokeMapState in H.
  rewrite mapState_default in H. unfold_monad.
  destruct Hfinal as [->| ->]; simpl in H;
    repeat (case_match; simpl in *; simplify_eq);
    repeat match goal with
    | H : cached_equal _ _ = true |- _ => apply cached_equal_true in H
    end;
    simplify_eq; eauto.
Qed.

Lemma render_keeps_default_state (i : instance) (w : world)
    (r : completion element) (i' : instance) (w' : world) :
  render cfg (i, w) = (r, (i', w')) →
  default_state_ok (i, w) → default_state_ok (i', w').
Proof using absent.
  intros Hr.
  pose proof (render_counts cfg _ is_subscribe_call_free _ _ _ _ _
                (λ _, eq_refl) Hr) as Hcount.
  pose proof (render_frame _ _ _ _ _ _ Hr)
    as ((_ & _ & Hpre & _) & (_ & _ & Hu) & _).
  intros Hok. pose proof Hok as (_ & _ & _ & _ & Hu0 & Hcount0).
  simpl in Hu0, Hcount0.
  cut ((finalMapStateToProps i' = None
        ∨ finalMapStateToProps i' = Some defaultMapStateToProps)
       ∧ (stateProps i' = None ∨ stateProps i' = Some ∅)
       ∧ (renderedElement i' = None ∨ stateProps i' = Some ∅)).
  { intros (? & ? & ?). unfold default_state_ok. simpl.
    by rewrite Hpre, Hu, Hcount. }
  clear Hcount Hpre Hu Hu0 Hcount0. revert Hok.
  destruct i as [p ss dp sp mp own store pre err el fd fs dd ds u], w.
  unfold render, createElement in Hr. unfold_monad. simpl in *.
  run_cases_with
    ltac:(fun E => pose proof (updateStatePropsIfNeeded_default _ _ _ _ _ E))
    ltac:(fun E => idtac)
    ltac:(fun E => idtac).
  all: unfold default_state_ok in *; simpl in *.
  all: intros Hok; try (destruct_and?; repeat split; done).
  all: repeat match goal with
       | H : ?A → _ |- _ => specialize (H Hok)
       end; destruct_and?; subst; simpl in *.
  all: repeat match goal with
       | H : Some _ = None ∨ _ |- _ => destruct H as [H|H]; [done|]
       end; try (repeat split; by eauto).
  all: try by destruct (pure cfg).
Qed.

Lemma default_state_closed : closed cfg default_state_ok.
Proof using absent.
  split.
  - intros [i w] H. destruct (render cfg (i, w)) as [r [i' w']] eqn:E.
    by apply render_keeps_default_state in E.
  - intros [i w] H. rewrite handleChange_unsubscribed; [done|].
    by destruct H as (_ & _ & _ & _ & ? & _).
  - intros e He. unfold default_state_ok.
    destruct e; try done; closed_steps; done.
  - closed_steps; done.
  - closed_steps; done.
  - closed_steps; done.
  - closed_steps; done.
  - intros m Hs. by rewrite shouldSubscribe_default in Hs.
  - unfold default_state_ok. unmount_steps; intros (_ & _ & _ & _ & ? & ?);
      repeat split; eauto.
Qed.

End DefaultState.

(** X11: a component connected without [mapStateToProps] never subscribes to
    the store: at every point of its lifetime it holds no unsubscribe
    function, the store has no listener and the log no subscription; the
    cached StateProps is the empty object whenever an element has been
    rendered; and a store change does nothing but change the store: no
    mapping is called, nothing is rendered, nothing is logged. *)
Theorem omitted_state_mapping_ignores_the_store
    (cfg : config) (s : storeState) (dispatch : value) (props : plainObject)
    (evs : list host_event) (next : storeState) :
  mapStateToProps cfg = None →
  unsubscribe (fst (lifetime cfg s dispatch props evs)) = false
  ∧ store_listening (snd (lifetime cfg s dispatch props evs)) = false
  ∧ count is_subscribe (trace (snd (lifetime cfg s dispatch props evs))) = 0
  ∧ (is_Some (renderedElement (fst (lifetime cfg s dispatch props evs))) →
     stateProps (fst (lifetime cfg s dispatch props evs)) = Some ∅)
  ∧ host_step cfg (StoreChange next) (lifetime cfg s dispatch props evs)
    = (Normal tt,
       (fst (lifetime cfg s dispatch props evs),
        set_store_getState next (snd (lifetime cfg s dispatch props evs)))).
Proof.
  intros Habsent.
  destruct (lifetime_subscription_ok cfg s dispatch props evs)
    as (Hlistening & Hrequested & _).
  assert (default_state_ok (lifetime cfg s dispatch props evs))
    as (_ & _ & Hrendered & _ & Hu & Hcount).
  { apply lifetime_invariant; [by apply default_state_closed|].
    unfold default_state_ok. simpl. repeat split; eauto. }
  destruct (lifetime cfg s dispatch props evs) as [i w]. simpl in *.
  repeat split; try done.
  - congruence.
  - intros [e He]. destruct Hrendered; [congruence|done].
  - by apply StoreChange_unsubscribed.
Qed.

Lemma omitted_state_mapping_ignores_the_store_witness :
  unsubscribe (fst (lifetime (Config None MDAbsent None (Options None None))
                      (state_object 1 [("count", VNumber 0)]) the_dispatch ∅
                      [ReceiveProps {[ "a" := VNumber 1 ]}])) = false.
Proof.
  destruct (omitted_state_mapping_ignores_the_store
              (Config None MDAbsent None (Options None None))
              (state_object 1 [("count", VNumber 0)]) the_dispatch ∅
              [ReceiveProps {[ "a" := VNumber 1 ]}]
              (state_object 2 [("count", VNumber 1)]) eq_refl) as (H & _).
  exact H.
Defined.

(** ** The cached MergedProps and what it was merged from
    (lines 213-224, 288-324, 338-404) *)

Lemma is_render_throw_call_free : call_free is_render_throw.
Proof. by repeat split. Qed.

Lemma constructor_blank (props : plainObject) (s : storeState) (dispatch : value) :
  constructor props (blank, initial_world s dispatch)
  = (Normal tt, (constructed props s, initial_world s dispatch)).
Proof. reflexivity. Qed.

Section Coherence.
Context (cfg : config).

(** A merge update that returns leaves the cache coherent with the
    partials and own properties it ran on. *)
Lemma updateMergedPropsIfNeeded_coherent i w changed i' w' :
  updateMergedPropsIfNeeded cfg (i, w) = (Normal changed, (i', w')) →
  ∃ merged,
    mergedProps i' = Some merged
    ∧ finalMergeProps cfg (stateProps i) (dispatchProps i) (props i)
      = Normal merged.
Proof.
  destruct (finalMergeProps cfg (stateProps i) (dispatchProps i) (props i))
    as [next|e] eqn:Hm.
  - rewrite (updateMergedPropsIfNeeded_returns _ _ _ _ Hm).
    destruct i as [p ss dp sp mp own store pre err el fd fs dd ds u], w.
    simpl in *.
    destruct (checkMergedEquals cfg); simpl;
      [destruct (cached_equal next mp) eqn:Heq|];
      intros ?; simplify_eq; simpl; eauto.
    apply cached_equal_true in Heq. eauto.
  - rewrite (updateMergedPropsIfNeeded_throws _ _ _ _ Hm). done.
Qed.

Lemma render_coherent (i : instance) (w : world)
    (e : element) (i' : instance) (w' : world) :
  render cfg (i, w) = (Normal e, (i', w')) →
  merge_due cfg i → merged_coherent cfg i'.
Proof.
  intros Hr. unfold merge_due, merged_coherent.
  destruct i as [p ss dp sp mp own store pre err el fd fs dd ds u], w.
  unfold render, createElement in Hr. unfold_monad. simpl in *.
  run_cases_with
    ltac:(fun E => idtac)
    ltac:(fun E => idtac)
    ltac:(fun E =>
      try (pose proof (updateMergedPropsIfNeeded_coherent _ _ _ _ _ E)
             as (? & ? & ?))).
  all: intros Hdue merged ?; destruct_and?; simplify_eq; try done.
  all: try (destruct Hdue as [?|[?|Hc]]; [done|done|]; by apply Hc).
Qed.

(** A render pass: it logs no outcome itself, it resets the two flags, and
    when it returns from a machine where a merge was due or the cache
    coherent, the cache is coherent. *)
Lemma render_settles (i : instance) (w : world)
    (r : completion element) (i' : instance) (w' : world) :
  render cfg (i, w) = (r, (i', w')) →
  count is_render_throw (trace w') = count is_render_throw (trace w)
  ∧ haveOwnPropsChanged i' = false
  ∧ haveStatePropsBeenPrecalculated i' = false
  ∧ (merge_due cfg i →
     match r with Normal _ => merged_coherent cfg i' | Throw _ => True end).
Proof.
  intros Hr.
  pose proof (render_counts cfg _ is_render_throw_call_free _ _ _ _ _
                (λ _, eq_refl) Hr) as Hcount.
  pose proof (render_frame _ _ _ _ _ _ Hr) as ((Hown & _ & Hpre & _) & _).
  repeat split; try done.
  destruct r as [e|v]; [|done]. intros Hdue.
  by apply (render_coherent _ _ _ _ _ Hr).
Qed.

(** The handler leaves the cached MergedProps, the cached DispatchProps,
    own properties and their flag alone, and logs no outcome.  It either
    asks for an update, with the store flag set, or changes neither the
    cached StateProps nor the precalculation flag; and when it has replaced
    the cached StateProps, the precalculation flag is set. *)
Lemma handleChange_settles (i : instance) (w : world)
    (r : completion unit) (i' : instance) (w' : world) :
  handleChange cfg (i, w) = (r, (i', w')) →
  count is_render_throw (trace w') = count is_render_throw (trace w)
  ∧ mergedProps i' = mergedProps i
  ∧ dispatchProps i' = dispatchProps i
  ∧ props i' = props i
  ∧ haveOwnPropsChanged i' = haveOwnPropsChanged i
  ∧ (stateProps i' = stateProps i
     ∧ haveStatePropsBeenPrecalculated i' = haveStatePropsBeenPrecalculated i
     ∨ haveStatePropsBeenPrecalculated i' = true)
  ∧ (update_requested w' = update_requested w
     ∧ hasStoreStateChanged i' = hasStoreStateChanged i
     ∧ stateProps i' = stateProps i
     ∧ haveStatePropsBeenPrecalculated i' = haveStatePropsBeenPrecalculated i
     ∨ update_requested w' = true ∧ hasStoreStateChanged i' = true).
Proof.
  intros Hr.
  pose proof (handleChange_counts cfg _ is_render_throw_call_free _ _ _ _ _
                (λ _, eq_refl) Hr) as Hcount.
  pose proof (handleChange_keeps_render_state _ _ _ _ _ _ Hr) as (Hm & _ & _).
  pose proof (handleChange_frame _ _ _ _ _ _ Hr)
    as ((Hp & _ & Hown & Hd & _) & _).
  do 5 (split; [done|]). clear Hcount Hm Hp Hown Hd.
  destruct i as [p ss dp sp mp own store pre err el fd fs dd ds u], w.
  unfold handleChange, tryCatch, setState in Hr. unfold_monad. simpl in *.
  run_cases; destruct_and?; subst;
    (split; [by eauto|]); first [by left | by right].
Qed.

Ltac settled_cases :=
  host_cases_with
    ltac:(fun E => apply render_settles in E as (? & ? & ? & ?))
    ltac:(fun E => apply handleChange_settles in E
                     as (? & ? & ? & ? & ? & ? & ?)).

Ltac settled_goals Hs :=
  unfold settled, no_render_threw in *; simpl in *;
  repeat match goal with
  | H : _ || _ = false |- _ => apply orb_false_elim in H as [? ?]
  | H : negb _ = false |- _ => apply negb_false_iff in H
  | H : shallowEqual _ _ = true |- _ => apply shallowEqual_eq in H
  end;
  subst; simpl in *;
  let Hno := fresh "Hno" in
  let Hsome := fresh "Hsome" in
  intros Hno Hsome; try done;
  repeat match goal with
  | H : _ ∨ _ |- _ => destruct H as [H|H]
  end;
  destruct_and?; subst; simpl in *;
  try (match type of Hs with
       | ?A → _ =>
           let Hold := fresh in
           assert (Hold : A) by congruence; specialize (Hs Hold)
       end);
  repeat match goal with
  | H : ?A → _ |- _ =>
      lazymatch A with merge_due _ _ => idtac end;
      let G := fresh in
      assert (G : A);
      [ unfold merge_due, merged_coherent; simpl;
        first [ by left | by right; left | by right; right
              | right; right; intros ? Hmp;
                destruct (Hs (mk_is_Some _ _ Hmp)) as (_ & _ & Hc);
                by apply Hc ]
      | specialize (H G); clear G ]
  end;
  unfold merged_coherent in *; simpl in *;
  try (repeat split; done);
  try (destruct (Hs ltac:(first [assumption | congruence])) as (? & ? & ?);
       repeat split; first [done | congruence]).

Lemma host_step_keeps_settled (ev : host_event) (m : machine) :
  settled cfg m → settled cfg (snd (host_step cfg ev m)).
Proof.
  destruct m as [i w]. intros Hs.
  destruct (host_step cfg ev (i, w)) as [r [i' w']] eqn:Hr.
  destruct i as [p ss dp sp mp own store pre err el fd fs dd ds u], w.
  destruct ev as [nextProps|s|].
  - unfold host_step, componentWillReceiveProps, update_pass,
      shouldComponentUpdate, host_render in Hr.
    unfold_monad. settled_cases; settled_goals Hs.
  - unfold host_step, notify, flush, update_pass,
      shouldComponentUpdate, host_render in Hr.
    unfold_monad. settled_cases; settled_goals Hs.
  - unfold host_step, componentWillUnmount, tryUnsubscribe, clearCache in Hr.
    unfold_monad. settled_cases; intros _ [? ?]; done.
Qed.

Lemma mounted_settled (s : storeState) (dispatch : value) (props : plainObject) :
  settled cfg (mounted cfg s dispatch props).
Proof.
  unfold mounted.
  destruct (mount cfg props (blank, initial_world s dispatch))
    as [r [i' w']] eqn:Hm. simpl.
  unfold mount in Hm. unfold bind at 1 in Hm. rewrite constructor_blank in Hm.
  unfold componentDidMount, trySubscribe, flush, update_pass,
    shouldComponentUpdate, host_render, constructed, initial_world in Hm.
  unfold_monad.
  assert (settled cfg (constructed props s, initial_world s dispatch)) as Hs.
  { intros _ [? ?]. done. }
  unfold constructed, initial_world in Hs.
  settled_cases; settled_goals Hs.
Qed.

End Coherence.

Lemma lifetime_settled
    (cfg : config) (s : storeState) (dispatch : value) (props0 : plainObject)
    (evs : list host_event) :
  settled cfg (lifetime cfg s dispatch props0 evs).
Proof.
  rewrite lifetime_after. apply after_invariant.
  - intros ev m. apply host_step_keeps_settled.
  - apply mounted_settled.
Qed.

(** X12: at every point of a lifetime in which no render pass has thrown, the
    cached MergedProps is what the merge function returns on the cached
    StateProps, the cached DispatchProps and the current own properties,
    and neither the own-properties flag nor the precalculation flag is
    pending.  The caching of the three partials never leaves the merged
    properties behind the values they were merged from. *)
Theorem merged_props_are_coherent
    (cfg : config) (s : storeState) (dispatch : value) (props0 : plainObject)
    (evs : list host_event) (merged : plainObject) :
  no_render_threw (trace (snd (lifetime cfg s dispatch props0 evs))) →
  mergedProps (fst (lifetime cfg s dispatch props0 evs)) = Some merged →
  finalMergeProps cfg
    (stateProps (fst (lifetime cfg s dispatch props0 evs)))
    (dispatchProps (fst (lifetime cfg s dispatch props0 evs)))
    (props (fst (lifetime cfg s dispatch props0 evs)))
  = Normal merged
  ∧ haveOwnPropsChanged (fst (lifetime cfg s dispatch props0 evs)) = false
  ∧ haveStatePropsBeenPrecalculated (fst (lifetime cfg s dispatch props0 evs))
    = false.
Proof.
  intros Hno Hm.
  destruct (lifetime_settled cfg s dispatch props0 evs Hno (mk_is_Some _ _ Hm))
    as (Hown & Hpre & Hc).
  split; [by apply Hc|done].
Qed.

Lemma merged_props_are_coherent_witness :
  finalMergeProps counter_config
    (stateProps (fst (lifetime counter_config
                        (state_object 1 [("count", VNumber 0)]) the_dispatch ∅
                        [StoreChange (state_object 2 [("count", VNumber 1)])])))
    (dispatchProps (fst (lifetime counter_config
                        (state_object 1 [("count", VNumber 0)]) the_dispatch ∅
                        [StoreChange (state_object 2 [("count", VNumber 1)])])))
    (props (fst (lifetime counter_config
                        (state_object 1 [("count", VNumber 0)]) the_dispatch ∅
                        [StoreChange (state_object 2 [("count", VNumber 1)])])))
  = Normal {[ "count" := VNumber 1; "dispatch" := the_dispatch ]}.
Proof.
  destruct (merged_props_are_coherent counter_config
              (state_object 1 [("count", VNumber 0)]) the_dispatch ∅
              [StoreChange (state_object 2 [("count", VNumber 1)])]
              {[ "count" := VNumber 1; "dispatch" := the_dispatch ]})
    as (H & _).
  - vm_compute; reflexivity.
  - vm_compute; reflexivity.
  - exact H.
Defined.

(** ** Hot reloading (lines 432-443) *)

(** X13: with the instance's version behind the one of the current [connect]
    call, [componentWillUpdate] returns the new version without throwing,
    leaves the instance subscribed if it was or if a state mapping is
    configured, and leaves the cache as [clearCache] sets it: whatever the
    handler run by [trySubscribe] has just computed is dropped again.  Own
    properties are kept.  With the versions equal it does nothing. *)
Theorem hot_reload_clears_the_cache
    (cfg : config) (this_version version : nat) (m : machine) :
  this_version ≠ version →
  componentWillUpdate cfg version version m = (Normal version, m)
  ∧ ∃ m',
      componentWillUpdate cfg this_version version m = (Normal version, m')
      ∧ cache_cleared (fst m')
      ∧ props (fst m') = props (fst m)
      ∧ unsubscribe (fst m') = unsubscribe (fst m) || shouldSubscribe cfg
      ∧ store_dispatch (snd m') = store_dispatch (snd m)
      ∧ store_getState (snd m') = store_getState (snd m).
Proof.
  intros Hv. unfold componentWillUpdate. split.
  { by rewrite bool_decide_eq_true_2. }
  rewrite bool_decide_eq_false_2 by done.
  destruct m as [[p ss dp sp mp own store pre err el fd fs dd ds u] w].
  destruct w.
  unfold trySubscribe, clearCache, cache_cleared. unfold_monad. simpl.
  destruct (shouldSubscribe cfg), u; simpl;
    try (eexists; split; [reflexivity|]; simpl; by repeat split).
  match goal with
  | |- context [handleChange cfg ?m] =>
      pose proof (handleChange_never_throws cfg m) as Hn;
      destruct (handleChange cfg m) as [r [i' w']] eqn:E
  end.
  simpl in Hn. subst r.
  apply handleChange_frame in E as ((? & ? & _) & (? & ? & _) & _).
  destruct i'. simpl in *. subst.
  eexists; split; [reflexivity|]; simpl; by repeat split.
Qed.

Lemma hot_reload_clears_the_cache_witness :
  componentWillUpdate counter_config 1 1 counter_constructed
  = (Normal 1, counter_constructed).
Proof.
  apply (hot_reload_clears_the_cache counter_config 0 1 counter_constructed).
  lia.
Defined.

(** ** What the cached StateProps was computed from
    (lines 113-154, 193-201, 288-324, 338-404) *)

Section Freshness.
Context (cfg : config).
Hypothesis configured_ignores : ignores_extra_argument (mapState cfg).
Hypothesis configured_throws : throws_truthy (mapState cfg).

Lemma updateStatePropsIfNeeded_fresh i w r i' w' :
  updateStatePropsIfNeeded cfg (i, w) = (r, (i', w')) →
  state_slot_ok cfg i →
  state_slot_ok cfg i'
  ∧ match r with
    | Normal _ =>
        ∃ f sp,
          finalMapStateToProps i' = Some f
          ∧ stateProps i' = Some sp
          ∧ recomputed f (store_getState w) (props i) = Normal sp
    | Throw e => truthy e = true
    end.
Proof using configured_ignores configured_throws.
  unfold state_slot_ok, recomputed, own_argument.
  destruct i as [p ss dp sp mp own store pre err el fd fs dd ds u], w.
  js_simpl. intros H Hslot. js_cases.
  all: try (destruct (Hslot _ eq_refl) as [Hinst ->]; simpl in * ).
  all: repeat match goal with
       | H : cached_equal _ _ = true |- _ => apply cached_equal_true in H
       end; simplify_eq.
  all: try match goal with
       | |- truthy _ = true =>
           eapply configured_throws; [|eassumption];
           unfold installable; by eauto
       end.
  all: (split;
        [intros ? ?; simplify_eq; (split; [|done]); unfold installable;
         by eauto|]).
  all: try (eapply configured_throws; [|eassumption];
            unfold installable; by eauto).
  all: eexists _, _; (split; [reflexivity|]); (split; [reflexivity|]).
  all: repeat match goal with
       | H : bool_decide _ = _ |- _ => rewrite H
       end; simpl.
  all: try case_bool_decide.
  all: try match goal with
       | Hlen : fn_length ?f = 1, Hcall : fn_call ?f ?s (Some ?p) = _
         |- context [fn_call ?f ?s None] =>
           rewrite <- (configured_ignores Hlen s p)
       end.
  all: repeat match goal with
       | H : fn_call _ _ _ = _ |- _ => rewrite H
       end; simpl; try done.
Qed.

Lemma render_fresh (i : instance) (w : world)
    (r : completion element) (i' : instance) (w' : world) :
  render cfg (i, w) = (r, (i', w')) →
  state_slot_ok cfg i →
  state_slot_ok cfg i'
  ∧ (∀ f, finalMapStateToProps i = Some f → finalMapStateToProps i' = Some f)
  ∧ (state_fresh (i, w) ∨ recompute_due cfg i →
     match r with Normal _ => state_fresh (i', w') | Throw _ => True end).
Proof using configured_ignores configured_throws.
  intros Hr. unfold recompute_due, state_fresh, state_fresh_at.
  destruct i as [p ss dp sp mp own store pre err el fd fs dd ds u], w.
  unfold render, createElement in Hr. unfold_monad. simpl in *.
  run_cases_with
    ltac:(fun E => pose proof (updateStatePropsIfNeeded_fresh _ _ _ _ _ E))
    ltac:(fun E => idtac)
    ltac:(fun E => idtac).
  all: intros Hslot.
  all: repeat match goal with
       | H : state_slot_ok _ _ → _ |- _ => specialize (H Hslot)
       end; destruct_and?.
  all: unfold state_slot_ok in *; simpl in *.
  all: repeat match goal with
       | H : ∃ _, _ |- _ => destruct H as (? & H)
       end; destruct_and?; simplify_eq.
  all: split; [done|].
  all: (split;
        [first [ done
               | match goal with
                 | H : ∀ g : mapfn storeState, _ = Some g → _ = Some g ∧ _
                   |- _ => by intros ? [? _]%H
                 end ]|]).
  all: intros Hdue; try done.
  all: try by eexists _, _.
  all: destruct Hdue as [Hdue|(Hpre & [Hp|[He|[Hs|[Ho Hd]]]])]; simplify_eq;
       rewrite ?Hp, ?Hd in *; simpl in *; try done.
  all: repeat match goal with
       | H : context [_ || true] |- _ => rewrite orb_true_r in H
       | H : context [_ && false] |- _ => rewrite andb_false_r in H
       | H : context [_ && true] |- _ => rewrite andb_true_r in H
       end; simpl in *; try done.
Qed.

Lemma handleChange_fresh (i : instance) (w : world)
    (r : completion unit) (i' : instance) (w' : world) :
  handleChange cfg (i, w) = (r, (i', w')) →
  unsubscribe i = true →
  state_slot_ok cfg i →
  state_slot_ok cfg i'
  ∧ (∀ f, finalMapStateToProps i = Some f →
       finalMapStateToProps i' = Some f
       ∧ doStatePropsDependOnOwnProps i' = doStatePropsDependOnOwnProps i)
  ∧ handled cfg (i, w) (i', w').
Proof using configured_ignores configured_throws.
  intros Hr Hu.
  destruct i as [p ss dp sp mp own store pre err el fd fs dd ds u], w.
  unfold handleChange, tryCatch, setState in Hr. unfold_monad. simpl in *.
  subst u.
  run_cases_with
    ltac:(fun E => pose proof (updateStatePropsIfNeeded_fresh _ _ _ _ _ E))
    ltac:(fun E => idtac)
    ltac:(fun E => idtac).
  all: intros Hslot.
  all: repeat match goal with
       | H : state_slot_ok _ _ → _ |- _ => specialize (H Hslot)
       end; destruct_and?.
  all: split; [done|].
  all: repeat match goal with
       | H : _ && _ = true |- _ => apply andb_true_iff in H as [? ?]
       | H : negb _ = true |- _ => apply negb_true_iff in H
       end.
  all: (split;
        [first [ by intros
               | match goal with
                 | H : ∀ g : mapfn storeState, _ = Some g → _ ∧ _ |- _ =>
                     exact H
                 end ]|]).
  all: first
         [ by apply handled_same_state
         | by apply handled_unchanged
         | by apply handled_precalculated
         | by apply handled_failed
         | apply handled_requested; simpl; try done;
           match goal with
           | H : _ && negb _ = false |- _ =>
               apply andb_false_iff in H as [?|?%negb_false_iff]; eauto
           end ].
Qed.

(** A mapping that does not depend on own properties hands back the same
    for any. *)
Lemma recomputed_independent {S} (f : mapfn S) (depends : option bool)
    (s : S) (p p' : plainObject) :
  depends = Some (bool_decide (fn_length f ≠ 1)) →
  flag depends = false →
  recomputed f s p = recomputed f s p'.
Proof.
  intros -> Hf. simpl in Hf. unfold recomputed, own_argument. by rewrite Hf.
Qed.

Lemma flush_unfold (i : instance) (w : world) :
  flush cfg (i, w)
  = if update_requested w
    then if negb (pure cfg) || haveOwnPropsChanged i || hasStoreStateChanged i
         then host_render cfg (i, set_update_requested false w)
         else (Normal tt, (i, set_update_requested false w))
    else (Normal tt, (i, w)).
Proof.
  unfold flush, update_pass, shouldComponentUpdate. unfold_monad. simpl.
  destruct (update_requested w); [|done]. simpl.
  by destruct (negb (pure cfg) || haveOwnPropsChanged i
               || hasStoreStateChanged i).
Qed.

(** A render pass run by the host, on a machine where the cached
    StateProps is fresh or due to be recomputed, or an error is recorded. *)
Lemma host_render_fresh (i : instance) (w : world) :
  state_slot_ok cfg i →
  (no_render_threw (trace w) →
   truthy (statePropsPrecalculationError i) = true
   ∨ state_fresh (i, w) ∨ recompute_due cfg i) →
  ∃ i' w',
    host_render cfg (i, w) = (Normal tt, (i', w'))
    ∧ state_slot_ok cfg i'
    ∧ (∀ f, finalMapStateToProps i = Some f → finalMapStateToProps i' = Some f)
    ∧ props i' = props i
    ∧ state_storeState i' = state_storeState i
    ∧ store_getState w' = store_getState w
    ∧ (no_render_threw (trace w') →
       no_render_threw (trace w)
       ∧ state_fresh (i', w')
       ∧ haveStatePropsBeenPrecalculated i' = false).
Proof using configured_ignores configured_throws.
  intros Hslot Hdue. unfold host_render, no_render_threw in *.
  destruct (render cfg (i, w)) as [r [i' w']] eqn:Hr.
  pose proof (render_counts cfg _ is_render_throw_call_free _ _ _ _ _
                (λ _, eq_refl) Hr) as Hcount.
  pose proof (render_frame _ _ _ _ _ _ Hr)
    as ((_ & _ & Hpre & _) & (Hp & Hs & _) & (Hg & _) & _).
  destruct (render_fresh _ _ _ _ _ Hr Hslot) as (Hslot' & Hfinal & Hfresh).
  destruct w' as [g d l eo ur al t]. simpl in *.
  destruct r as [e|v]; unfold log, env_set; simpl;
    (eexists _, _; split; [reflexivity|]); simpl;
    (do 5 (split; [done|])); [|done].
  rewrite Hcount. intros Hno. split; [done|]. split; [|done].
  destruct (Hdue Hno) as [Herr|Hd].
  - rewrite render_rethrows in Hr by done. done.
  - by apply Hfresh in Hd.
Qed.

Lemma states_agree_same (i : instance) (w : world) :
  state_storeState i = store_getState w → states_agree (i, w).
Proof. intros H f p _. simpl. by rewrite H. Qed.

(** A requested update pass of an instance whose recorded store state is
    the current one. *)
Lemma flush_requested_fresh (universe : list storeState)
    (i : instance) (w : world) :
  update_requested w = true →
  hasStoreStateChanged i = true →
  state_slot_ok cfg i →
  state_storeState i = store_getState w →
  store_getState w ∈ universe →
  (no_render_threw (trace w) →
   truthy (statePropsPrecalculationError i) = true
   ∨ state_fresh (i, w) ∨ recompute_due cfg i) →
  ∃ i' w',
    flush cfg (i, w) = (Normal tt, (i', w'))
    ∧ state_slot_ok cfg i'
    ∧ state_storeState i' ∈ universe
    ∧ store_getState w' = store_getState w
    ∧ props i' = props i
    ∧ (no_render_threw (trace w') →
       no_render_threw (trace w)
       ∧ haveStatePropsBeenPrecalculated i' = false
       ∧ state_fresh_at (state_storeState i') i'
       ∧ states_agree (i', w')).
Proof using configured_ignores configured_throws.
  intros Hreq Hstore Hslot Hsame Hin Hdue.
  rewrite flush_unfold, Hreq, Hstore, orb_true_r.
  destruct (host_render_fresh i (set_update_requested false w) Hslot)
    as (i' & w' & Hr & Hslot' & Hfinal & Hp & Hs & Hg & Hpost).
  { destruct w. exact Hdue. }
  exists i', w'. split; [done|].
  assert (store_getState w' = store_getState w) as Hg'.
  { rewrite Hg. by destruct w. }
  assert (state_storeState i' = store_getState w') as Hsame'
    by congruence.
  split; [done|]. split; [by rewrite Hsame', Hg'|].
  split; [done|]. split; [done|].
  intros Hno. destruct (Hpost Hno) as (Hno' & Hfresh & Hpre).
  split; [by destruct w|]. split; [done|].
  split; [|by apply states_agree_same].
  unfold state_fresh in Hfresh. simpl in Hfresh. by rewrite Hsame'.
Qed.

(** A run of the handler and the update pass it may have asked for. *)
Lemma handle_flush_fresh (universe : list storeState)
    (i : instance) (w : world) :
  distinct_states universe →
  unsubscribe i = true →
  update_requested w = false →
  state_slot_ok cfg i →
  state_storeState i ∈ universe →
  store_getState w ∈ universe →
  (no_render_threw (trace w) →
   haveStatePropsBeenPrecalculated i = false
   ∧ state_fresh_at (state_storeState i) i) →
  ∃ i' w',
    flush cfg (snd (handleChange cfg (i, w))) = (Normal tt, (i', w'))
    ∧ state_slot_ok cfg i'
    ∧ state_storeState i' ∈ universe
    ∧ store_getState w' = store_getState w
    ∧ props i' = props i
    ∧ (no_render_threw (trace w') →
       no_render_threw (trace w)
       ∧ haveStatePropsBeenPrecalculated i' = false
       ∧ state_fresh_at (state_storeState i') i'
       ∧ states_agree (i', w')).
Proof using configured_ignores configured_throws.
  intros Hdistinct Hu Hreq Hslot Hprev Hstore Hrest.
  destruct (handleChange cfg (i, w)) as [r [i2 w2]] eqn:E.
  destruct (handleChange_fresh _ _ _ _ _ E Hu Hslot)
    as (Hslot2 & Hfinal & Hcases).
  pose proof (handleChange_counts cfg _ is_render_throw_call_free _ _ _ _ _
                (λ _, eq_refl) E) as Hcount.
  pose proof (handleChange_frame _ _ _ _ _ _ E)
    as ((Hp & _) & (Hg & _) & _).
  cbn [snd].
  destruct Hcases as [Hpure Hsame Heq|Hpure Hdep Hfresh Hsp Hss Hpre Hst Hur
                     |Hfresh Hpre Hss Hst Hur|Herr Hss Hst Hur
                     |Hwhy Hsp Hpre Herr Hss Hst Hur];
    simpl in *.
  - (* the recorded state is the current one *)
    simplify_eq. rewrite flush_unfold, Hreq.
    exists i, w. do 5 (split; [done|]).
    intros Hno. destruct (Hrest Hno) as (? & ?).
    do 3 (split; [done|]).
    apply states_agree_same. by apply Hdistinct.
  - (* recomputed and found unchanged *)
    rewrite flush_unfold, Hur, Hreq.
    exists i2, w2. split; [done|]. split; [done|].
    split; [by rewrite Hss|]. split; [done|]. split; [done|].
    unfold no_render_threw. rewrite Hcount. intros Hno.
    destruct (Hrest Hno) as (Hpre0 & f & sp & Hf & Hc & Hval).
    destruct (Hfinal _ Hf) as (Hf2 & Hd2).
    split; [done|]. split; [congruence|].
    split.
    + exists f, sp. rewrite Hss, Hp, Hsp. done.
    + intros g p Hg2. simpl in *.
      assert (g = f) as -> by congruence.
      destruct Hfresh as (f' & sp2 & Hf3 & Hc2 & Hval2). simpl in *.
      assert (f' = f) as -> by congruence.
      assert (sp2 = sp) as -> by congruence.
      destruct (Hslot2 _ Hf2) as (_ & Hflag).
      rewrite <- Hd2 in Hdep.
      rewrite (recomputed_independent _ _ _ p (props i) Hflag Hdep).
      rewrite (recomputed_independent _ _ (store_getState w2) p (props i2)
                 Hflag Hdep).
      by rewrite Hss, Hval, Hval2.
  - (* precalculated *)
    destruct (flush_requested_fresh universe i2 w2)
      as (i' & w' & ? & ? & ? & ? & ? & Hpost); try done; try congruence.
    { intros _. right. by left. }
    exists i', w'. do 2 (split; [done|]).
    split; [done|]. split; [congruence|]. split; [congruence|].
    intros Hno. destruct (Hpost Hno) as (Hno2 & ?).
    split; [|done]. unfold no_render_threw in *. by rewrite <- Hcount.
  - (* the recomputation threw *)
    destruct (flush_requested_fresh universe i2 w2)
      as (i' & w' & ? & ? & ? & ? & ? & Hpost); try done; try congruence.
    { intros _. by left. }
    exists i', w'. do 2 (split; [done|]).
    split; [done|]. split; [congruence|]. split; [congruence|].
    intros Hno. destruct (Hpost Hno) as (Hno2 & ?).
    split; [|done]. unfold no_render_threw in *. by rewrite <- Hcount.
  - (* an update is requested without recomputing *)
    destruct (flush_requested_fresh universe i2 w2)
      as (i' & w' & ? & ? & ? & ? & ? & Hpost); try done; try congruence.
    { unfold no_render_threw. rewrite Hcount. intros Hno.
      destruct (Hrest Hno) as (Hpre0 & _).
      right. right. split; [congruence|]. right. right. by left. }
    exists i', w'. do 2 (split; [done|]).
    split; [done|]. split; [congruence|]. split; [congruence|].
    intros Hno. destruct (Hpost Hno) as (Hno2 & ?).
    split; [|done]. unfold no_render_threw in *. by rewrite <- Hcount.
Qed.

Lemma StoreChange_listening (s : storeState) (i : instance) (w : world) :
  store_listening w = true →
  host_step cfg (StoreChange s) (i, w)
  = flush cfg (snd (handleChange cfg (i, set_store_getState s w))).
Proof.
  intros Hl. unfold host_step, notify. unfold_monad. simpl.
  replace (store_listening (set_store_getState s w)) with true
    by (by destruct w).
  pose proof (handleChange_never_throws cfg (i, set_store_getState s w)) as N.
  destruct (handleChange cfg (i, set_store_getState s w)) as [r m'].
  simpl in N. by subst r.
Qed.

Lemma ReceiveProps_unfold (nextProps : plainObject) (i : instance) (w : world) :
  host_step cfg (ReceiveProps nextProps) (i, w)
  = let own :=
      negb (pure cfg) || negb (shallowEqual nextProps (props i))
      || haveOwnPropsChanged i in
    let i1 := set_props nextProps (set_haveOwnPropsChanged own i) in
    if negb (pure cfg) || own || hasStoreStateChanged i
    then host_render cfg (i1, w)
    else (Normal tt, (i1, w)).
Proof.
  destruct i as [p ss dp sp mp own store pre err el fd fs dd ds u].
  unfold host_step, componentWillReceiveProps, update_pass,
    shouldComponentUpdate.
  unfold_monad. simpl.
  destruct (negb (pure cfg) || negb (shallowEqual nextProps p)); simpl.
  - by rewrite orb_true_r.
  - by destruct (negb (pure cfg) || own || store).
Qed.

Lemma state_fresh_agree (i : instance) (w : world) :
  state_fresh_at (state_storeState i) i → states_agree (i, w) →
  state_fresh (i, w).
Proof.
  intros (f & sp & Hf & Hsp & Hval) Hagree. exists f, sp.
  split; [done|]. split; [done|]. simpl. by rewrite <- (Hagree f _ Hf).
Qed.

Section Steps.
Context (universe : list storeState).
Hypothesis universe_distinct : distinct_states universe.

Lemma StoreChange_keeps_state_settled (s : storeState) (i : instance) (w : world) :
  s ∈ universe →
  unsubscribe i = true → store_listening w = true →
  update_requested w = false →
  state_settled cfg universe (i, w) →
  state_settled cfg universe (snd (host_step cfg (StoreChange s) (i, w))).
Proof using configured_ignores configured_throws universe_distinct.
  intros Hs Hu Hl Hreq (Hslot & Hprev & Hstore & Hrest).
  rewrite StoreChange_listening by done.
  simpl in Hslot, Hprev, Hstore, Hrest.
  destruct (handle_flush_fresh universe i (set_store_getState s w))
    as (i' & w' & -> & Hslot' & Hprev' & Hg & _ & Hpost); try done.
  - by destruct w.
  - by destruct w.
  - destruct w. intros Hno. by destruct (Hrest Hno) as (? & ? & _).
  - split; [done|]. split; [done|]. split.
    { simpl. rewrite Hg. by destruct w. }
    intros Hno. by destruct (Hpost Hno) as (? & ? & ? & ?).
Qed.

Lemma ReceiveProps_keeps_state_settled (nextProps : plainObject)
    (i : instance) (w : world) :
  state_settled cfg universe (i, w) →
  state_settled cfg universe (snd (host_step cfg (ReceiveProps nextProps) (i, w))).
Proof using configured_ignores configured_throws.
  intros (Hslot & Hprev & Hstore & Hrest).
  rewrite ReceiveProps_unfold. cbv zeta.
  simpl in Hslot, Hprev, Hstore, Hrest.
  set (own := negb (pure cfg) || negb (shallowEqual nextProps (props i))
              || haveOwnPropsChanged i).
  set (i1 := set_props nextProps (set_haveOwnPropsChanged own i)).
  assert (state_slot_ok cfg i1) as Hslot1 by (by destruct i).
  assert (state_storeState i1 = state_storeState i) as Hss1 by (by destruct i).
  assert (finalMapStateToProps i1 = finalMapStateToProps i) as Hf1
    by (by destruct i).
  assert (stateProps i1 = stateProps i) as Hsp1 by (by destruct i).
  assert (props i1 = nextProps) as Hp1 by (by destruct i).
  assert (haveOwnPropsChanged i1 = own) as Hown1 by (by destruct i).
  assert (haveStatePropsBeenPrecalculated i1
          = haveStatePropsBeenPrecalculated i) as Hpre1 by (by destruct i).
  assert (doStatePropsDependOnOwnProps i1 = doStatePropsDependOnOwnProps i)
    as Hd1 by (by destruct i).
  clearbody i1.
  destruct (negb (pure cfg) || own || hasStoreStateChanged i) eqn:Hgo.
  - (* the pass renders *)
    destruct (host_render_fresh i1 w Hslot1)
      as (i' & w' & -> & Hslot' & Hfinal & Hp' & Hss' & Hg' & Hpost).
    { intros Hno. destruct (Hrest Hno) as (Hpre & Hfresh & Hagree).
      right.
      destruct (pure cfg) eqn:Hpure; [|right; split; [congruence|by left]].
      destruct Hfresh as (f & sp & Hf & Hsp & Hval).
      destruct (Hslot _ Hf) as (_ & Hflag).
      destruct (flag (doStatePropsDependOnOwnProps i)) eqn:Hdep.
      - destruct (shallowEqual nextProps (props i)) eqn:Heq.
        + apply shallowEqual_eq in Heq. left. exists f, sp. simpl.
          rewrite Hf1, Hsp1, Hp1, Heq.
          rewrite <- (Hagree f _ Hf). done.
        + right. split; [congruence|]. right. right. right.
          rewrite Hown1, Hd1. done.
      - left. exists f, sp. simpl. rewrite Hf1, Hsp1, Hp1.
        rewrite <- (Hagree f _ Hf).
        by rewrite (recomputed_independent _ _ _ nextProps (props i)
                      Hflag Hdep). }
    split; [done|]. simpl. split; [congruence|]. split; [congruence|].
    intros Hno. destruct (Hpost Hno) as (Hno1 & Hfresh' & Hpre').
    destruct (Hrest Hno1) as (_ & (f & sp & Hf & _) & Hagree).
    assert (finalMapStateToProps i' = Some f) as Hf'
      by (apply Hfinal; congruence).
    assert (states_agree (i', w')) as Hagree'.
    { intros g p Hg. simpl in *. rewrite Hss', Hss1, Hg'.
      assert (g = f) as -> by congruence. by apply (Hagree f p). }
    split; [done|]. split; [|done].
    destruct Hfresh' as (g & sp' & Hg & Hsp' & Hval'). simpl in *.
    exists g, sp'. split; [done|]. split; [done|].
    by rewrite (Hagree' g _ Hg).
  - (* nothing to do: the properties are the same *)
    apply orb_false_elim in Hgo as [Hgo Hstore0].
    apply orb_false_elim in Hgo as [Hpure Hown].
    unfold own in Hown.
    apply orb_false_elim in Hown as [Hown Hown0].
    apply orb_false_elim in Hown as [_ Heq].
    apply negb_false_iff, shallowEqual_eq in Heq.
    unfold state_settled. simpl.
    split; [done|]. split; [congruence|]. split; [done|].
    intros Hno. destruct (Hrest Hno) as (Hpre & Hfresh & Hagree).
    split; [congruence|]. split.
    + destruct Hfresh as (f & sp & Hf & Hsp & Hval). exists f, sp.
      rewrite Hf1, Hsp1, Hp1, Hss1, Heq. done.
    + intros g p Hg. simpl in *. rewrite Hss1. apply (Hagree g p).
      simpl. congruence.
Qed.

End Steps.

Lemma host_render_frame (i : instance) (w : world)
    (r : completion unit) (i' : instance) (w' : world) :
  host_render cfg (i, w) = (r, (i', w')) →
  unsubscribe i' = unsubscribe i
  ∧ update_requested w' = update_requested w.
Proof.
  unfold host_render.
  destruct (render cfg (i, w)) as [c [i2 w2]] eqn:Hr.
  apply render_frame in Hr as (_ & (_ & _ & Hu) & (_ & _ & _ & _ & Hreq) & _).
  destruct w2.
  destruct c; unfold log, env_set; simpl; intros ?; by simplify_eq.
Qed.

(** Mounting a component that subscribes: construction, the first render,
    the subscription, the handler, and the update it may ask for. *)
Lemma mount_subscribing (s : storeState) (dispatch : value)
    (props : plainObject) :
  shouldSubscribe cfg = true →
  mount cfg props (blank, initial_world s dispatch)
  = flush cfg
      (snd (handleChange cfg
              (snd (subscribe
                      (snd (host_render cfg
                              (constructed props s,
                               initial_world s dispatch))))))).
Proof.
  intros Hshould. unfold mount. unfold bind at 1.
  rewrite constructor_blank. unfold bind at 1.
  destruct (host_render cfg (constructed props s, initial_world s dispatch))
    as [r [i1 w1]] eqn:Hr.
  pose proof (host_render_frame _ _ _ _ _ Hr) as (Hu & _).
  assert (r = Normal tt) as ->.
  { unfold host_render in Hr.
    destruct (render cfg _) as [[?|?] [? ?]]; unfold log, env_set in Hr;
      by simplify_eq. }
  unfold componentDidMount, trySubscribe, subscribe. unfold_monad.
  simpl in *. rewrite Hshould, Hu. simpl.
  match goal with
  | |- context [handleChange cfg ?m] =>
      pose proof (handleChange_never_throws cfg m) as N;
      destruct (handleChange cfg m) as [r m']
  end.
  simpl in N. by subst r.
Qed.

Lemma mounted_state_settled (universe : list storeState)
    (s : storeState) (dispatch : value) (props : plainObject) :
  distinct_states universe →
  s ∈ universe →
  shouldSubscribe cfg = true →
  state_settled cfg universe (mounted cfg s dispatch props).
Proof using configured_ignores configured_throws.
  intros Hdistinct Hs Hshould. unfold mounted.
  rewrite mount_subscribing by done.
  destruct (host_render_fresh (constructed props s) (initial_world s dispatch))
    as (i1 & w1 & Hr & Hslot1 & _ & Hp1 & Hss1 & Hg1 & Hpost1).
  { by intros f Hf. }
  { intros _. right. right. split; [done|]. right. by left. }
  pose proof (host_render_frame _ _ _ _ _ Hr) as (Hu1 & Hreq1).
  rewrite Hr. cbn [snd].
  unfold subscribe. unfold_monad. cbn [fst snd].
  destruct (handle_flush_fresh universe (set_unsubscribe true i1)
              (set_trace (EvSubscribe :: trace (set_store_listening true w1))
                 (set_store_listening true w1)))
    as (i' & w' & -> & Hslot' & Hprev' & Hg' & _ & Hpost); try done.
  - by destruct i1.
  - by destruct w1.
  - by destruct i1.
  - destruct i1. simpl in *. by rewrite Hss1.
  - destruct w1. simpl in *. by rewrite Hg1.
  - intros Hno.
    assert (no_render_threw (trace w1)) as Hno1 by (by destruct w1).
    destruct (Hpost1 Hno1) as (_ & Hfresh & Hpre).
    split; [by destruct i1|].
    destruct Hfresh as (f & sp & Hf & Hsp & Hval). simpl in *.
    exists f, sp. destruct i1. simpl in *.
    rewrite Hss1, Hg1 in *. done.
  - split; [done|]. split; [done|]. split.
    { simpl. rewrite Hg'. destruct w1. simpl in *. by rewrite Hg1. }
    intros Hno. by destruct (Hpost Hno) as (? & ? & ? & ?).
Qed.

End Freshness.

(** An invariant of the events that satisfy [Q] holds after every run of
    such events. *)
Lemma after_invariant_where (cfg : config) (Q : host_event → Prop)
    (P : machine → Prop) (evs : list host_event) (m : machine) :
  (∀ ev m, Q ev → P m → P (snd (host_step cfg ev m))) →
  Forall Q evs →
  P m → P (after cfg evs m).
Proof.
  intros Hstep. revert m.
  induction evs as [|ev rest IH]; intros m Hall Hm; [done|].
  apply Forall_cons in Hall as [Hev Hall].
  rewrite after_cons. by apply IH, Hstep.
Qed.

Lemma mounted_events (s : storeState) (evs : list host_event) :
  Forall (λ ev, ev ≠ Unmount) evs →
  Forall (mounted_event (store_states s evs)) evs.
Proof.
  intros Hall. apply Forall_forall. intros ev Hev.
  rewrite Forall_forall in Hall. specialize (Hall ev Hev).
  destruct ev as [p|s'|]; simpl; [done| |done].
  unfold store_states. apply elem_of_cons. right.
  apply list_elem_of_omap. by exists (StoreChange s').
Qed.

Lemma lifetime_state_settled
    (cfg : config) (configured : mapfn storeState)
    (s : storeState) (dispatch : value) (props0 : plainObject)
    (evs : list host_event) :
  mapStateToProps cfg = Some configured →
  ignores_extra_argument configured →
  throws_truthy configured →
  distinct_states (store_states s evs) →
  Forall (λ ev, ev ≠ Unmount) evs →
  state_settled cfg (store_states s evs) (lifetime cfg s dispatch props0 evs).
Proof.
  intros Hcfg Hignores Hthrows Hdistinct Hmounted.
  assert (mapState cfg = configured) as Hmap
    by (unfold mapState; by rewrite Hcfg).
  assert (shouldSubscribe cfg = true) as Hshould.
  { unfold shouldSubscribe. rewrite Hcfg. by apply bool_decide_eq_true. }
  rewrite <- Hmap in Hignores, Hthrows.
  set (universe := store_states s evs) in *.
  assert (subscription_ok (lifetime cfg s dispatch props0 evs)
          ∧ unsubscribe (fst (lifetime cfg s dispatch props0 evs)) = true
          ∧ state_settled cfg universe (lifetime cfg s dispatch props0 evs))
    as (_ & _ & Hsettled); [|done].
  rewrite lifetime_after.
  apply (after_invariant_where cfg (mounted_event universe));
    [|by apply mounted_events|].
  - intros ev [i w] Hev (Hsub & Hu & Hsettled).
    split; [by apply host_step_keeps_subscription|].
    split.
    { rewrite host_step_keeps_subscribed; [done|]. by destruct ev. }
    destruct Hsub as (Hl & Hreq & _). simpl in *.
    destruct ev as [p|s'|]; [| |done].
    + by apply ReceiveProps_keeps_state_settled.
    + apply StoreChange_keeps_state_settled; try done. congruence.
  - destruct (mounted_subscription cfg s dispatch props0) as [Hsub Hu].
    split; [done|]. split; [by rewrite Hu|].
    apply mounted_state_settled; try done.
    apply elem_of_cons. by left.
Qed.



(** ** What the cached DispatchProps was computed from
    (lines 156-188, 203-211, 338-404) *)

Section DispatchFreshness.
Context (cfg : config).
Hypothesis configured_ignores : ignores_extra_argument (mapDispatch cfg).

Lemma updateDispatchPropsIfNeeded_fresh i w r i' w' :
  updateDispatchPropsIfNeeded cfg (i, w) = (r, (i', w')) →
  dispatch_slot_ok cfg i →
  dispatch_slot_ok cfg i'
  ∧ match r with
    | Normal _ =>
        ∃ f dp,
          finalMapDispatchToProps i' = Some f
          ∧ dispatchProps i' = Some dp
          ∧ recomputed f (store_dispatch w) (props i) = Normal dp
    | Throw _ => True
    end.
Proof using configured_ignores.
  unfold dispatch_slot_ok, recomputed, own_argument.
  destruct i as [p ss dp sp mp own store pre err el fd fs dd ds u], w.
  js_simpl. intros H Hslot. js_cases.
  all: try (destruct (Hslot _ eq_refl) as [Hinst ->]; simpl in * ).
  all: repeat match goal with
       | H : cached_equal _ _ = true |- _ => apply cached_equal_true in H
       end; simplify_eq.
  all: (split;
        [intros ? ?; simplify_eq; (split; [|done]); unfold installable;
         by eauto|]).
  all: try done.
  all: eexists _, _; (split; [reflexivity|]); (split; [reflexivity|]).
  all: repeat match goal with
       | H : bool_decide _ = _ |- _ => rewrite H
       end; simpl.
  all: try case_bool_decide.
  all: try match goal with
       | Hlen : fn_length ?f = 1, Hcall : fn_call ?f ?s (Some ?p) = _
         |- context [fn_call ?f ?s None] =>
           rewrite <- (configured_ignores Hlen s p)
       end.
  all: repeat match goal with
       | H : fn_call _ _ _ = _ |- _ => rewrite H
       end; simpl; try done.
Qed.

Lemma render_dispatch_fresh (i : instance) (w : world)
    (r : completion element) (i' : instance) (w' : world) :
  render cfg (i, w) = (r, (i', w')) →
  dispatch_slot_ok cfg i →
  dispatch_slot_ok cfg i'
  ∧ (dispatch_fresh (i, w) ∨ dispatch_due cfg i →
     match r with Normal _ => dispatch_fresh (i', w') | Throw _ => True end).
Proof using configured_ignores.
  intros Hr. unfold dispatch_due, dispatch_fresh.
  destruct i as [p ss dp sp mp own store pre err el fd fs dd ds u], w.
  unfold render, createElement in Hr. unfold_monad. simpl in *.
  run_cases_with
    ltac:(fun E => idtac)
    ltac:(fun E => pose proof (updateDispatchPropsIfNeeded_fresh _ _ _ _ _ E))
    ltac:(fun E => idtac).
  all: intros Hslot.
  all: repeat match goal with
       | H : dispatch_slot_ok _ _ → _ |- _ => specialize (H Hslot)
       end; destruct_and?.
  all: unfold dispatch_slot_ok in *; simpl in *.
  all: repeat match goal with
       | H : ∃ _, _ |- _ => destruct H as (? & H)
       end; destruct_and?; simplify_eq.
  all: split; [done|].
  all: intros Hdue; try done.
  all: try (split; [intros ? ?; simplify_eq; by eexists|by eauto]).
  all: destruct Hdue as [[Hdue Hsome]|[Hp|[He|[Ho Hd]]]]; simplify_eq;
       rewrite ?Hp, ?Hd in *; simpl in *; try done.
  all: repeat match goal with
       | H : context [_ || true] |- _ => rewrite orb_true_r in H
       | H : context [_ && false] |- _ => rewrite andb_false_r in H
       | H : context [_ && true] |- _ => rewrite andb_true_r in H
       end; simpl in *; try done.
  all: split; [done|]; intros _; apply Hsome; by eexists.
Qed.

(** A render pass run by the host, on a machine where the cached
    DispatchProps is fresh or due to be recomputed. *)
Lemma host_render_dispatch_fresh (i : instance) (w : world) :
  dispatch_slot_ok cfg i →
  (no_render_threw (trace w) → dispatch_fresh (i, w) ∨ dispatch_due cfg i) →
  dispatch_settled cfg (snd (host_render cfg (i, w))).
Proof using configured_ignores.
  intros Hslot Hdue. unfold host_render, dispatch_settled, no_render_threw in *.
  destruct (render cfg (i, w)) as [r [i' w']] eqn:Hr.
  pose proof (render_counts cfg _ is_render_throw_call_free _ _ _ _ _
                (λ _, eq_refl) Hr) as Hcount.
  destruct (render_dispatch_fresh _ _ _ _ _ Hr Hslot) as (Hslot' & Hfresh).
  destruct w' as [g d l eo ur al t]. simpl in *.
  destruct r as [e|v]; unfold log, env_set; simpl; (split; [done|]); [|done].
  rewrite Hcount. intros Hno. by apply Hfresh, Hdue.
Qed.

Lemma dispatch_settled_stepwise : stepwise cfg (dispatch_settled cfg).
Proof using configured_ignores.
  split.
  - intros [i w] (Hslot & Hfresh).
    apply host_render_dispatch_fresh; [done|]. intros Hno. left. by apply Hfresh.
  - intros [i w] (Hslot & Hfresh).
    destruct (handleChange cfg (i, w)) as [r [i' w']] eqn:E.
    pose proof (handleChange_counts cfg _ is_render_throw_call_free _ _ _ _ _
                  (λ _, eq_refl) E) as Hcount.
    pose proof (handleChange_keeps_render_state _ _ _ _ _ _ E)
      as (_ & Hel & _).
    apply handleChange_frame in E
      as ((Hp & _ & _ & Hdp & Hf & Hd) & (_ & Hg & _) & _).
    unfold dispatch_settled, dispatch_slot_ok, dispatch_fresh,
      no_render_threw in *.
    simpl in *. rewrite Hcount, Hp, Hdp, Hf, Hd, Hg, Hel. done.
  - intros p [i w] (Hslot & Hfresh).
    rewrite ReceiveProps_unfold. cbv zeta. simpl in Hslot, Hfresh.
    set (own := negb (pure cfg) || negb (shallowEqual p (props i))
                || haveOwnPropsChanged i).
    set (i1 := set_props p (set_haveOwnPropsChanged own i)).
    assert (dispatch_slot_ok cfg i1) as Hslot1 by (by destruct i).
    assert (finalMapDispatchToProps i1 = finalMapDispatchToProps i) as Hf1
      by (by destruct i).
    assert (dispatchProps i1 = dispatchProps i) as Hdp1 by (by destruct i).
    assert (props i1 = p) as Hp1 by (by destruct i).
    assert (haveOwnPropsChanged i1 = own) as Hown1 by (by destruct i).
    assert (doDispatchPropsDependOnOwnProps i1
            = doDispatchPropsDependOnOwnProps i) as Hd1 by (by destruct i).
    assert (renderedElement i1 = renderedElement i) as Hel1
      by (by destruct i).
    clearbody i1.
    assert (no_render_threw (trace w) →
            dispatch_fresh (i1, w) ∨ dispatch_due cfg i1) as Hdue.
    { intros Hno. specialize (Hfresh Hno).
      destruct (pure cfg) eqn:Hpure; [|right; by left].
      destruct (flag (doDispatchPropsDependOnOwnProps i)) eqn:Hdep.
      - destruct (shallowEqual p (props i)) eqn:Heq.
        + apply shallowEqual_eq in Heq. left.
          destruct Hfresh as [Hfresh Hsome]. split; simpl in *.
          * intros dp Hdp. rewrite Hf1, Hp1, Heq. apply Hfresh. congruence.
          * by rewrite Hel1, Hdp1.
        + right. right. right. by rewrite Hown1, Hd1.
      - left. destruct Hfresh as [Hfresh Hsome]. split; simpl in *.
        + intros dp Hdp. rewrite Hdp1 in Hdp.
          destruct (Hfresh dp Hdp) as (f & Hf & Hval). exists f.
          rewrite Hf1, Hp1. split; [done|].
          destruct (Hslot f Hf) as (_ & Hflag).
          by rewrite (recomputed_independent _ _ _ p (props i) Hflag Hdep).
        + by rewrite Hel1, Hdp1. }
    destruct (negb (pure cfg) || own || hasStoreStateChanged i) eqn:Hgo.
    + by apply host_render_dispatch_fresh.
    + apply orb_false_elim in Hgo as [Hgo _].
      apply orb_false_elim in Hgo as [Hpure Hown].
      unfold own in Hown.
      apply orb_false_elim in Hown as [Hown _].
      apply orb_false_elim in Hown as [_ Heq].
      apply negb_false_iff, shallowEqual_eq in Heq.
      unfold dispatch_settled. simpl. split; [done|].
      intros Hno. destruct (Hfresh Hno) as [Hfr Hsome]. split; simpl in *.
      * intros dp Hdp. rewrite Hf1, Hp1, Heq. apply Hfr. congruence.
      * by rewrite Hel1, Hdp1.
  - unfold dispatch_settled, dispatch_slot_ok, dispatch_fresh.
    closed_steps; done.
  - unfold dispatch_settled, dispatch_slot_ok, dispatch_fresh.
    closed_steps; done.
  - unfold dispatch_settled, dispatch_slot_ok, dispatch_fresh.
    closed_steps; done.
  - unfold dispatch_settled, dispatch_slot_ok, dispatch_fresh.
    unmount_steps; intros _; (split; [done|]); intros _;
      (split; [done|]); by intros [? ?].
Qed.

End DispatchFreshness.

Lemma lifetime_dispatch_settled
    (cfg : config) (s : storeState) (dispatch : value) (props0 : plainObject)
    (evs : list host_event) :
  ignores_extra_argument (mapDispatch cfg) →
  dispatch_settled cfg (lifetime cfg s dispatch props0 evs).
Proof.
  intros Hignores. apply lifetime_invariant_stepwise.
  - by apply dispatch_settled_stepwise.
  - unfold dispatch_settled, dispatch_slot_ok, dispatch_fresh. simpl.
    split; [intros f Hf; discriminate|]. intros _.
    split; [intros dp' Hdp'; discriminate|]. by intros [? ?].
Qed.

(** X15: for a dispatch mapping that, when declared with one parameter, ignores
    a second argument: at every point of a lifetime in which no render pass
    has thrown, the cached DispatchProps, if there is one, is what the
    installed mapping hands back for the store's dispatch and the current
    own properties; and the installed mapping is the configured one or a
    function it returned. *)
Theorem dispatch_props_are_fresh
    (cfg : config) (s : storeState) (dispatch : value) (props0 : plainObject)
    (evs : list host_event) (dp : plainObject) :
  ignores_extra_argument (mapDispatch cfg) →
  no_render_threw (trace (snd (lifetime cfg s dispatch props0 evs))) →
  dispatchProps (fst (lifetime cfg s dispatch props0 evs)) = Some dp →
  ∃ f,
    finalMapDispatchToProps (fst (lifetime cfg s dispatch props0 evs)) = Some f
    ∧ installable (mapDispatch cfg) f
    ∧ recomputed f dispatch (props (fst (lifetime cfg s dispatch props0 evs)))
      = Normal dp.
Proof.
  intros Hignores Hno Hdp.
  pose proof (lifetime_store_dispatch cfg s dispatch props0 evs) as Hd.
  destruct (lifetime_dispatch_settled cfg s dispatch props0 evs Hignores)
    as (Hslot & Hfresh).
  destruct (Hfresh Hno) as (Hfr & _).
  destruct (Hfr dp Hdp) as (f & Hf & Hval).
  exists f. destruct (Hslot f Hf) as (Hinst & _). by rewrite Hd in Hval.
Qed.

Lemma dispatch_props_are_fresh_witness :
  ∃ f,
    finalMapDispatchToProps
      (fst (lifetime counter_config (state_object 1 [("count", VNumber 0)])
              the_dispatch ∅ [ReceiveProps {[ "a" := VNumber 1 ]}]))
    = Some f
    ∧ installable (mapDispatch counter_config) f
    ∧ recomputed f the_dispatch
        (props
           (fst (lifetime counter_config
                   (state_object 1 [("count", VNumber 0)]) the_dispatch ∅
                   [ReceiveProps {[ "a" := VNumber 1 ]}])))
      = Normal {[ "dispatch" := the_dispatch ]}.
Proof.
  apply (dispatch_props_are_fresh counter_config
           (state_object 1 [("count", VNumber 0)]) the_dispatch ∅
           [ReceiveProps {[ "a" := VNumber 1 ]}]
           {[ "dispatch" := the_dispatch ]}).
  - intros _ source props. reflexivity.
  - vm_compute; reflexivity.
  - vm_compute; reflexivity.
Defined.

(** ** What the wrapped component receives *)

Ltac by_modus_ponens :=
  match goal with
  | H : ?A → _, H0 : ?A |- _ => exact (H H0)
  end.

Section Present.
Context (cfg : config).

Lemma render_merged_present (i : instance) (w : world)
    (e : element) (i' : instance) (w' : world) :
  render cfg (i, w) = (Normal e, (i', w')) →
  match renderedElement i with
  | Some _ => is_Some (mergedProps i)
  | None => haveOwnPropsChanged i = true
  end →
  is_Some (mergedProps i').
Proof.
  intros Hr.
  destruct i as [p ss dp sp mp own store pre err el fd fs dd ds u], w.
  unfold render, createElement in Hr. unfold_monad. simpl in *.
  run_cases_with
    ltac:(fun E => idtac)
    ltac:(fun E => idtac)
    ltac:(fun E =>
      try (pose proof (updateMergedPropsIfNeeded_coherent _ _ _ _ _ _ E)
             as (? & ? & _))).
  all: intros Hpre; destruct_and?; simplify_eq; try done.
Qed.

Lemma merged_present_stepwise : stepwise cfg merged_present.
Proof.
  apply stepwise_of_assignments.
  - intros [i w] Hm. unfold host_render, merged_present, no_render_threw in *.
    destruct (render cfg (i, w)) as [r [i' w']] eqn:Hr.
    pose proof (render_counts cfg _ is_render_throw_call_free _ _ _ _ _
                  (λ _, eq_refl) Hr) as Hcount.
    pose proof (render_frame _ _ _ _ _ _ Hr) as (_ & _ & _ & Hel).
    destruct w' as [g d l eo ur al t]. simpl in *.
    destruct r as [e|v]; unfold log, env_set; simpl; [|done].
    rewrite Hcount, Hel. intros Hno.
    by apply (render_merged_present _ _ _ _ _ Hr), Hm.
  - intros [i w] Hm. unfold merged_present, no_render_threw in *.
    destruct (handleChange cfg (i, w)) as [r [i' w']] eqn:E.
    pose proof (handleChange_counts cfg _ is_render_throw_call_free _ _ _ _ _
                  (λ _, eq_refl) E) as Hcount.
    pose proof (handleChange_keeps_render_state _ _ _ _ _ _ E)
      as (Hmp & Hel & _).
    apply handleChange_frame in E as ((_ & _ & Hown & _) & _).
    simpl in *. by rewrite Hcount, Hmp, Hel, Hown.
  - unfold merged_present, no_render_threw. closed_steps.
    match goal with
    | Hm : _ → _, Hno : count _ _ = 0 |- _ => specialize (Hm Hno)
    end.
    by case_match.
  - unfold merged_present, no_render_threw. closed_steps; by_modus_ponens.
  - unfold merged_present, no_render_threw. closed_steps; by_modus_ponens.
  - unfold merged_present, no_render_threw. closed_steps; by_modus_ponens.
  - unfold merged_present, no_render_threw. closed_steps; by_modus_ponens.
  - unfold merged_present, no_render_threw. unmount_steps; try done; by_modus_ponens.
Qed.

(** What a host event does to own properties and to the store's state. *)
Lemma host_step_frame (ev : host_event) (m : machine) :
  props (fst (snd (host_step cfg ev m)))
  = match ev with ReceiveProps p => p | _ => props (fst m) end
  ∧ store_getState (snd (snd (host_step cfg ev m)))
    = match ev with StoreChange s => s | _ => store_getState (snd m) end.
Proof.
  destruct m as [i w].
  destruct (host_step cfg ev (i, w)) as [r [i' w']] eqn:Hr.
  destruct i as [p ss dp sp mp own store pre err el fd fs dd ds u], w.
  destruct ev as [nextProps|s|].
  - unfold host_step, componentWillReceiveProps, update_pass,
      shouldComponentUpdate, host_render in Hr.
    unfold_monad.
    host_cases_with
      ltac:(fun E => apply render_frame in E
                       as (_ & (? & _) & (? & _) & _))
      ltac:(fun E => apply handleChange_frame in E
                       as ((? & _) & (? & _) & _));
      split; congruence.
  - unfold host_step, notify, flush, update_pass,
      shouldComponentUpdate, host_render in Hr.
    unfold_monad.
    host_cases_with
      ltac:(fun E => apply render_frame in E
                       as (_ & (? & _) & (? & _) & _))
      ltac:(fun E => apply handleChange_frame in E
                       as ((? & _) & (? & _) & _));
      split; congruence.
  - unfold host_step, componentWillUnmount, tryUnsubscribe, clearCache in Hr.
    unfold_monad.
    host_cases_with
      ltac:(fun E => apply render_frame in E
                       as (_ & (? & _) & (? & _) & _))
      ltac:(fun E => apply handleChange_frame in E
                       as ((? & _) & (? & _) & _));
      split; congruence.
Qed.

Lemma after_frame (evs : list host_event) (m : machine) :
  props (fst (after cfg evs m)) = current_props (props (fst m)) evs
  ∧ store_getState (snd (after cfg evs m))
    = current_state (store_getState (snd m)) evs.
Proof.
  revert m. induction evs as [|ev rest IH]; intros m; [done|].
  rewrite after_cons.
  destruct (IH (snd (host_step cfg ev m))) as (Hp & Hs).
  destruct (host_step_frame ev m) as (Hp' & Hs').
  rewrite Hp, Hs, Hp', Hs'. by destruct ev.
Qed.

Lemma mounted_frame (s : storeState) (dispatch : value) (props0 : plainObject) :
  props (fst (mounted cfg s dispatch props0)) = props0
  ∧ store_getState (snd (mounted cfg s dispatch props0)) = s.
Proof.
  unfold mounted.
  destruct (mount cfg props0 (blank, initial_world s dispatch))
    as [r [i' w']] eqn:Hm. simpl.
  unfold mount in Hm. unfold bind at 1 in Hm. rewrite constructor_blank in Hm.
  unfold componentDidMount, trySubscribe, flush, update_pass,
    shouldComponentUpdate, host_render, constructed, initial_world in Hm.
  unfold_monad.
  host_cases_with
    ltac:(fun E => apply render_frame in E
                     as (_ & (? & _) & (? & _) & _))
    ltac:(fun E => apply handleChange_frame in E
                     as ((? & _) & (? & _) & _));
    split; congruence.
Qed.

End Present.

(** Own properties and the store's state at a point of a lifetime are the
    last ones received and the last one the store changed to. *)
Lemma lifetime_frame (cfg : config) (s : storeState) (dispatch : value)
    (props0 : plainObject) (evs : list host_event) :
  props (fst (lifetime cfg s dispatch props0 evs)) = current_props props0 evs
  ∧ store_getState (snd (lifetime cfg s dispatch props0 evs))
    = current_state s evs.
Proof.
  rewrite lifetime_after.
  destruct (after_frame cfg evs (mounted cfg s dispatch props0)) as (Hp & Hs).
  destruct (mounted_frame cfg s dispatch props0) as (Hp' & Hs').
  by rewrite Hp, Hs, Hp', Hs'.
Qed.


